(** * The docks: SelectionOrderedSet, Dock, DockPane and DockGroup

    A shallow embedding of the [SelectionOrderedSet] class (the ordered
    collection behind the dock panes) together with its transactional
    event batching, and the properties of its specification; of the view
    state of [Dock]; of [DockPane.deserialize]; and of [intersperse],
    which lays out the items of a [DockGroup].

    The JavaScript object becomes a record [state]; every method becomes an
    [action], a function from the state before the call to a completion
    (normal return or thrown exception) and the state after it.  Exceptions
    do not roll anything back in JavaScript, so the state at the moment of
    the throw is kept.  Everything the set does to the outside world
    (events handed to the emitter, [console.warn], calls of an entry's own
    [destroy]) is appended to the [trace] field.

    The class (module [selection-ordered-set]) is found in [src/dock.js],
    lines 606-910; line numbers below refer to that file.  The emitter comes from the library event-kit: [emit] runs the
    subscribed listeners in order, in the caller's stack, and an exception
    thrown by a listener propagates to the caller of [emit]. *)

From stdpp Require Import base decidable option numbers list strings.

Local Open Scope Z_scope.

(** * DockGroup: the dividers between the items of a pane

    [src/dock-group.js]. *)
Module DockGroup.
Section Intersperse.
Context {A : Type}.

(** [intersperse] (l. 69-76): [list.forEach] pushes every item onto
    [result], followed by [factory(i)] unless the item is the last.
    [rest] is what [forEach] has still to visit, [i] the position it is
    at. *)
Fixpoint intersperse_forEach (list_length : Z) (factory : Z -> A)
    (rest : list A) (i : Z) (result : list A) : list A :=
  match rest with
  | [] => result
  | item :: rest' =>
      let result := result ++ [item] in
      let result := if decide (i < list_length - 1)
                    then result ++ [factory i]
                    else result in
      intersperse_forEach list_length factory rest' (i + 1) result
  end.

Definition intersperse (items : list A) (factory : Z -> A) : list A :=
  intersperse_forEach (Z.of_nat (length items)) factory items 0 [].

(** What the loop adds to [result], item by item. *)
Fixpoint weave (factory : Z -> A) (i : Z) (rest : list A) : list A :=
  match rest with
  | [] => []
  | item :: rest' =>
      item :: match rest' with
              | [] => []
              | _ :: _ => factory i :: weave factory (i + 1) rest'
              end
  end.
End Intersperse.
End DockGroup.

(** * Dock: visibility and size of a dock

    [src/dock.js], lines 1-605.  The dock keeps its view state in
    [this.state] and changes it only through [setState], which asks etch
    for a rendering and tells the subscribers of did-change-visible when
    the visibility has changed.  The pane container, the pane items and
    the DOM are outside the class: what they answer is an argument of the
    call that asks them.  Sizes are whole numbers of pixels, [null] is
    [None].  The subscribers of did-change-visible only observe: what is
    handed to them is appended to [trace]. *)
Module Dock.

Inductive location : Type := Left | Right | Bottom.
Inductive dimension : Type := width | height.

Definition MINIMUM_SIZE : Z := 100.
Definition DEFAULT_INITIAL_SIZE : Z := 300.

(** [getWidthOrHeight] (l. 589-591) *)
Definition getWidthOrHeight (loc : location) : dimension :=
  match loc with
  | Left | Right => width
  | Bottom => height
  end.

(** A pane item: each of the two methods may be missing, and may answer
    [null] or [undefined] (here [None]). *)
Record item : Type := Item {
  getPreferredWidth : option (option Z);
  getPreferredHeight : option (option Z)
}.

(** [getPreferredSize] (l. 593-605) *)
Definition getPreferredSize (it : item) (loc : location) : option Z :=
  match loc with
  | Left | Right =>
      match getPreferredWidth it with
      | Some answer => answer
      | None => None
      end
  | Bottom =>
      match getPreferredHeight it with
      | Some answer => answer
      | None => None
      end
  end.

(** [size || fallback]: [null] and [0] are falsy. *)
Definition or_else (size : option Z) (fallback : Z) : Z :=
  match size with
  | Some v => if decide (v = 0) then fallback else v
  | None => fallback
  end.

(** What [this.paneContainer] answers when asked. *)
Record panes : Type := Panes {
  getActivePaneItem : option item;
  getPaneItems : list item
}.

(** [this.state]; [resizing] is absent until a resize starts. *)
Record state : Type := State {
  ready : bool;
  size : option Z;
  visible : bool;
  resizing : option bool
}.

(** The argument of [setState]: the keys it carries. *)
Record newState : Type := NewState {
  new_ready : option bool;
  new_size : option (option Z);
  new_visible : option bool;
  new_resizing : option bool
}.

(** [Object.assign({}, prevState, newState)] *)
Definition assign (prevState : state) (new : newState) : state :=
  State (default (ready prevState) (new_ready new))
        (default (size prevState) (new_size new))
        (default (visible prevState) (new_visible new))
        (match new_resizing new with
         | Some b => Some b
         | None => resizing prevState
         end).

Inductive effect : Type :=
| UpdateSync                            (* [etch.updateSync(this)] *)
| Update                                (* [etch.update(this)] *)
| Emit_did_change_visible (v : bool)    (* handed to the subscribers *)
| AddWindowListeners                    (* mousemove and mouseup *)
| RemoveWindowListeners
| DidActivate                           (* [this.didActivate(this)] *)
| DestroyPaneContainer.

Record dock : Type := Dock {
  loc : location;
  dock_state : state;
  emitterDisposed : bool;
  trace : list effect
}.

(** The constructor (l. 18-67). *)
Definition constructor (l : location) : dock :=
  Dock l (State false None false None) false [].

Definition log (ef : effect) (d : dock) : dock :=
  Dock (loc d) (dock_state d) (emitterDisposed d) (trace d ++ [ef]).

(** [this.emitter.emit('did-change-visible', visible)]; a disposed emitter
    delivers nothing. *)
Definition emit (v : bool) (d : dock) : dock :=
  if emitterDisposed d then d else log (Emit_did_change_visible v) d.

(** [setState] (l. 126-141) *)
Definition setState (new : newState) (d : dock) : dock :=
  let prevState := dock_state d in
  let nextState := assign prevState new in
  let d := Dock (loc d) nextState (emitterDisposed d) (trace d) in
  let d :=
    if (visible nextState && negb (visible prevState)) ||
       bool_decide (size nextState <> size prevState)
    then log UpdateSync d
    else log Update d in
  if bool_decide (visible nextState <> visible prevState)
  then emit (visible nextState) d
  else d.

(** [show], [hide], [toggle], [isVisible] (l. 102-124) *)
Definition show : dock -> dock :=
  setState (NewState None None (Some true) None).
Definition hide : dock -> dock :=
  setState (NewState None None (Some false) None).
Definition toggle (d : dock) : dock :=
  setState (NewState None None (Some (negb (visible (dock_state d)))) None) d.
Definition isVisible (d : dock) : bool := visible (dock_state d).

(** [getElement] (l. 75-83) and [elementAttached] (l. 70-73) *)
Definition getElement (d : dock) : dock :=
  if negb (ready (dock_state d))
  then log UpdateSync (setState (NewState (Some true) None None None) d)
  else d.
Definition elementAttached : dock -> dock := log UpdateSync.

(** What [render] (l. 143-174) hands to etch: the class name and the
    styled dimension of the [atom-dock] element, the pixels it is given,
    and, once the dock is ready, whether the resize handle is marked
    resizable and whether the cursor overlay is marked visible. *)
Record rendered : Type := Rendered {
  className : location;
  styled : dimension;
  pixels : Z;
  contents : option (bool * bool)
}.

Definition render (d : dock) : rendered :=
  let st := dock_state d in
  let atomDock (size : Z) (children : option (bool * bool)) :=
    Rendered (loc d) (getWidthOrHeight (loc d))
             (if visible st then size else 0) children in
  if negb (ready st) then atomDock 0 None
  else
    let size := Z.max MINIMUM_SIZE (or_else (size st) DEFAULT_INITIAL_SIZE) in
    atomDock size (Some (visible st, default false (resizing st))).

(** [getInitialSize] (l. 235-242) *)
Definition getInitialSize (pc : panes) (d : dock) : option Z :=
  let activePaneItem :=
    match getActivePaneItem pc with
    | Some it => Some it
    | None => head (getPaneItems pc)
    end in
  match activePaneItem with
  | Some it =>
      Some (or_else (getPreferredSize it (loc d)) DEFAULT_INITIAL_SIZE)
  | None => None
  end.

(** [handleDidAddPaneItem] and [handleDidRemovePaneItem] (l. 181-192) *)
Definition handleDidAddPaneItem (pc : panes) (d : dock) : dock :=
  match size (dock_state d) with
  | None => setState (NewState None (Some (getInitialSize pc d)) None None) d
  | Some _ => d
  end.

Definition handleDidRemovePaneItem (pc : panes) (d : dock) : dock :=
  if decide (length (getPaneItems pc) = 0%nat)
  then setState (NewState None (Some None) (Some false) None) d
  else d.

(** Resizing (l. 194-233) *)
Definition handleResizeHandleDragStart (d : dock) : dock :=
  setState (NewState None None None (Some true)) (log AddWindowListeners d).

Definition handleResizeToFit (pc : panes) (d : dock) : dock :=
  match getActivePaneItem pc with
  | Some it =>
      match getPreferredSize it (loc d) with
      | Some size => setState (NewState None (Some (Some size)) None None) d
      | None => d
      end
  | None => d
  end.

Definition handleMouseUp (d : dock) : dock :=
  setState (NewState None None None (Some false)) (log RemoveWindowListeners d).

Record mouseEvent : Type := MouseEvent {
  buttons : Z;
  pageX : Z;
  pageY : Z
}.

(** [this.element.getBoundingClientRect()] *)
Record clientRect : Type := ClientRect {
  rect_left : Z;
  rect_right : Z;
  rect_bottom : Z
}.

Definition handleMouseMove (event : mouseEvent) (rect : clientRect)
    (d : dock) : dock :=
  if decide (buttons event = 0) then handleMouseUp d
  else
    let size :=
      match loc d with
      | Left => pageX event - rect_left rect
      | Bottom => rect_bottom rect - pageY event
      | Right => rect_right rect - pageX event
      end in
    setState (NewState None (Some (Some size)) None None) d.

(** [serialize] and [deserialize] (l. 244-260); the pane container
    serializes itself. *)
Record serialized : Type := Serialized {
  ser_size : option Z;
  ser_visible : bool
}.

Definition serialize (d : dock) : serialized :=
  Serialized (size (dock_state d)) (visible (dock_state d)).

Definition deserialize (ser : serialized) (pc : panes) (d : dock) : dock :=
  setState
    (NewState None
       (Some (match ser_size ser with
              | Some v => if decide (v = 0) then getInitialSize pc d
                          else Some v
              | None => getInitialSize pc d
              end))
       (Some (ser_visible ser &&
              bool_decide (0 < length (getPaneItems pc))%nat))
       None)
    d.

(** [destroy] (l. 89-94): the subscriptions hold the emitter. *)
Definition destroy (d : dock) : dock :=
  log RemoveWindowListeners
    (log DestroyPaneContainer
       (Dock (loc d) (dock_state d) true (trace d))).

(** What is done to a dock, by its owner, by the pane container (through
    the subscriptions of the constructor) and by the resize handle. *)
Inductive cmd : Type :=
| Call_show
| Call_hide
| Call_toggle
| Call_getElement
| Call_elementAttached
| DidActivatePane                       (* l. 53-56 *)
| Call_handleDidAddPaneItem (pc : panes)
| Call_handleDidRemovePaneItem (pc : panes)
| Call_handleResizeHandleDragStart
| Call_handleResizeToFit (pc : panes)
| Call_handleMouseMove (event : mouseEvent) (rect : clientRect)
| Call_handleMouseUp
| Call_deserialize (ser : serialized) (pc : panes)
| Call_destroy.

Definition exec (c : cmd) : dock -> dock :=
  match c with
  | Call_show => show
  | Call_hide => hide
  | Call_toggle => toggle
  | Call_getElement => getElement
  | Call_elementAttached => elementAttached
  | DidActivatePane => fun d => log DidActivate (show d)
  | Call_handleDidAddPaneItem pc => handleDidAddPaneItem pc
  | Call_handleDidRemovePaneItem pc => handleDidRemovePaneItem pc
  | Call_handleResizeHandleDragStart => handleResizeHandleDragStart
  | Call_handleResizeToFit pc => handleResizeToFit pc
  | Call_handleMouseMove event rect => handleMouseMove event rect
  | Call_handleMouseUp => handleMouseUp
  | Call_deserialize ser pc => deserialize ser pc
  | Call_destroy => destroy
  end.

Definition run (cs : list cmd) (d : dock) : dock :=
  foldl (fun d c => exec c d) d cs.

Definition is_destroy (c : cmd) : bool :=
  match c with
  | Call_destroy => true
  | _ => false
  end.

(** [observeVisible] (l. 282-285): the callback is called at once with the
    current visibility and then with every did-change-visible.  The list
    of its arguments, for a subscription made on [d] after which the dock
    did [later]. *)
Definition visible_payloads (t : list effect) : list bool :=
  omap (fun ef => match ef with
                  | Emit_did_change_visible v => Some v
                  | _ => None
                  end) t.

Definition observeVisible (d : dock) (later : list effect) : list bool :=
  isVisible d :: visible_payloads later.

(** Every value differs from the one before it. *)
Fixpoint alternates (before : bool) (l : list bool) : Prop :=
  match l with
  | [] => True
  | v :: l' => v = negb before /\ alternates v l'
  end.

(** What a subscriber of did-change-visible knows after a step. *)
Definition informed (d d' : dock) : Prop :=
  emitterDisposed d' = false /\
  exists later : list effect,
    trace d' = trace d ++ later /\
    last (observeVisible d later) = Some (isVisible d') /\
    alternates (isVisible d) (visible_payloads later).

End Dock.

(** * DockPane: restoring a pane of a dock

    [src/dock-pane.js]. *)
Module DockPane.
Section Deserialize.
Context {ItemState Item : Type}.

(** [deserializers.deserialize(itemState)]; nothing usable is [None]. *)
Variable deserializeItem : ItemState -> option Item.
(** [item.getURI]: the method may be missing, and may answer
    [undefined]. *)
Variable getURI : Item -> option (option string).

(** The serialized pane, as far as [deserialize] reads it. *)
Record serialized : Type := Serialized {
  ser_items : list ItemState;
  activeItemIndex : option Z;
  activeItemURI : option string;
  activeItemUri : option string
}.

(** What is handed to [new DockPane(...)]. *)
Record params : Type := Params {
  items : list Item;
  activeItem : option Item
}.

(** [arr[i]] *)
Definition at_index (l : list Item) (i : Z) : option Item :=
  if decide (i < 0) then None else l !! Z.to_nat i.

(** A string is truthy unless it is missing or empty. *)
Definition truthy (v : option string) : bool :=
  match v with
  | Some EmptyString | None => false
  | Some _ => true
  end.

(** [arr.find(test)] *)
Fixpoint find (test : Item -> bool) (l : list Item) : option Item :=
  match l with
  | [] => None
  | item :: l' => if test item then Some item else find test l'
  end.

(** [DockPane.deserialize] (l. 5-30) *)
Definition deserialize (state : serialized) : params :=
  let activeItemURI :=
    if truthy (activeItemURI state) then activeItemURI state
    else activeItemUri state in
  let items := omap deserializeItem (ser_items state) in
  let activeItem :=
    match activeItemIndex state with
    | Some i => at_index items i
    | None => None
    end in
  let activeItem :=
    match activeItem with
    | Some item => Some item
    | None =>
        if truthy activeItemURI
        then find (fun item =>
                     match getURI item with
                     | Some uri => bool_decide (uri = activeItemURI)
                     | None => false
                     end) items
        else None
    end in
  Params items activeItem.
End Deserialize.
End DockPane.

(** * SelectionOrderedSet *)
Module SelectionOrderedSet.

(** ** JavaScript values the class relies on *)

(** [this.alive] is either never assigned ([undefined]) or a boolean. *)
Inductive jsval : Type :=
| JUndefined
| JBool (b : bool).

(** Truthiness as used by [!x]. *)
Definition truthy (v : jsval) : bool :=
  match v with
  | JUndefined => false
  | JBool b => b
  end.

Inductive error : Type :=
| AssertionError            (* thrown by [invariant(...)] *)
| Error (msg : string).     (* thrown by [throw new Error(msg)] *)

Inductive completion : Type :=
| Normal
| Throw (e : error)
| OutOfFuel.

#[global] Instance jsval_eq_dec : EqDecision jsval.
Proof. solve_decision. Defined.
#[global] Instance error_eq_dec : EqDecision error.
Proof. solve_decision. Defined.
#[global] Instance completion_eq_dec : EqDecision completion.
Proof. solve_decision. Defined.

(** ** Arrays *)

Section Arrays.
Context {A : Type} `{EqDecision A}.

(** [arr[i]]: [undefined] (here [None]) outside the array. *)
Definition at_index (l : list A) (i : Z) : option A :=
  if decide (i < 0) then None else l !! Z.to_nat i.

(** The start position [Array.prototype.splice] derives from its first
    argument: negative positions count from the end, and the result is
    clamped to [0, length]. *)
Definition spliceStart (len index : Z) : Z :=
  if decide (index < 0) then Z.max (len + index) 0 else Z.min index len.

(** [arr.splice(index, 0, x)] *)
Definition splice_insert (index : Z) (x : A) (l : list A) : list A :=
  let start := Z.to_nat (spliceStart (Z.of_nat (length l)) index) in
  take start l ++ x :: drop start l.

(** [arr.splice(index, 1)] *)
Definition splice_remove (index : Z) (l : list A) : list A :=
  let start := Z.to_nat (spliceStart (Z.of_nat (length l)) index) in
  take start l ++ drop (S start) l.

(** [arr.indexOf(x)], searching from position [i]. *)
Fixpoint indexOf_from (x : A) (l : list A) (i : Z) : Z :=
  match l with
  | [] => -1
  | y :: l' => if decide (y = x) then i else indexOf_from x l' (i + 1)
  end.

(** [arr.includes(x)] *)
Definition array_includes (x : A) (l : list A) : bool :=
  bool_decide (x ∈ l).
End Arrays.

(** ** The object, its events and the calls made on it *)

Section Model.
Context {Entry : Type} `{EqDecision Entry}.

(** [typeof entry.destroy === 'function'] *)
Variable hasDestroy : Entry -> bool.

Inductive event : Type :=
| did_add_entry (entry : Entry) (index : Z)
| did_remove_entry (entry : option Entry) (index : Z)
| did_change_entries (snapshot : list Entry)
| did_change_selected_entry (selected : option Entry)
| did_destroy.

Inductive effect : Type :=
| Emit (ev : event)              (* an event handed to the subscribers *)
| Warn                           (* [console.warn(...)] in [transact] *)
| EntryDestroy (entry : Entry).  (* [entry.destroy()] *)

(** Calls on the public interface, as a caller or a listener makes them. *)
#[warnings="-register-all"]
Inductive cmd : Type :=
| Call_add (entry : Entry)
| Call_addAt (entry : Entry) (index : Z)
| Call_remove (entry : Entry)
| Call_removeAt (index : Z)
| Call_selectNext
| Call_selectPrevious
| Call_select (entry : Entry)
| Call_selectAt (index : Z)
| Call_destroy
| Call_destroyEntries
| Call_transact (body : list cmd).

Record state : Type := State {
  entries : list Entry;
  selectedIndex : Z;
  transactionDepth : Z;
  currentTransactionChangedEntries : bool;
  emitting : bool;
  alive : jsval;
  emitterDisposed : bool;
  trace : list effect
}.

Definition set_entries (v : list Entry) (s : state) : state :=
  State v (selectedIndex s) (transactionDepth s)
    (currentTransactionChangedEntries s) (emitting s) (alive s)
    (emitterDisposed s) (trace s).
Definition set_selectedIndex (v : Z) (s : state) : state :=
  State (entries s) v (transactionDepth s)
    (currentTransactionChangedEntries s) (emitting s) (alive s)
    (emitterDisposed s) (trace s).
Definition set_transactionDepth (v : Z) (s : state) : state :=
  State (entries s) (selectedIndex s) v
    (currentTransactionChangedEntries s) (emitting s) (alive s)
    (emitterDisposed s) (trace s).
Definition set_changed (v : bool) (s : state) : state :=
  State (entries s) (selectedIndex s) (transactionDepth s)
    v (emitting s) (alive s) (emitterDisposed s) (trace s).
Definition set_emitting (v : bool) (s : state) : state :=
  State (entries s) (selectedIndex s) (transactionDepth s)
    (currentTransactionChangedEntries s) v (alive s)
    (emitterDisposed s) (trace s).
Definition set_alive (v : jsval) (s : state) : state :=
  State (entries s) (selectedIndex s) (transactionDepth s)
    (currentTransactionChangedEntries s) (emitting s) v
    (emitterDisposed s) (trace s).
Definition set_emitterDisposed (v : bool) (s : state) : state :=
  State (entries s) (selectedIndex s) (transactionDepth s)
    (currentTransactionChangedEntries s) (emitting s) (alive s)
    v (trace s).
Definition log (ef : effect) (s : state) : state :=
  State (entries s) (selectedIndex s) (transactionDepth s)
    (currentTransactionChangedEntries s) (emitting s) (alive s)
    (emitterDisposed s) (trace s ++ [ef]).

(** *** A small state-and-exception monad (all methods return nothing) *)

Definition action : Type := state -> completion * state.

Definition ret : action := fun s => (Normal, s).
Definition throw (e : error) : action := fun s => (Throw e, s).
Definition modify (f : state -> state) : action := fun s => (Normal, f s).
Definition seq (a b : action) : action :=
  fun s => match a s with
           | (Normal, s') => b s'
           | r => r
           end.

Local Notation "a >> b" := (seq a b) (at level 62, right associativity).

(** [arr.forEach(f)] over a snapshot. *)
Fixpoint forEach (l : list Entry) (f : Entry -> action) : action :=
  match l with
  | [] => ret
  | x :: l' => f x >> forEach l' f
  end.

(** *** Constructor (l. 627-645)

    [options.entries] and [options.selectedIndex] may be absent.  The
    [alive] field is not assigned here, and neither is [emitting].  The
    subscriptions set up by [usingEachEntry] only manage disposables and
    never touch the fields of the set, so they leave no mark on [state]. *)
Definition constructor (opt_entries : option (list Entry))
    (opt_selectedIndex : option Z) : error + state :=
  let ents := default [] opt_entries in
  let mk (sel : Z) := State ents sel 0 false false JUndefined false [] in
  match opt_selectedIndex with
  | None => inr (mk (if decide (Z.of_nat (length ents) = 0) then -1 else 0))
  | Some i =>
      if decide (i = -1 /\ Z.of_nat (length ents) <> 0)
      then inl (Error "Initial selection required")
      else if decide (i >= Z.of_nat (length ents))
      then inl (Error "Invalid selected entry index")
      else inr (mk i)
  end.

(** *** Queries (l. 647-657, 671-673) *)

Definition isAlive (s : state) : jsval := alive s.
Definition isDestroyed (s : state) : bool := negb (truthy (isAlive s)).
Definition getSelectedIndex (s : state) : Z := selectedIndex s.
Definition getSelectedEntry (s : state) : option Entry :=
  at_index (entries s) (selectedIndex s).
Definition getEntries (s : state) : list Entry := entries s.
Definition getSize (s : state) : Z := Z.of_nat (length (entries s)).
Definition includes (entry : Entry) (s : state) : bool :=
  array_includes entry (entries s).
Definition indexOf (entry : Entry) (s : state) : Z :=
  indexOf_from entry (entries s) 0.

(** *** Methods

    [L ev] lists the calls the subscribed listeners make on the set when
    they receive [ev]; [handlers] runs such a list.  Both are fixed below,
    once the interpreter of calls is defined. *)
Section Methods.
Variable L : event -> list cmd.
Variable handlers : list cmd -> action.

(** [emit] (l. 806-811): the flag is raised, the emitter runs the listeners, the
    flag is lowered.  A listener that throws leaves the flag raised.
    A disposed emitter has no handlers left and delivers nothing. *)
Definition emit (ev : event) : action := fun s =>
  let s1 := set_emitting true s in
  match (if emitterDisposed s1 then (Normal, s1)
         else handlers (L ev) (log (Emit ev) s1)) with
  | (Normal, s2) => (Normal, set_emitting false s2)
  | r => r
  end.

(** [transact] (l. 751-802). *)
Definition transact (fn : action) : action := fun s0 =>
  let s := if emitting s0 then log Warn s0 else s0 in
  let prevSelectedEntry := getSelectedEntry s in
  (modify (fun s => set_transactionDepth (transactionDepth s + 1) s) >>
   fn >>
   modify (fun s => set_transactionDepth (transactionDepth s - 1) s) >>
   (fun s =>
      if decide (transactionDepth s <> 0) then ret s
      else
        ((fun s =>
            if currentTransactionChangedEntries s
            then (modify (set_changed false) >>
                  (fun s => emit (did_change_entries (getEntries s)) s)) s
            else ret s) >>
         (fun s =>
            let selectedEntry := getSelectedEntry s in
            if decide (selectedEntry <> prevSelectedEntry)
            then emit (did_change_selected_entry selectedEntry) s
            else ret s)) s)) s.

(** The event triggers (l. 878-890). *)
Definition didAddEntry (entry : Entry) (index : Z) : action :=
  modify (set_changed true) >> emit (did_add_entry entry index).

Definition didRemoveEntry (entry : option Entry) (index : Z) : action :=
  modify (set_changed true) >> emit (did_remove_entry entry index).

Definition didDestroy : action := emit did_destroy.

(** [addAt] (l. 661-669); [invariant] is Node's [assert]. *)
Definition addAt (entry : Entry) (index : Z) : action :=
  transact (fun s =>
    if includes entry s then throw AssertionError s
    else if decide (index <= getSize s) then
      (modify (fun s => set_entries (splice_insert index entry (entries s)) s) >>
       modify (fun s => if decide (index <= selectedIndex s)
                        then set_selectedIndex (selectedIndex s + 1) s
                        else s) >>
       didAddEntry entry index) s
    else throw AssertionError s).

(** [add] (l. 659). *)
Definition add (entry : Entry) : action :=
  fun s => addAt entry (getSize s) s.

(** [removeAt] (l. 681-695). *)
Definition removeAt (index : Z) : action :=
  transact (fun s =>
    let entry := at_index (entries s) index in
    (modify (fun s => set_entries (splice_remove index (entries s)) s) >>
     modify (fun s =>
       let size := getSize s in
       if decide (size = 0) then set_selectedIndex (-1) s
       else if decide (index < selectedIndex s)
       then set_selectedIndex (Z.max 0 (selectedIndex s - 1)) s
       else set_selectedIndex (Z.min (selectedIndex s) (size - 1)) s) >>
     didRemoveEntry entry index) s).

(** [remove] (l. 675-679). *)
Definition remove (entry : Entry) : action := fun s =>
  let index := indexOf entry s in
  if decide (index = -1) then ret s else removeAt index s.

(** [selectAt] (l. 715-721). *)
Definition selectAt (index : Z) : action :=
  transact (fun s =>
    if decide (index = selectedIndex s) then ret s
    else if decide (index < 0 \/ index >= getSize s)
    then throw (Error "Invalid selection index") s
    else modify (set_selectedIndex index) s).

(** [selectNext], [selectPrevious], [select] (l. 697-713); [%] is the
    remainder with the sign of the dividend. *)
Definition selectNext : action := fun s =>
  let size := getSize s in
  if decide (size = 0) then ret s
  else selectAt (Z.rem (selectedIndex s + 1) size) s.

Definition selectPrevious : action := fun s =>
  let size := getSize s in
  if decide (size = 0) then ret s
  else selectAt (Z.rem (selectedIndex s - 1 + size) size) s.

Definition select (entry : Entry) : action := fun s =>
  let index := indexOf entry s in
  if decide (index = -1) then throw (Error "Entry not in set") s
  else selectAt index s.

(** The module-level helper [destroyEntry] (l. 908-910). *)
Definition destroyEntry (entry : Entry) : action :=
  if hasDestroy entry then modify (log (EntryDestroy entry)) else ret.

(** [destroyEntries] (l. 731-739).  An entry whose [destroy] signals its
    destruction to a set still listening would be removed by that signal,
    and the [remove] that follows would find nothing; the entries here do
    not call back. *)
Definition destroyEntries : action :=
  transact (fun s =>
    forEach (getEntries s) (fun entry =>
      (fun s => if includes entry s then ret s
                else throw (Error "Entry not in set") s) >>
      destroyEntry entry >>
      remove entry) s).

(** [destroy] (l. 723-729).  [this.subscriptions.dispose()] comes first: the
    set no longer listens to its entries, so an entry destroyed below does
    not call back into [remove]. *)
Definition destroy : action :=
  destroyEntries >>
  modify (set_alive (JBool false)) >>
  didDestroy >>
  modify (set_emitterDisposed true).

(** One call; the body of a [transact] call is a block of calls. *)
Fixpoint exec (c : cmd) : action :=
  match c with
  | Call_add entry => add entry
  | Call_addAt entry index => addAt entry index
  | Call_remove entry => remove entry
  | Call_removeAt index => removeAt index
  | Call_selectNext => selectNext
  | Call_selectPrevious => selectPrevious
  | Call_select entry => select entry
  | Call_selectAt index => selectAt index
  | Call_destroy => destroy
  | Call_destroyEntries => destroyEntries
  | Call_transact body =>
      transact ((fix block (cs : list cmd) : action :=
                   match cs with
                   | [] => ret
                   | c' :: cs' => exec c' >> block cs'
                   end) body)
  end.

Fixpoint exec_list (cs : list cmd) : action :=
  match cs with
  | [] => ret
  | c :: cs' => exec c >> exec_list cs'
  end.
End Methods.

(** Listeners may call back into the set, and nothing bounds how deep
    that goes: [fuel] is the number of nested dispatches allowed.  A
    dispatch in which no listener calls the set needs none. *)
Fixpoint handlers_at (L : event -> list cmd) (fuel : nat) (cs : list cmd)
    : action :=
  match fuel with
  | O => match cs with
         | [] => ret
         | _ :: _ => fun s => (OutOfFuel, s)
         end
  | S n => exec_list L (handlers_at L n) cs
  end.

(** Running calls from the top level. *)
Definition run (L : event -> list cmd) (fuel : nat) (cs : list cmd) : action :=
  exec_list L (handlers_at L fuel) cs.

(** Listeners that only observe. *)
Definition silent : event -> list cmd := fun _ => [].


(** The events that [transact] batches. *)
Definition is_bulk (ef : effect) : bool :=
  match ef with
  | Emit (did_change_entries _) => true
  | Emit (did_change_selected_entry _) => true
  | _ => false
  end.

(** Calls that add, remove or select, and blocks of such calls. *)
Fixpoint mutation (c : cmd) : bool :=
  match c with
  | Call_destroy | Call_destroyEntries => false
  | Call_transact body => forallb mutation body
  | _ => true
  end.

(** *** What the methods amount to when no listener calls back

    [deliver] is the state [emit] leaves behind, and [commit] the state
    [transact] leaves behind once its body has returned normally in state
    [s]; [prevSelectedEntry] is the selection recorded on entry. *)
Definition deliver (ev : event) (s : state) : state :=
  set_emitting false (if emitterDisposed s then s else log (Emit ev) s).

Definition commit (prevSelectedEntry : option Entry) (s : state) : state :=
  let s1 := set_transactionDepth (transactionDepth s - 1) s in
  if decide (transactionDepth s1 <> 0) then s1
  else
    let s2 := if currentTransactionChangedEntries s1
              then deliver (did_change_entries (getEntries s1))
                     (set_changed false s1)
              else s1 in
    let selectedEntry := getSelectedEntry s2 in
    if decide (selectedEntry <> prevSelectedEntry)
    then deliver (did_change_selected_entry selectedEntry) s2
    else s2.

(** The state in which the body of a [transact] call starts. *)
Definition enter (s : state) : state :=
  let s1 := if emitting s then log Warn s else s in
  set_transactionDepth (transactionDepth s1 + 1) s1.

(** An action [defers] when, run inside an open transaction, it always
    completes, emits none of the batched events, leaves the emitter as it
    is, and leaves the transaction open: at the same depth when it returns,
    and still open when it throws. *)
Definition defers (a : action) : Prop :=
  forall s, 1 <= transactionDepth s ->
    exists (st : completion) (s' : state) (t : list effect),
      a s = (st, s') /\
      st <> OutOfFuel /\
      trace s' = trace s ++ t /\
      Forall (fun ef => is_bulk ef = false) t /\
      (st = Normal -> transactionDepth s' = transactionDepth s) /\
      1 <= transactionDepth s' /\
      emitterDisposed s' = emitterDisposed s.

(** *** Serialization (l. 894-905)

    [serialize] asks every entry for its own representation;
    [deserialize] hands every representation to the deserializer manager
    and builds a new set from the results.  A missing [entries] field is
    read as the empty list ([state.entries || []]), a missing
    [selectedIndex] is passed on as such. *)
Section Serialization.
Context {Rep : Type}.
Variable serializeEntry : Entry -> Rep.      (* [entry.serialize()] *)
Variable deserializeEntry : Rep -> Entry.    (* [deserializers.deserialize(rep)] *)

Record serialized : Type := Serialized {
  ser_deserializer : string;
  ser_entries : option (list Rep);
  ser_selectedIndex : option Z
}.

Definition serialize (s : state) : serialized :=
  Serialized "SelectionOrderedSet"
    (Some (map serializeEntry (getEntries s)))
    (Some (selectedIndex s)).

Definition deserialize (st : serialized) : error + state :=
  let ents := map deserializeEntry (default [] (ser_entries st)) in
  constructor (Some ents) (ser_selectedIndex st).
End Serialization.

(** *** Observation (l. 835-838, 845-848)

    [observeEntries] and [observeSelectedEntry] call the callback at once
    with the current value and then subscribe it to one event.  What
    follows is the list of arguments the callback has been called with,
    for a subscription made in state [s] after which the set did [later]. *)
Definition entries_payloads (t : list effect) : list (list Entry) :=
  omap (fun ef => match ef with
                  | Emit (did_change_entries snapshot) => Some snapshot
                  | _ => None
                  end) t.

Definition selected_payloads (t : list effect) : list (option Entry) :=
  omap (fun ef => match ef with
                  | Emit (did_change_selected_entry selected) => Some selected
                  | _ => None
                  end) t.

Definition observeEntries (s : state) (later : list effect)
    : list (list Entry) :=
  getEntries s :: entries_payloads later.

Definition observeSelectedEntry (s : state) (later : list effect)
    : list (option Entry) :=
  getSelectedEntry s :: selected_payloads later.

(** *** [usingEachEntry] (l. 852-870)

    The callback is called for every entry of the set and for every entry
    of a later did-add-entry; what it returns is disposed of when a
    did-remove-entry carries that very entry ([ent === entry]), and
    everything is disposed of, the subscriptions included, at did-destroy.
    [usingEachEntry s later] lists the entries whose disposable is still
    held, for a call made in state [s] after which the set did [later]. *)
Fixpoint usingEachEntry_from (held : list Entry) (later : list effect)
    : list Entry :=
  match later with
  | [] => held
  | Emit (did_add_entry entry _) :: later' =>
      usingEachEntry_from (held ++ [entry]) later'
  | Emit (did_remove_entry (Some ent) _) :: later' =>
      usingEachEntry_from (filter (fun entry => entry <> ent) held) later'
  | Emit did_destroy :: _ => []
  | _ :: later' => usingEachEntry_from held later'
  end.

Definition usingEachEntry (s : state) (later : list effect) : list Entry :=
  usingEachEntry_from (getEntries s) later.

(** Calls that name the entry they are about or select by position, and
    blocks of such calls. *)
Fixpoint by_entry (c : cmd) : bool :=
  match c with
  | Call_removeAt _ | Call_destroy | Call_destroyEntries => false
  | Call_transact body => forallb by_entry body
  | _ => true
  end.

(** What holds of an action run in state [s] on a live set of distinct
    entries: the set stays so, and the disposables held follow the
    entries. *)
Definition holds_at (a : action) (s : state) : Prop :=
  emitterDisposed s = false -> NoDup (entries s) ->
  emitterDisposed (a s).2 = false /\
  NoDup (entries (a s).2) /\
  exists t : list effect,
    trace (a s).2 = trace s ++ t /\
    Forall (fun ef => ef <> Emit did_destroy) t /\
    usingEachEntry_from (entries s) t ≡ₚ entries (a s).2.

(** *** The callbacks handed to [transact]

    The functions that [addAt], [removeAt] and [selectAt] pass to
    [transact], by name. *)
Section Callbacks.
Variable L : event -> list cmd.
Variable handlers : list cmd -> action.

Definition addAt_body (entry : Entry) (index : Z) : action := fun s =>
  if includes entry s then throw AssertionError s
  else if decide (index <= getSize s) then
    (modify (fun s => set_entries (splice_insert index entry (entries s)) s) >>
     modify (fun s => if decide (index <= selectedIndex s)
                      then set_selectedIndex (selectedIndex s + 1) s
                      else s) >>
     didAddEntry L handlers entry index) s
  else throw AssertionError s.

Definition removeAt_body (index : Z) : action := fun s =>
  let entry := at_index (entries s) index in
  (modify (fun s => set_entries (splice_remove index (entries s)) s) >>
   modify (fun s =>
     let size := getSize s in
     if decide (size = 0) then set_selectedIndex (-1) s
     else if decide (index < selectedIndex s)
     then set_selectedIndex (Z.max 0 (selectedIndex s - 1)) s
     else set_selectedIndex (Z.min (selectedIndex s) (size - 1)) s) >>
   didRemoveEntry L handlers entry index) s.

Definition selectAt_body (index : Z) : action := fun s =>
  if decide (index = selectedIndex s) then ret s
  else if decide (index < 0 \/ index >= getSize s)
  then throw (Error "Invalid selection index") s
  else modify (set_selectedIndex index) s.
End Callbacks.

(** *** Relations every call respects

    [respects R a]: from every state, the state [a] leaves behind is related
    by [R] to the one it started from, given how [a] completed. *)
Definition respects (R : state -> completion -> state -> Prop) (a : action)
    : Prop :=
  forall s, R s (a s).1 (a s).2.

(** A set without duplicates still has none. *)
Definition keeps_distinct (s : state) (c : completion) (s' : state) : Prop :=
  NoDup (entries s) -> NoDup (entries s').

(** The transaction depth is back where it was after a normal return, and
    is never lower than it was. *)
Definition keeps_depth (s : state) (c : completion) (s' : state) : Prop :=
  (c = Normal -> transactionDepth s' = transactionDepth s) /\
  transactionDepth s <= transactionDepth s'.


(** The selected index stays between -1 and the last position. *)
Definition keeps_in_bounds (s : state) (c : completion) (s' : state) : Prop :=
  -1 <= selectedIndex s < getSize s ->
  -1 <= selectedIndex s' < getSize s'.

(** An action [tracks] when, run inside an open transaction, it leaves the
    dirty flag raised, or leaves the entries and the flag as they were. *)
Definition tracks (a : action) : Prop :=
  forall s, 1 <= transactionDepth s ->
    currentTransactionChangedEntries (a s).2 = true \/
    (entries (a s).2 = entries s /\
     currentTransactionChangedEntries (a s).2 =
     currentTransactionChangedEntries s).

(** What a subscriber of the batched events knows after a call made from
    the top level: the transaction is closed, the dirty flag is down, and
    the last snapshot and the last selected entry it has been told, or saw
    when it subscribed, are the current ones. *)
Definition keeps_observers_informed (s s' : state) : Prop :=
  transactionDepth s' = 0 /\
  emitterDisposed s' = false /\
  currentTransactionChangedEntries s' = false /\
  exists t : list effect,
    trace s' = trace s ++ t /\
    last (observeEntries s t) = Some (getEntries s') /\
    last (observeSelectedEntry s t) = Some (getSelectedEntry s').

(** *** The selection invariant

    Nothing selected in the empty set, a valid index otherwise. *)
Definition valid_selection (s : state) : Prop :=
  (entries s = [] /\ selectedIndex s = -1) \/
  0 <= selectedIndex s < getSize s.

(** The calls for which the code keeps the invariant: additions, removals
    and selections, except insertions into the empty set. *)
Definition keeps_selection_valid (c : cmd) (s : state) : Prop :=
  match c with
  | Call_add _ | Call_addAt _ _ => entries s <> []
  | Call_destroy | Call_destroyEntries | Call_transact _ => False
  | _ => True
  end.

(** *** Reading traces *)

Definition is_did_remove_entry (ef : effect) : bool :=
  match ef with Emit (did_remove_entry _ _) => true | _ => false end.
Definition is_did_change_entries (ef : effect) : bool :=
  match ef with Emit (did_change_entries _) => true | _ => false end.
Definition is_did_change_selected_entry (ef : effect) : bool :=
  match ef with Emit (did_change_selected_entry _) => true | _ => false end.
Definition is_did_destroy (ef : effect) : bool :=
  match ef with Emit did_destroy => true | _ => false end.
Definition is_warning (ef : effect) : bool :=
  match ef with Warn => true | _ => false end.

(** How many effects of a trace satisfy [p]. *)
Fixpoint count (p : effect -> bool) (t : list effect) : nat :=
  match t with
  | [] => O
  | ef :: t' => if p ef then S (count p t') else count p t'
  end.

(** What [destroyEntries] does entry by entry: the entry's own [destroy]
    where it has one, then its removal, which always finds it in front. *)
Fixpoint destroy_trace (l : list Entry) : list effect :=
  match l with
  | [] => []
  | entry :: l' =>
      (if hasDestroy entry then [EntryDestroy entry] else []) ++
      Emit (did_remove_entry (Some entry) 0) :: destroy_trace l'
  end.

End Model.

(** ** Concrete sets used as test inputs

    Entries are strings, as in the unit tests of the class. *)

Definition plain : string -> bool := fun _ => false.
Definition destructible : string -> bool := fun _ => true.

(** The state right after [new SelectionOrderedSet({entries, selectedIndex})]
    has run without throwing. *)
Definition fresh (ents : list string) (sel : Z) : @state string :=
  State ents sel 0 false false JUndefined false [].

(** A listener that, on seeing the entry [a] added, adds [b] and then [c]. *)
Definition adds_two (ev : @event string) : list (@cmd string) :=
  match ev with
  | did_add_entry "a" _ => [Call_add "b"; Call_add "c"]
  | _ => []
  end.

(** The transaction of the unit test "defers dispatching of
    did-change-entries and did-change-selected-entry", and the state it
    leaves behind when run on [fresh ["a"; "b"; "c"] 0]. *)
Definition test_body : list (@cmd string) :=
  [Call_add "d"; Call_remove "a"; Call_select "c"].

Definition after_test_body : @state string :=
  State ["b"; "c"; "d"] 1 0 false false JUndefined false
    [Emit (did_add_entry "d" 3);
     Emit (did_remove_entry (Some "a") 0);
     Emit (did_change_entries ["b"; "c"; "d"]);
     Emit (did_change_selected_entry (Some "c"))].

(** The set reached by [new SelectionOrderedSet()] followed by [add("a")]. *)
Definition after_first_add : @state string :=
  State ["a"] (-1) 0 false false JUndefined false
    [Emit (did_add_entry "a" 0); Emit (did_change_entries ["a"])].

(** The set reached by [new SelectionOrderedSet()] followed by
    [destroy()]. *)
Definition after_destroy_of_empty : @state string :=
  State [] (-1) 0 false false (JBool false) true [Emit did_destroy].

(** Entries that serialize to themselves behind a mark, and the
    deserializer that takes the mark off. *)
Definition tagged (e : string) : string := String.append "#" e.
Definition untagged (rep : string) : string :=
  match rep with
  | String _ e => e
  | EmptyString => EmptyString
  end.

(** ** Properties *)

Section Properties.
Context {Entry : Type} `{EqDecision Entry}.
Variable hasDestroy : Entry -> bool.

Local Abbreviation state := (@state Entry).
Local Abbreviation cmd := (@cmd Entry).
Local Abbreviation event := (@event Entry).
Local Abbreviation effect := (@effect Entry).
Local Abbreviation action := (@action Entry).
Local Abbreviation defers := (@defers Entry).
Local Abbreviation tracks := (@tracks Entry).
Local Abbreviation holds_at := (@holds_at Entry _).
Local Abbreviation run := (run hasDestroy).
Local Abbreviation exec := (exec hasDestroy).
Local Abbreviation exec_list := (exec_list hasDestroy).
Local Abbreviation handlers_at := (handlers_at hasDestroy).
Local Abbreviation destroy_trace := (destroy_trace hasDestroy).

(** Induction on calls, with the hypothesis available for every call of a
    [transact] block. *)
Lemma cmd_nested_ind (P : cmd -> Prop) :
  (forall c,
      match c with
      | Call_transact body => Forall P body
      | _ => True
      end -> P c) ->
  forall c, P c.
Proof.
  intros Hstep.
  fix IH 1.
  intros c. apply Hstep. destruct c as [| | | | | | | | | |body]; try exact I.
  induction body as [|c' body' IHbody]; constructor; auto.
Qed.

Lemma handlers_at_nil L fuel s : handlers_at L fuel [] s = (Normal, s).
Proof. destruct fuel; reflexivity. Qed.


(** *** Arrays: reading around a removed position *)

Lemma spliceStart_in_range (len index : Z) :
  0 <= index <= len -> spliceStart len index = index.
Proof. intros Hr. unfold spliceStart. case_decide; lia. Qed.

Lemma splice_remove_in_range (index : Z) (l : list Entry) :
  0 <= index < Z.of_nat (length l) ->
  splice_remove index l = delete (Z.to_nat index) l.
Proof.
  intros Hr. unfold splice_remove.
  rewrite spliceStart_in_range by lia.
  symmetry. apply delete_take_drop.
Qed.

Lemma at_index_in_range (l : list Entry) (i : Z) :
  0 <= i -> at_index l i = l !! Z.to_nat i.
Proof. intros Hi. unfold at_index. case_decide; [lia | reflexivity]. Qed.

(** *** [transact] and [emit] under listeners that only observe *)

Section Observers.
Variable handlers : list cmd -> action.
Hypothesis handlers_nil : forall s, handlers [] s = (Normal, s).

Lemma emit_silent (ev : event) (s : state) :
  emit silent handlers ev s = (Normal, deliver ev s).
Proof.
  unfold emit, silent, deliver. simpl.
  destruct (emitterDisposed s); [reflexivity|].
  rewrite handlers_nil. reflexivity.
Qed.

Lemma transact_silent (fn : action) (s : state) :
  transact silent handlers fn s =
  match fn (enter s) with
  | (Normal, s') => (Normal, commit (getSelectedEntry s) s')
  | r => r
  end.
Proof.
  unfold transact, enter, seq, modify.
  replace (getSelectedEntry (if emitting s then log Warn s else s))
    with (getSelectedEntry s) by (destruct (emitting s); reflexivity).
  destruct (fn _) as [[| |] s']; try reflexivity.
  unfold commit. cbv zeta.
  case_decide; [reflexivity|].
  unfold ret.
  destruct (currentTransactionChangedEntries _);
    rewrite ?emit_silent; unfold getEntries; simpl entries;
    case_decide; rewrite ?emit_silent; reflexivity.
Qed.
End Observers.

(** *** What [commit] changes *)

Lemma commit_entries (prev : option Entry) (s : state) :
  entries (commit prev s) = entries s.
Proof.
  unfold commit, deliver. cbv zeta.
  repeat (case_decide || case_match); reflexivity.
Qed.

Lemma commit_selectedIndex (prev : option Entry) (s : state) :
  selectedIndex (commit prev s) = selectedIndex s.
Proof.
  unfold commit, deliver. cbv zeta.
  repeat (case_decide || case_match); reflexivity.
Qed.

Lemma commit_transactionDepth (prev : option Entry) (s : state) :
  transactionDepth (commit prev s) = transactionDepth s - 1.
Proof.
  unfold commit, deliver. cbv zeta.
  repeat (case_decide || case_match); reflexivity.
Qed.

Lemma commit_emitterDisposed (prev : option Entry) (s : state) :
  emitterDisposed (commit prev s) = emitterDisposed s.
Proof.
  unfold commit, deliver. cbv zeta.
  repeat (case_decide || case_match); reflexivity.
Qed.

Lemma commit_getSelectedEntry (prev : option Entry) (s : state) :
  getSelectedEntry (commit prev s) = getSelectedEntry s.
Proof.
  unfold getSelectedEntry.
  rewrite commit_entries, commit_selectedIndex. reflexivity.
Qed.

(** The outermost transaction unwinding, outside any dispatch. *)
Lemma commit_top (prev : option Entry) (l : list Entry) (sel : Z) (ch : bool)
    (al : jsval) (tr : list effect) :
  commit prev (State l sel 1 ch false al false tr) =
  State l sel 0 false false al false
    (tr ++
     (if ch then [Emit (did_change_entries l)] else []) ++
     (if decide (at_index l sel <> prev)
      then [Emit (did_change_selected_entry (at_index l sel))] else [])).
Proof.
  unfold commit, deliver, getSelectedEntry, getEntries.
  destruct ch; simpl; case_decide;
    unfold set_emitting, log, set_changed, set_transactionDepth; simpl;
    rewrite ?app_nil_r, <- ?app_assoc; reflexivity.
Qed.

(** [commit] on a live set, field by field. *)
Lemma commit_State (prev : option Entry) (l : list Entry) (sel d : Z)
    (ch em : bool) (al : jsval) (tr : list effect) :
  commit prev (State l sel d ch em al false tr) =
  if decide (d - 1 <> 0) then State l sel (d - 1) ch em al false tr
  else
    State l sel (d - 1) false
      (if ch then false
       else if decide (at_index l sel <> prev) then false else em)
      al false
      (tr ++
       (if ch then [Emit (did_change_entries l)] else []) ++
       (if decide (at_index l sel <> prev)
        then [Emit (did_change_selected_entry (at_index l sel))] else [])).
Proof.
  unfold commit, deliver, getSelectedEntry, getEntries. simpl.
  case_decide; [reflexivity|].
  destruct ch; simpl; case_decide;
    unfold set_emitting, log, set_changed, set_transactionDepth; simpl;
    rewrite ?app_nil_r, <- ?app_assoc; reflexivity.
Qed.

(** Nothing to report: nothing is emitted. *)
Lemma commit_unchanged (prev : option Entry) (s : state) :
  (transactionDepth s = 1 -> currentTransactionChangedEntries s = false) ->
  getSelectedEntry s = prev ->
  trace (commit prev s) = trace s.
Proof.
  intros Hclean Hsel. unfold commit. cbv zeta.
  case_decide as Hz; [reflexivity|]. simpl in Hz.
  simpl currentTransactionChangedEntries.
  rewrite Hclean by lia.
  replace (getSelectedEntry (set_transactionDepth (transactionDepth s - 1) s))
    with (getSelectedEntry s) by reflexivity.
  case_decide; [congruence | reflexivity].
Qed.

(** Inside an outer transaction nothing is emitted. *)
Lemma commit_nested (prev : option Entry) (s : state) :
  transactionDepth s <> 1 ->
  commit prev s = set_transactionDepth (transactionDepth s - 1) s.
Proof.
  intros Hd. unfold commit. cbv zeta.
  case_decide as Hz; [reflexivity|]. simpl in Hz. lia.
Qed.

(** The two batched events, in their order, each at most once and each
    carrying the state of the set at that point. *)
Lemma commit_trace (prev : option Entry) (s : state) :
  exists t_entries t_selected : list effect,
    trace (commit prev s) = trace s ++ t_entries ++ t_selected /\
    (t_entries = [] \/ t_entries = [Emit (did_change_entries (entries s))]) /\
    (t_selected = [] \/
     t_selected = [Emit (did_change_selected_entry (getSelectedEntry s))]) /\
    (transactionDepth s = 1 -> emitterDisposed s = false ->
     (t_selected <> [] <-> getSelectedEntry s <> prev)).
Proof.
  exists (if decide (transactionDepth s = 1)
          then if currentTransactionChangedEntries s
               then if emitterDisposed s then []
                    else [Emit (did_change_entries (entries s))]
               else []
          else []),
         (if decide (transactionDepth s = 1)
          then if decide (getSelectedEntry s <> prev)
               then if emitterDisposed s then []
                    else [Emit (did_change_selected_entry (getSelectedEntry s))]
               else []
          else []).
  destruct s as [ents sel d ch em al dis tr].
  unfold commit, deliver, getSelectedEntry, getEntries. simpl.
  destruct (decide (d = 1)) as [->|Hd].
  - simpl. destruct ch, dis; simpl;
      destruct (decide (at_index ents sel <> prev)); simpl;
      rewrite ?app_nil_r, <- ?app_assoc; simpl;
      (split; [reflexivity|]); (split; [tauto|]); (split; [tauto|]);
      intros _ Hf; try discriminate Hf; split; intros; tauto || discriminate.
  - destruct (decide (d - 1 <> 0)) as [_|Hz]; [|lia].
    simpl. rewrite app_nil_r.
    split; [reflexivity|]. split; [tauto|]. split; [tauto|]. intros; lia.
Qed.

(** Unfolding the sequencing of steps that cannot throw. *)
Ltac pure_steps :=
  repeat (progress (unfold seq, modify, ret, throw; cbv beta iota zeta)).

Lemma seq_normal (a b : action) (s s' : state) :
  a s = (Normal, s') -> seq a b s = b s'.
Proof. intros Ha. unfold seq. rewrite Ha. reflexivity. Qed.

Lemma seq_throw (a b : action) (s s' : state) (e : error) :
  a s = (Throw e, s') -> seq a b s = (Throw e, s').
Proof. intros Ha. unfold seq. rewrite Ha. reflexivity. Qed.

Lemma seq_stops (a b : action) (s s' : state) (c : completion) :
  a s = (c, s') -> c <> Normal -> seq a b s = (c, s').
Proof.
  intros Ha Hc. unfold seq. rewrite Ha. destruct c; congruence.
Qed.

Lemma run_single (L : event -> list cmd) (fuel : nat) (c : cmd) (s : state) :
  run L fuel [c] s = exec L (handlers_at L fuel) c s.
Proof.
  unfold run. simpl. unfold seq, ret.
  destruct (exec _ _ _ _) as [[| |] ?]; reflexivity.
Qed.

(** Which entry the rebalanced index of [removeAt] points at. *)
Lemma selected_after_delete (l : list Entry) (index sel : Z) :
  0 <= index < Z.of_nat (length l) ->
  let l' := delete (Z.to_nat index) l in
  let sel' :=
    if decide (Z.of_nat (length l') = 0) then -1
    else if decide (index < sel) then Z.max 0 (sel - 1)
         else Z.min sel (Z.of_nat (length l') - 1) in
  (index < sel -> at_index l' sel' = at_index l sel) /\
  (index = sel ->
   at_index l' sel' =
     if decide (index + 1 < Z.of_nat (length l))
     then l !! Z.to_nat (index + 1)
     else last l').
Proof.
  intros Hr l' sel'.
  assert (Hlen : length l' = (length l - 1)%nat).
  { apply length_delete, lookup_lt_is_Some. lia. }
  subst sel'. split.
  - intros Hlt. case_decide as Hz.
    + unfold at_index. repeat case_decide; try lia.
      symmetry. apply lookup_ge_None. lia.
    + case_decide; [|lia].
      rewrite !at_index_in_range by lia.
      subst l'. rewrite list_lookup_delete_ge by lia.
      f_equal. lia.
  - intros ->. case_decide as Hz.
    + case_decide; [lia|].
      destruct l' as [|? ?]; [|simpl in Hz; lia].
      unfold at_index. case_decide; [reflexivity|lia].
    + case_decide; [lia|].
      case_decide as Hnext.
      * rewrite at_index_in_range by lia.
        replace (Z.min sel (Z.of_nat (length l') - 1)) with sel by lia.
        subst l'. rewrite list_lookup_delete_ge by lia.
        f_equal. lia.
      * rewrite at_index_in_range by lia.
        rewrite last_lookup. f_equal. lia.
Qed.


(** *** [removeAt] *)

(** [removeAt] with an index inside the set: result, selection, events. *)
Lemma removeAt_in_range (fuel : nat) (index : Z) (s : state) :
  0 <= index < getSize s ->
  emitterDisposed s = false ->
  exists (s' : state) (bulk : list effect),
    run silent fuel [Call_removeAt index] s = (Normal, s') /\
    entries s' = delete (Z.to_nat index) (entries s) /\
    selectedIndex s' =
      (if decide (getSize s' = 0) then -1
       else if decide (index < selectedIndex s)
            then Z.max 0 (selectedIndex s - 1)
            else Z.min (selectedIndex s) (getSize s' - 1)) /\
    trace s' =
      trace s ++ (if emitting s then [Warn] else []) ++
      Emit (did_remove_entry (entries s !! Z.to_nat index) index) :: bulk /\
    Forall (fun ef => is_bulk ef = true) bulk.
Proof.
  intros Hr Hd.
  rewrite run_single. simpl. unfold removeAt.
  rewrite (transact_silent _ (handlers_at_nil _ _)).
  unfold didRemoveEntry. pure_steps.
  rewrite (emit_silent _ (handlers_at_nil _ _)).
  match goal with
  | |- context [commit ?p ?x] =>
      set (s3 := x);
      destruct (commit_trace p s3) as (te & ts & Htr & Hte & Hts & _);
      exists (commit p s3), (te ++ ts)
  end.
  split; [reflexivity|].
  assert (Hbulk : Forall (fun ef => is_bulk ef = true) (te ++ ts)).
  { apply Forall_app. split.
    - destruct Hte as [->| ->]; repeat constructor.
    - destruct Hts as [->| ->]; repeat constructor. }
  clear Hte Hts.
  unfold getSize.
  rewrite !(commit_entries (getSelectedEntry s) s3),
    !(commit_selectedIndex (getSelectedEntry s) s3), Htr.
  clear Htr. subst s3.
  destruct s as [ents sel d ch em al dis tr].
  unfold getSize in Hr. simpl in Hr, Hd. subst dis.
  unfold enter, deliver, getSize.
  destruct em; simpl;
    rewrite ?splice_remove_in_range, ?at_index_in_range by lia;
    repeat case_decide; simpl in *; try lia; rewrite <- ?app_assoc; simpl;
    repeat split; auto.
Qed.

(** C3. With an index inside the set, [removeAt] returns normally, takes
    out the entry at that index, moves the selection by the three-way rule
    of the specification (nothing left: -1; removed before the selection:
    one down, never below 0; otherwise: clamped to the new last index), and
    the first event it emits is did-remove-entry with the removed entry and
    the index it had; only batched events can follow it.  A removal before
    the selection keeps the same entry selected; removing the selected
    entry selects the entry that followed it, or the new last entry when
    there is none. *)
Theorem removeAt_rebalances_selection (fuel : nat) (index : Z) (s : state) :
  0 <= index < getSize s ->
  emitterDisposed s = false ->
  exists (s' : state) (bulk : list effect),
    run silent fuel [Call_removeAt index] s = (Normal, s') /\
    entries s' = delete (Z.to_nat index) (entries s) /\
    selectedIndex s' =
      (if decide (getSize s' = 0) then -1
       else if decide (index < selectedIndex s)
            then Z.max 0 (selectedIndex s - 1)
            else Z.min (selectedIndex s) (getSize s' - 1)) /\
    trace s' =
      trace s ++ (if emitting s then [Warn] else []) ++
      Emit (did_remove_entry (entries s !! Z.to_nat index) index) :: bulk /\
    Forall (fun ef => is_bulk ef = true) bulk /\
    (index < selectedIndex s -> getSelectedEntry s' = getSelectedEntry s) /\
    (index = selectedIndex s ->
     getSelectedEntry s' =
       if decide (index + 1 < getSize s)
       then entries s !! Z.to_nat (index + 1)
       else last (entries s')).
Proof.
  intros Hr Hd.
  destruct (removeAt_in_range fuel index s Hr Hd)
    as (s' & bulk & Hrun & Hent & Hsel & Htr & Hbulk).
  exists s', bulk.
  repeat (split; [assumption|]).
  unfold getSelectedEntry, getSize in *.
  rewrite Hsel, Hent.
  apply (selected_after_delete (entries s) index (selectedIndex s) Hr).
Qed.

(** *** Actions that leave the batched events to the outermost transaction *)

Lemma defers_ret : defers ret.
Proof.
  intros s Hs. exists Normal, s, []. rewrite app_nil_r.
  repeat split; auto; discriminate.
Qed.

Lemma defers_throw (e : error) : defers (throw e).
Proof.
  intros s Hs. exists (Throw e), s, []. rewrite app_nil_r.
  repeat split; auto; discriminate.
Qed.

Lemma defers_modify (f : state -> state) :
  (forall s, transactionDepth (f s) = transactionDepth s) ->
  (forall s, emitterDisposed (f s) = emitterDisposed s) ->
  (forall s, trace (f s) = trace s) ->
  defers (modify f).
Proof.
  intros Hd He Ht s Hs. exists Normal, (f s), [].
  rewrite app_nil_r, Hd, He, Ht. repeat split; auto; discriminate.
Qed.

Lemma defers_seq (a b : action) : defers a -> defers b -> defers (seq a b).
Proof.
  intros Ha Hb s Hs. unfold seq.
  destruct (Ha s Hs) as (st & s1 & t1 & -> & Hf & Ht & Hq & Hd & Hd' & He).
  destruct st as [|e|]; [|exists (Throw e), s1, t1; auto 10|congruence].
  destruct (Hb s1 Hd') as (st2 & s2 & t2 & -> & Hf2 & Ht2 & Hq2 & Hd2 & Hd2' & He2).
  exists st2, s2, (t1 ++ t2). rewrite Ht2, Ht, <- app_assoc.
  repeat split; auto.
  - apply Forall_app. auto.
  - intros Hn. rewrite Hd2, Hd; auto.
  - congruence.
Qed.

Lemma defers_ext (a b : action) : (forall s, a s = b s) -> defers b -> defers a.
Proof. intros Hab Hb s Hs. rewrite Hab. auto. Qed.

Section Observers_defer.
Variable handlers : list cmd -> action.
Hypothesis handlers_nil : forall s, handlers [] s = (Normal, s).

Lemma defers_emit (ev : event) :
  is_bulk (Emit ev) = false -> defers (emit silent handlers ev).
Proof.
  intros Hev s Hs. rewrite (emit_silent _ handlers_nil). unfold deliver.
  exists Normal.
  destruct (emitterDisposed s) eqn:Hdis.
  - exists (set_emitting false s), []. simpl. rewrite app_nil_r.
    repeat split; auto; discriminate.
  - exists (set_emitting false (log (Emit ev) s)), [Emit ev]. simpl.
    repeat split; auto; discriminate.
Qed.

Lemma defers_transact (fn : action) :
  defers fn -> defers (transact silent handlers fn).
Proof.
  intros Hfn s Hs. rewrite (transact_silent _ handlers_nil).
  assert (Hent : 1 <= transactionDepth (enter s))
    by (unfold enter; destruct (emitting s); simpl; lia).
  destruct (Hfn _ Hent) as (st & s1 & t1 & -> & Hf & Ht & Hq & Hd & Hd' & He).
  assert (Htr : exists w, trace (enter s) = trace s ++ w /\
                  Forall (fun ef => is_bulk ef = false) w).
  { unfold enter. destruct (emitting s); simpl.
    - exists [Warn]. split; [reflexivity | repeat constructor].
    - exists []. rewrite app_nil_r. split; [reflexivity | constructor]. }
  destruct Htr as (w & Hw & Hwq).
  assert (Hdepth : transactionDepth (enter s) = transactionDepth s + 1)
    by (unfold enter; destruct (emitting s); reflexivity).
  assert (Hdis : emitterDisposed (enter s) = emitterDisposed s)
    by (unfold enter; destruct (emitting s); reflexivity).
  destruct st as [|e|]; [| |congruence].
  - rewrite commit_nested by (rewrite Hd by reflexivity; lia).
    eexists Normal, _, (w ++ t1). split; [reflexivity|]. simpl.
    rewrite Ht, Hw, <- app_assoc, Hd by reflexivity.
    repeat split; auto; try lia; try congruence.
    apply Forall_app; auto.
  - exists (Throw e), s1, (w ++ t1).
    rewrite Ht, Hw, <- app_assoc.
    repeat split; auto; try lia; try congruence.
    apply Forall_app; auto.
Qed.

Lemma defers_if_dec (P : state -> Prop) `{!forall s, Decision (P s)}
    (a b : action) :
  defers a -> defers b -> defers (fun s => if decide (P s) then a s else b s).
Proof. intros Ha Hb s Hs. case_decide; auto. Qed.

Lemma defers_if_bool (c : state -> bool) (a b : action) :
  defers a -> defers b -> defers (fun s => if c s then a s else b s).
Proof. intros Ha Hb s Hs. destruct (c s); auto. Qed.

(** Deciding a goal [defers a] by the shape of [a]. *)
Ltac defers_auto :=
  cbv zeta;
  lazymatch goal with
  | |- defers ret => apply defers_ret
  | |- defers (throw _) => apply defers_throw
  | |- defers (seq _ _) => apply defers_seq; defers_auto
  | |- defers (modify _) =>
      apply defers_modify; intros; cbv zeta; repeat case_decide; reflexivity
  | |- defers (transact _ _ _) => apply defers_transact; defers_auto
  | |- defers _ =>
      first [ apply defers_emit; reflexivity
            | apply defers_if_bool; defers_auto
            | apply defers_if_dec; defers_auto ]
  end.

Lemma defers_addAt (entry : Entry) (index : Z) :
  defers (addAt silent handlers entry index).
Proof. unfold addAt, didAddEntry. defers_auto. Qed.

Lemma defers_add (entry : Entry) : defers (add silent handlers entry).
Proof. intros s Hs. unfold add. apply defers_addAt, Hs. Qed.

Lemma defers_removeAt (index : Z) : defers (removeAt silent handlers index).
Proof.
  unfold removeAt. apply defers_transact.
  intros s Hs. cbv zeta. generalize (at_index (entries s) index).
  intros entry. revert s Hs.
  match goal with |- forall s, _ -> exists _ _ _, ?a s = _ /\ _ =>
    change (defers a)
  end.
  unfold didRemoveEntry. defers_auto.
Qed.

Lemma defers_remove (entry : Entry) : defers (remove silent handlers entry).
Proof.
  intros s Hs. unfold remove. cbv zeta.
  case_decide; [apply defers_ret | apply defers_removeAt]; exact Hs.
Qed.

Lemma defers_selectAt (index : Z) : defers (selectAt silent handlers index).
Proof. unfold selectAt. defers_auto. Qed.

Lemma defers_selectNext : defers (selectNext silent handlers).
Proof.
  intros s Hs. unfold selectNext. cbv zeta.
  case_decide; [apply defers_ret | apply defers_selectAt]; exact Hs.
Qed.

Lemma defers_selectPrevious : defers (selectPrevious silent handlers).
Proof.
  intros s Hs. unfold selectPrevious. cbv zeta.
  case_decide; [apply defers_ret | apply defers_selectAt]; exact Hs.
Qed.

Lemma defers_select (entry : Entry) : defers (select silent handlers entry).
Proof.
  intros s Hs. unfold select. cbv zeta.
  case_decide; [apply defers_throw | apply defers_selectAt]; exact Hs.
Qed.

(** The callbacks of [addAt], [removeAt] and [selectAt]. *)
Lemma defers_addAt_body (entry : Entry) (index : Z) :
  defers (addAt_body silent handlers entry index).
Proof. unfold addAt_body, didAddEntry. defers_auto. Qed.

Lemma defers_removeAt_body (index : Z) :
  defers (removeAt_body silent handlers index).
Proof.
  intros s Hs. unfold removeAt_body. cbv zeta.
  generalize (at_index (entries s) index).
  intros entry. revert s Hs.
  match goal with |- forall s, _ -> exists _ _ _, ?a s = _ /\ _ =>
    change (defers a)
  end.
  unfold didRemoveEntry. defers_auto.
Qed.

Lemma defers_selectAt_body (index : Z) : defers (selectAt_body index).
Proof. unfold selectAt_body. defers_auto. Qed.

Lemma exec_transact (L : event -> list cmd) (body : list cmd) :
  exec L handlers (Call_transact body) =
  transact L handlers (exec_list L handlers body).
Proof. reflexivity. Qed.

Lemma defers_block (body : list cmd) :
  Forall (fun c => mutation c = true -> defers (exec silent handlers c)) body ->
  forallb mutation body = true ->
  defers (exec_list silent handlers body).
Proof.
  induction 1 as [|c cs Hc _ IH]; simpl; intros Hm.
  - apply defers_ret.
  - apply andb_prop in Hm as [Hm1 Hm2]. apply defers_seq; auto.
Qed.

Lemma defers_exec (c : cmd) :
  mutation c = true -> defers (exec silent handlers c).
Proof.
  induction c as [c IH] using cmd_nested_ind.
  destruct c; simpl mutation; intros Hm; try discriminate Hm.
  - apply defers_add.
  - apply defers_addAt.
  - apply defers_remove.
  - apply defers_removeAt.
  - apply defers_selectNext.
  - apply defers_selectPrevious.
  - apply defers_select.
  - apply defers_selectAt.
  - rewrite exec_transact. apply defers_transact, defers_block; assumption.
Qed.

Lemma defers_exec_list (body : list cmd) :
  forallb mutation body = true -> defers (exec_list silent handlers body).
Proof.
  intros Hm. apply defers_block; [|exact Hm].
  apply Forall_forall. intros c _. apply defers_exec.
Qed.

End Observers_defer.

(** *** [transact] *)

(** C2. A top-level [transact] whose body only adds, removes and selects
    (nested transactions included) always completes; everything the body
    emits comes first and contains no batched event; then, at most once
    each and in this order, did-change-entries with the entries as they are
    at the end and did-change-selected-entry with the entry selected at the
    end.  When the call returns normally, did-change-selected-entry is
    emitted exactly when the selected entry differs from the one recorded
    on entry. *)
Theorem transact_defers_bulk_events (fuel : nat) (body : list cmd)
    (s s' : state) (st : completion) :
  transactionDepth s = 0 ->
  emitterDisposed s = false ->
  forallb mutation body = true ->
  run silent fuel [Call_transact body] s = (st, s') ->
  st <> OutOfFuel /\
  exists (sb : state) (t_body t_entries t_selected : list effect),
    exec_list silent (handlers_at silent fuel) body (enter s) = (st, sb) /\
    trace sb = trace s ++ t_body /\
    Forall (fun ef => is_bulk ef = false) t_body /\
    getEntries s' = getEntries sb /\
    getSelectedEntry s' = getSelectedEntry sb /\
    trace s' = trace s ++ t_body ++ t_entries ++ t_selected /\
    (t_entries = [] \/
     t_entries = [Emit (did_change_entries (getEntries s'))]) /\
    (t_selected = [] \/
     t_selected = [Emit (did_change_selected_entry (getSelectedEntry s'))]) /\
    (st = Normal ->
     (t_selected <> [] <-> getSelectedEntry s' <> getSelectedEntry s)).
Proof.
  intros Hdepth Hdis Hbody.
  rewrite run_single, exec_transact.
  rewrite (transact_silent _ (handlers_at_nil _ _)).
  assert (Hent : transactionDepth (enter s) = 1)
    by (unfold enter; destruct (emitting s); simpl; lia).
  assert (Hw : exists w, trace (enter s) = trace s ++ w /\
                 Forall (fun ef => is_bulk ef = false) w).
  { unfold enter. destruct (emitting s); simpl.
    - exists [Warn]. split; [reflexivity | repeat constructor].
    - exists []. rewrite app_nil_r. split; [reflexivity | constructor]. }
  destruct Hw as (w & Hw & Hwq).
  assert (Hdis' : emitterDisposed (enter s) = false)
    by (unfold enter; destruct (emitting s); exact Hdis).
  destruct (defers_exec_list _ (handlers_at_nil silent fuel) body Hbody (enter s))
    as (st1 & sb & t & Hrun & Hf & Ht & Hq & Hd & _ & He); [lia|].
  rewrite Hrun.
  assert (Hall : Forall (fun ef => is_bulk ef = false) (w ++ t))
    by (apply Forall_app; auto).
  assert (Htb : trace sb = trace s ++ w ++ t)
    by (rewrite Ht, Hw, <- app_assoc; reflexivity).
  destruct st1 as [|e|]; [| |congruence]; intros [= <- <-].
  - split; [discriminate|].
    destruct (commit_trace (getSelectedEntry s) sb)
      as (te & ts & Htr & Hte & Hts & Hiff).
    exists sb, (w ++ t), te, ts.
    unfold getEntries.
    rewrite commit_getSelectedEntry, commit_entries, Htr, Htb, <- !app_assoc.
    repeat split; auto.
    + apply Hiff; [rewrite Hd by reflexivity; lia | congruence].
    + apply Hiff; [rewrite Hd by reflexivity; lia | congruence].
  - split; [discriminate|].
    exists sb, (w ++ t), [], [].
    rewrite Htb, !app_nil_r.
    repeat split; auto; discriminate.
Qed.

(** *** [destroy] *)

Lemma count_app (p : effect -> bool) (t1 t2 : list effect) :
  count p (t1 ++ t2) = (count p t1 + count p t2)%nat.
Proof.
  induction t1 as [|ef t1 IH]; simpl; [reflexivity|].
  destruct (p ef); simpl; rewrite IH; reflexivity.
Qed.

Lemma count_destroy_trace_removals (l : list Entry) :
  count is_did_remove_entry (destroy_trace l) = length l.
Proof.
  induction l as [|e l IH]; simpl; [reflexivity|].
  rewrite count_app. simpl. rewrite IH.
  destruct (hasDestroy e); reflexivity.
Qed.

Lemma count_destroy_trace_other (p : effect -> bool) (l : list Entry) :
  (forall e, p (EntryDestroy e) = false) ->
  (forall e i, p (Emit (did_remove_entry e i)) = false) ->
  count p (destroy_trace l) = O.
Proof.
  intros Hp1 Hp2. induction l as [|e l IH]; simpl; [reflexivity|].
  rewrite count_app. simpl. rewrite Hp2, IH.
  destruct (hasDestroy e); simpl; rewrite ?Hp1; reflexivity.
Qed.

Lemma indexOf_from_head (e : Entry) (l : list Entry) (i : Z) :
  indexOf_from e (e :: l) i = i.
Proof. simpl. case_decide; congruence. Qed.

Section Observers_destroy.
Variable handlers : list cmd -> action.
Hypothesis handlers_nil : forall s, handlers [] s = (Normal, s).

Lemma includes_head (e : Entry) (l : list Entry) (sel d : Z) (ch em : bool)
    (al : jsval) (dis : bool) (tr : list effect) :
  (fun s : state => if includes e s then ret s
                    else throw (Error "Entry not in set") s)
    (State (e :: l) sel d ch em al dis tr) =
  (Normal, State (e :: l) sel d ch em al dis tr).
Proof.
  cbv beta. unfold includes, array_includes. simpl entries.
  rewrite bool_decide_eq_true_2 by (apply list_elem_of_here). reflexivity.
Qed.

(** Inside an open transaction, removing the first entry. *)
Lemma remove_head (e : Entry) (l : list Entry) (sel d : Z) (ch : bool)
    (al : jsval) (tr : list effect) :
  1 <= d ->
  exists sel',
    remove silent handlers e (State (e :: l) sel d ch false al false tr) =
    (Normal, State l sel' d true false al false
               (tr ++ [Emit (did_remove_entry (Some e) 0)])) /\
    (l = [] -> sel' = -1).
Proof.
  intros Hd. unfold remove, indexOf. cbv zeta. simpl entries.
  rewrite indexOf_from_head.
  case_decide; [lia|].
  unfold removeAt. rewrite (transact_silent _ handlers_nil).
  unfold didRemoveEntry. pure_steps.
  rewrite (emit_silent _ handlers_nil).
  rewrite commit_nested
    by (unfold enter, deliver, getSize; simpl; repeat case_decide; simpl; lia).
  unfold enter, deliver, getSize. simpl.
  destruct l as [|e' l']; simpl.
  - replace (d + 1 - 1) with d by lia.
    eexists. split; [reflexivity | reflexivity].
  - repeat case_decide; simpl; try lia; replace (d + 1 - 1) with d by lia;
      (eexists; split; [reflexivity | discriminate]).
Qed.

(** Inside an open transaction, the loop of [destroyEntries] over a
    snapshot of the current entries empties the set. *)
Lemma destroy_each (l : list Entry) (sel d : Z) (ch : bool) (al : jsval)
    (tr : list effect) :
  1 <= d ->
  exists sel',
    forEach l
      (fun entry =>
         seq (fun s => if includes entry s then ret s
                       else throw (Error "Entry not in set") s)
           (seq (destroyEntry hasDestroy entry)
              (remove silent handlers entry)))
      (State l sel d ch false al false tr) =
    (Normal, State [] sel' d (match l with [] => ch | _ => true end)
               false al false (tr ++ destroy_trace l)).
Proof.
  intros Hd. revert sel ch tr.
  induction l as [|e l IH]; intros sel ch tr.
  - exists sel. simpl. rewrite app_nil_r. reflexivity.
  - simpl forEach.
    destruct (remove_head e l sel d ch al
                (tr ++ if hasDestroy e then [EntryDestroy e] else []) Hd)
      as (sel1 & Hrem & _).
    destruct (IH sel1 true
                ((tr ++ if hasDestroy e then [EntryDestroy e] else []) ++
                 [Emit (did_remove_entry (Some e) 0)]))
      as (sel2 & Hrest).
    exists sel2.
    erewrite seq_normal; [rewrite Hrest|].
    + simpl. rewrite <- !app_assoc. destruct l; reflexivity.
    + erewrite seq_normal; [|apply includes_head].
      erewrite seq_normal; [exact Hrem|].
      unfold destroyEntry. destruct (hasDestroy e); [reflexivity|].
      unfold ret. rewrite app_nil_r. reflexivity.
Qed.


Lemma destroyEntries_top (l : list Entry) (sel : Z) (al : jsval)
    (tr : list effect) :
  l = [] \/ 0 <= sel < Z.of_nat (length l) ->
  exists sel',
    destroyEntries hasDestroy silent handlers
      (State l sel 0 false false al false tr) =
    (Normal, State [] sel' 0 false false al false
               (tr ++ destroy_trace l ++
                match l with
                | [] => []
                | _ :: _ => [Emit (did_change_entries []);
                             Emit (did_change_selected_entry None)]
                end)).
Proof.
  intros Hsel. unfold destroyEntries.
  rewrite (transact_silent _ handlers_nil).
  change (enter (State l sel 0 false false al false tr))
    with (State l sel 1 false false al false tr).
  cbv beta.
  change (getEntries (State l sel 1 false false al false tr)) with l.
  destruct (destroy_each l sel 1 false al tr) as (sel' & ->); [lia|].
  exists sel'. f_equal.
  rewrite commit_top.
  assert (Hnone : at_index (@nil Entry) sel' = None)
    by (unfold at_index; case_decide; reflexivity).
  rewrite Hnone. f_equal.
  unfold getSelectedEntry. simpl entries. simpl selectedIndex.
  destruct l as [|e l].
  - simpl. rewrite !app_nil_r.
    case_decide as Hsome; [|rewrite app_nil_r; reflexivity].
    exfalso. apply Hsome. unfold at_index. case_decide; reflexivity.
  - destruct Hsel as [Hnil | Hsel]; [discriminate|].
    case_decide as Hsome; [rewrite <- app_assoc; reflexivity|].
    exfalso. symmetry in Hsome.
    rewrite at_index_in_range in Hsome by lia.
    apply lookup_ge_None in Hsome. simpl in Hsel, Hsome. lia.
Qed.

End Observers_destroy.

(** C6, as the code has it.  Called from outside any transaction and any
    dispatch, on a set of N entries whose selection is valid, [destroy]
    returns normally and emits, in this order: for each entry, the entry's
    own [destroy] (when it has one) and then did-remove-entry for it, N
    removals in all; for N > 0 one did-change-entries with the empty
    snapshot and one did-change-selected-entry with no entry, for N = 0
    neither of them; and one did-destroy.  Afterwards the set is empty and
    reports itself destroyed. *)
Theorem destroy_emits_once (fuel : nat) (s : state) :
  transactionDepth s = 0 ->
  currentTransactionChangedEntries s = false ->
  emitting s = false ->
  emitterDisposed s = false ->
  entries s = [] \/ 0 <= selectedIndex s < getSize s ->
  exists (s' : state) (t : list effect),
    run silent fuel [Call_destroy] s = (Normal, s') /\
    trace s' = trace s ++ t /\
    t = destroy_trace (entries s) ++
        match entries s with
        | [] => []
        | _ :: _ => [Emit (did_change_entries []);
                     Emit (did_change_selected_entry None)]
        end ++ [Emit did_destroy] /\
    count is_did_remove_entry t = length (entries s) /\
    count is_did_change_entries t =
      match entries s with [] => O | _ :: _ => 1%nat end /\
    count is_did_change_selected_entry t =
      match entries s with [] => O | _ :: _ => 1%nat end /\
    count is_did_destroy t = 1%nat /\
    getEntries s' = [] /\
    isAlive s' = JBool false /\
    isDestroyed s' = true.
Proof.
  intros Hd Hch Hem Hdis Hsel.
  destruct s as [l sel d ch em al dis tr].
  unfold getSize in Hsel. simpl in Hd, Hch, Hem, Hdis, Hsel. subst.
  rewrite run_single. simpl exec. unfold destroy.
  destruct (destroyEntries_top _ (handlers_at_nil silent fuel) l sel al tr Hsel)
    as (sel' & Hde).
  erewrite seq_normal by exact Hde.
  unfold didDestroy. pure_steps.
  rewrite (emit_silent _ (handlers_at_nil silent fuel)).
  eexists _, _. split; [reflexivity|].
  unfold deliver. simpl.
  split; [rewrite <- !app_assoc; reflexivity|].
  split; [reflexivity|].
  rewrite !count_app, count_destroy_trace_removals.
  rewrite !count_destroy_trace_other by reflexivity.
  destruct l; simpl; repeat split; lia.
Qed.

(** *** Construction and liveness *)

(** When [selectedIndex] is omitted, construction succeeds and selects
    index 0 of a non-empty list and -1 of an empty one. *)
Lemma constructor_default_selection (opt_entries : option (list Entry)) :
  exists s : state,
    constructor opt_entries None = inr s /\
    entries s = default [] opt_entries /\
    selectedIndex s = match default [] opt_entries with [] => -1 | _ :: _ => 0 end.
Proof.
  unfold constructor. cbv zeta.
  destruct (default [] opt_entries) as [|e l]; simpl.
  - eexists. repeat split.
  - eexists. repeat split.
Qed.

(** The checks the constructor makes: -1 on a non-empty list and every
    index from the length upwards are refused, and every index inside the
    list is accepted. *)
Lemma constructor_checks (opt_entries : option (list Entry)) (i : Z) :
  let n := Z.of_nat (length (default [] opt_entries)) in
  (i = -1 /\ n <> 0 ->
   constructor opt_entries (Some i) = inl (Error "Initial selection required")) /\
  (i >= n -> ~ (i = -1 /\ n <> 0) ->
   constructor opt_entries (Some i) = inl (Error "Invalid selected entry index")) /\
  (0 <= i < n ->
   exists s : state, constructor opt_entries (Some i) = inr s /\
     entries s = default [] opt_entries /\ selectedIndex s = i).
Proof.
  unfold constructor. cbv zeta. repeat split.
  - intros Hi. case_decide; [reflexivity | tauto].
  - intros Hi Hn. case_decide; [tauto|]. case_decide; [reflexivity | lia].
  - intros Hi. case_decide; [lia|]. case_decide; [lia|].
    eexists. repeat split.
Qed.

(** C8, at the missed case.  An initial [selectedIndex] below -1 passes both
    checks of the constructor: the set is built with that index, which
    selects nothing, whatever the entries are. *)
Theorem constructor_accepts_index_below_minus_one
    (opt_entries : option (list Entry)) (i : Z) :
  i < -1 ->
  exists s : state,
    constructor opt_entries (Some i) = inr s /\
    getEntries s = default [] opt_entries /\
    getSelectedIndex s = i /\
    getSelectedEntry s = None.
Proof.
  intros Hi. unfold constructor. cbv zeta.
  case_decide; [lia|]. case_decide; [lia|].
  eexists. repeat split.
  unfold getSelectedEntry, at_index. simpl. case_decide; [reflexivity | lia].
Qed.

(** C7, on a freshly constructed set.  The constructor never assigns
    [alive]: whatever the options, [isAlive()] answers [undefined], not
    [true], and [isDestroyed()] answers [true] although [destroy] has not
    run. *)
Theorem fresh_set_reports_destroyed (opt_entries : option (list Entry))
    (opt_selectedIndex : option Z) (s : state) :
  constructor opt_entries opt_selectedIndex = inr s ->
  isAlive s = JUndefined /\ isDestroyed s = true.
Proof.
  unfold constructor. cbv zeta.
  destruct opt_selectedIndex as [i|];
    repeat case_decide; intros [= <-]; split; reflexivity.
Qed.

(** X22. Once [destroy] has run to its end, the set reports itself destroyed. *)
Lemma destroyed_set_reports_destroyed (fuel : nat) (s s' : state) :
  run silent fuel [Call_destroy] s = (Normal, s') ->
  isAlive s' = JBool false /\ isDestroyed s' = true.
Proof.
  rewrite run_single. simpl exec. unfold destroy, didDestroy.
  unfold seq at 1.
  destruct (destroyEntries _ _ _ s) as [[| |] s1]; try discriminate.
  pure_steps. rewrite (emit_silent _ (handlers_at_nil silent fuel)).
  intros [= <-]. unfold isDestroyed, isAlive, deliver.
  destruct (emitterDisposed _); split; reflexivity.
Qed.

(** *** Adding to an empty set *)

(** C1, at the empty set.  Adding an entry to a freshly constructed empty
    set succeeds and leaves a set of one entry whose selected index is
    still -1: no entry is selected although the set is not empty, and
    did-change-selected-entry is not emitted. *)
Theorem add_to_empty_set_selects_nothing (fuel : nat) (entry : Entry) :
  exists s0 s' : state,
    constructor None None = inr s0 /\
    run silent fuel [Call_add entry] s0 = (Normal, s') /\
    getEntries s' = [entry] /\
    getSize s' = 1 /\
    getSelectedIndex s' = -1 /\
    getSelectedEntry s' = None /\
    trace s' = [Emit (did_add_entry entry 0); Emit (did_change_entries [entry])].
Proof.
  eexists _, _. split; [reflexivity|].
  rewrite run_single. simpl exec. unfold add, addAt.
  rewrite (transact_silent _ (handlers_at_nil silent fuel)).
  unfold didAddEntry, includes, array_includes, enter. simpl.
  pure_steps. simpl.
  rewrite (emit_silent _ (handlers_at_nil silent fuel)).
  unfold deliver, commit, getSelectedEntry, getEntries, at_index. simpl.
  repeat split.
Qed.

(** *** Index and membership checks *)

Lemma enter_transactionDepth (s : state) :
  transactionDepth (enter s) = transactionDepth s + 1.
Proof. unfold enter. destruct (emitting s); reflexivity. Qed.

Lemma enter_entries (s : state) : entries (enter s) = entries s.
Proof. unfold enter. destruct (emitting s); reflexivity. Qed.

Lemma enter_selectedIndex (s : state) :
  selectedIndex (enter s) = selectedIndex s.
Proof. unfold enter. destruct (emitting s); reflexivity. Qed.

(** X19. The checks [addAt] makes: an entry already present and an index beyond
    the size are refused.  The state left behind is not the state before
    the call: the transaction opened by the call stays open. *)
Lemma addAt_refused (fuel : nat) (entry : Entry) (index : Z) (s : state) :
  includes entry s = true \/ index > getSize s ->
  run silent fuel [Call_addAt entry index] s = (Throw AssertionError, enter s) /\
  transactionDepth (enter s) = transactionDepth s + 1.
Proof.
  intros Hbad. split; [|apply enter_transactionDepth].
  rewrite run_single. simpl exec. unfold addAt.
  rewrite (transact_silent _ (handlers_at_nil silent fuel)).
  unfold includes, getSize in *. rewrite enter_entries.
  destruct (array_includes entry (entries s)); [reflexivity|].
  destruct Hbad as [Hbad|Hbad]; [discriminate|].
  case_decide; [lia | reflexivity].
Qed.

(** A negative index passes the only range check of [addAt], and the entry
    is inserted counting from the end. *)
Lemma addAt_negative_index_accepted (fuel : nat) (entry : Entry) (index : Z)
    (s : state) :
  index < 0 ->
  includes entry s = false ->
  exists s' : state,
    run silent fuel [Call_addAt entry index] s = (Normal, s') /\
    entries s' = splice_insert index entry (entries s).
Proof.
  intros Hneg Hnew.
  rewrite run_single. simpl exec. unfold addAt.
  rewrite (transact_silent _ (handlers_at_nil silent fuel)).
  unfold includes, getSize in *. rewrite enter_entries, Hnew.
  case_decide; [|lia].
  unfold didAddEntry. pure_steps.
  rewrite (emit_silent _ (handlers_at_nil silent fuel)).
  eexists. split; [reflexivity|].
  rewrite commit_entries. clear.
  destruct s as [l sel d ch em al dis tr].
  unfold deliver, enter.
  destruct em, dis; simpl; repeat case_decide; reflexivity.
Qed.

(** [removeAt] checks nothing and returns normally for every index. *)
Lemma removeAt_never_throws (fuel : nat) (index : Z) (s : state) :
  exists s' : state, run silent fuel [Call_removeAt index] s = (Normal, s').
Proof.
  rewrite run_single. simpl exec. unfold removeAt.
  rewrite (transact_silent _ (handlers_at_nil silent fuel)).
  unfold didRemoveEntry. pure_steps.
  rewrite (emit_silent _ (handlers_at_nil silent fuel)).
  eexists. reflexivity.
Qed.

(** X20. The check [selectAt] makes: every index outside the set, negative ones
    included, is refused unless it is the selected index already.  As for
    [addAt], the transaction opened by the call stays open. *)
Lemma selectAt_refused (fuel : nat) (index : Z) (s : state) :
  index <> selectedIndex s ->
  index < 0 \/ index >= getSize s ->
  run silent fuel [Call_selectAt index] s =
    (Throw (Error "Invalid selection index"), enter s) /\
  transactionDepth (enter s) = transactionDepth s + 1.
Proof.
  intros Hne Hout. split; [|apply enter_transactionDepth].
  rewrite run_single. simpl exec. unfold selectAt.
  rewrite (transact_silent _ (handlers_at_nil silent fuel)).
  unfold getSize in *. rewrite enter_entries, enter_selectedIndex.
  case_decide; [congruence|]. case_decide; [reflexivity | tauto].
Qed.

(** [select] of an absent entry throws before any transaction is opened and
    leaves the state exactly as it was. *)
Lemma select_absent_refused (fuel : nat) (entry : Entry) (s : state) :
  indexOf entry s = -1 ->
  run silent fuel [Call_select entry] s = (Throw (Error "Entry not in set"), s).
Proof.
  intros Habs. rewrite run_single. simpl exec. unfold select. cbv zeta.
  case_decide; [reflexivity | congruence].
Qed.

(** *** The selection invariant, call by call *)

Lemma splice_insert_length (index : Z) (x : Entry) (l : list Entry) :
  length (splice_insert index x l) = S (length l).
Proof.
  unfold splice_insert. cbv zeta.
  rewrite length_app. simpl. rewrite length_take, length_drop.
  unfold spliceStart. case_decide; lia.
Qed.

Lemma splice_remove_length (index : Z) (l : list Entry) :
  (length l - 1 <= length (splice_remove index l) <= length l)%nat.
Proof.
  unfold splice_remove. cbv zeta.
  rewrite length_app, length_take, length_drop.
  unfold spliceStart. case_decide; lia.
Qed.

Section Observers_invariant.
Variable handlers : list cmd -> action.
Hypothesis handlers_nil : forall s, handlers [] s = (Normal, s).

Lemma valid_selection_ext (s s' : state) :
  entries s' = entries s ->
  selectedIndex s' = selectedIndex s ->
  valid_selection s -> valid_selection s'.
Proof.
  unfold valid_selection, getSize. intros -> ->. tauto.
Qed.

(** [transact] leaves the entries and the selected index as its body left
    them. *)
Lemma transact_selection (fn : action) (s : state) :
  entries (transact silent handlers fn s).2 = entries (fn (enter s)).2 /\
  selectedIndex (transact silent handlers fn s).2 =
    selectedIndex (fn (enter s)).2.
Proof.
  rewrite (transact_silent _ handlers_nil).
  destruct (fn (enter s)) as [[| |] s1]; simpl;
    rewrite ?commit_entries, ?commit_selectedIndex; auto.
Qed.

Lemma deliver_entries (ev : event) (s : state) :
  entries (deliver ev s) = entries s.
Proof. unfold deliver. destruct (emitterDisposed s); reflexivity. Qed.

Lemma deliver_selectedIndex (ev : event) (s : state) :
  selectedIndex (deliver ev s) = selectedIndex s.
Proof. unfold deliver. destruct (emitterDisposed s); reflexivity. Qed.

Lemma addAt_valid (entry : Entry) (index : Z) (s : state) :
  valid_selection s -> entries s <> [] ->
  valid_selection (addAt silent handlers entry index s).2.
Proof.
  intros Hv Hne. unfold addAt.
  match goal with |- context [transact _ _ ?fn s] =>
    destruct (transact_selection fn s) as [He Hs]
  end.
  unfold valid_selection, getSize in *. rewrite He, Hs. clear He Hs.
  unfold includes, getSize. rewrite enter_entries.
  destruct (array_includes entry (entries s)).
  { unfold throw. cbn [snd]. rewrite enter_entries, enter_selectedIndex.
    exact Hv. }
  case_decide.
  2:{ unfold throw. cbn [snd]. rewrite enter_entries, enter_selectedIndex.
      exact Hv. }
  unfold didAddEntry. pure_steps. rewrite (emit_silent _ handlers_nil).
  cbn [snd]. rewrite deliver_entries, deliver_selectedIndex.
  destruct Hv as [[Hnil _] | Hv]; [contradiction|].
  right.
  destruct (decide (index <= selectedIndex (set_entries
              (splice_insert index entry (entries (enter s))) (enter s))))
    as [Hle|Hle];
    cbn [set_changed set_selectedIndex set_entries entries selectedIndex] in *;
    rewrite splice_insert_length, enter_entries, ?enter_selectedIndex in *;
    lia.
Qed.

Lemma removeAt_valid (index : Z) (s : state) :
  valid_selection s ->
  valid_selection (removeAt silent handlers index s).2.
Proof.
  intros Hv. unfold removeAt.
  match goal with |- context [transact _ _ ?fn s] =>
    destruct (transact_selection fn s) as [He Hs]
  end.
  match type of He with entries ?r = _ => set (res := r) in * end.
  unfold valid_selection, getSize in Hv |- *.
  rewrite He, Hs. clear res He Hs. cbv zeta.
  unfold didRemoveEntry. pure_steps. rewrite (emit_silent _ handlers_nil).
  cbn [snd]. rewrite deliver_entries, deliver_selectedIndex.
  unfold getSize in *.
  cbn [set_changed set_selectedIndex set_entries entries selectedIndex].
  rewrite enter_entries.
  pose proof (splice_remove_length index (entries s)) as Hlen.
  repeat case_decide;
    cbn [set_changed set_selectedIndex set_entries entries selectedIndex] in *;
    rewrite ?enter_selectedIndex in *.
  - left. split; [|reflexivity].
    destruct (splice_remove _ _); [reflexivity | simpl in *; lia].
  - right. destruct Hv as [[Hnil Hsel] | Hv]; lia.
  - right. destruct Hv as [[Hnil Hsel] | Hv]; [|lia].
    rewrite Hnil in *. simpl in *. lia.
Qed.

Lemma selectAt_valid (index : Z) (s : state) :
  valid_selection s ->
  valid_selection (selectAt silent handlers index s).2.
Proof.
  intros Hv. unfold selectAt.
  match goal with |- context [transact _ _ ?fn s] =>
    destruct (transact_selection fn s) as [He Hs]
  end.
  unfold valid_selection, getSize in *. rewrite He, Hs. clear He Hs.
  unfold getSize. rewrite enter_entries, enter_selectedIndex.
  repeat case_decide; unfold ret, throw, modify; cbn [snd];
    cbn [set_selectedIndex entries selectedIndex];
    rewrite ?enter_entries, ?enter_selectedIndex; auto.
  right. lia.
Qed.
End Observers_invariant.

(** X21. Where the code does keep the selection invariant.  An addition, removal
    or selection that returns or throws from a set with a valid selection
    leaves a set with a valid selection, provided an insertion is made into
    a non-empty set. *)
Lemma selection_stays_valid (fuel : nat) (c : cmd) (s : state) :
  valid_selection s ->
  keeps_selection_valid c s ->
  valid_selection (run silent fuel [c] s).2.
Proof.
  intros Hv Hc. rewrite run_single.
  pose proof (handlers_at_nil silent fuel) as Hnil.
  destruct c as [e|e i|e|i| | |e|i| | |body]; simpl in Hc; simpl exec;
    try contradiction.
  - unfold add. apply addAt_valid; auto.
  - apply addAt_valid; auto.
  - unfold remove. cbv zeta.
    case_decide; [exact Hv | apply removeAt_valid; auto].
  - apply removeAt_valid; auto.
  - unfold selectNext. cbv zeta.
    case_decide; [exact Hv | apply selectAt_valid; auto].
  - unfold selectPrevious. cbv zeta.
    case_decide; [exact Hv | apply selectAt_valid; auto].
  - unfold select. cbv zeta.
    case_decide; [exact Hv | apply selectAt_valid; auto].
  - apply selectAt_valid; auto.
Qed.

(** *** Moving the selection in a set of one entry *)

(** Where the selection is valid.  In a set of exactly one entry whose
    selected index is 0, [selectNext] and [selectPrevious] wrap around to
    index 0, [selectAt] returns at once, and nothing is emitted. *)
Lemma select_neighbour_of_single_entry (fuel : nat) (c : cmd) (e : Entry)
    (s : state) :
  c = Call_selectNext \/ c = Call_selectPrevious ->
  entries s = [e] ->
  selectedIndex s = 0 ->
  (transactionDepth s = 0 -> currentTransactionChangedEntries s = false) ->
  exists s' : state,
    run silent fuel [c] s = (Normal, s') /\
    getEntries s' = [e] /\
    getSelectedIndex s' = 0 /\
    getSelectedEntry s' = Some e /\
    trace s' = trace s ++ (if emitting s then [Warn] else []).
Proof.
  intros Hc Hent Hsel Hclean.
  destruct s as [l sel d ch em al dis tr]. simpl in Hent, Hsel, Hclean. subst l sel.
  rewrite run_single.
  assert (Hgoal : exists s' : state,
    selectAt silent (handlers_at silent fuel) 0
      (State [e] 0 d ch em al dis tr) = (Normal, s') /\
    getEntries s' = [e] /\ getSelectedIndex s' = 0 /\
    getSelectedEntry s' = Some e /\
    trace s' = tr ++ (if em then [Warn] else [])).
  { unfold selectAt.
    rewrite (transact_silent _ (handlers_at_nil silent fuel)).
    rewrite enter_selectedIndex. simpl selectedIndex.
    case_decide; [|congruence]. unfold ret.
    eexists. split; [reflexivity|].
    unfold getEntries, getSelectedIndex.
    rewrite commit_getSelectedEntry, commit_entries, commit_selectedIndex.
    unfold getSelectedEntry.
    rewrite enter_entries, enter_selectedIndex. simpl.
    repeat split.
    rewrite commit_unchanged.
    + unfold enter. destruct em; simpl; rewrite ?app_nil_r; reflexivity.
    + rewrite enter_transactionDepth. unfold enter.
      destruct em; simpl; intros; apply Hclean; lia.
    + unfold getSelectedEntry. rewrite enter_entries, enter_selectedIndex.
      reflexivity. }
  destruct Hc as [-> | ->]; simpl exec.
  - unfold selectNext, getSize. simpl. exact Hgoal.
  - unfold selectPrevious, getSize. simpl. exact Hgoal.
Qed.

(** *** Serialization *)

Section Serialization_facts.
Context {Rep : Type}.
Variable serializeEntry : Entry -> Rep.
Variable deserializeEntry : Rep -> Entry.

(** X1. Round trip.  When every entry of the set comes back from its own
    representation and the selection is valid, deserializing the serialized
    set builds a fresh set with the same entries in the same order, the
    same selected index and the same selected entry. *)
Theorem deserialize_serialize (s : state) :
  Forall (fun e => deserializeEntry (serializeEntry e) = e) (entries s) ->
  valid_selection s ->
  exists s0 : state,
    deserialize deserializeEntry (serialize serializeEntry s) = inr s0 /\
    getEntries s0 = getEntries s /\
    getSelectedIndex s0 = getSelectedIndex s /\
    getSelectedEntry s0 = getSelectedEntry s /\
    transactionDepth s0 = 0 /\
    trace s0 = [].
Proof.
  intros Hrt Hv.
  assert (Hmap : map deserializeEntry (map serializeEntry (entries s)) = entries s).
  { induction Hrt as [|e l He _ IH]; simpl; [reflexivity|]. rewrite He, IH. reflexivity. }
  unfold deserialize, serialize, constructor, getEntries. simpl.
  rewrite Hmap. unfold valid_selection, getSize in Hv.
  case_decide as H1.
  { destruct Hv as [[Hnil _] | Hv]; [rewrite Hnil in H1; simpl in H1|]; lia. }
  case_decide as H2.
  { destruct Hv as [[Hnil Hsel] | Hv]; [|lia].
    rewrite Hnil in *. simpl in *. lia. }
  eexists. repeat split.
Qed.

(** X2. A set that holds entries but selects none (index -1, the state an
    [add] on the empty set leaves behind) serializes, but its serialized
    form is refused by [deserialize]. *)
Theorem deserialize_refuses_missing_selection (s : state) :
  entries s <> [] ->
  selectedIndex s = -1 ->
  deserialize deserializeEntry (serialize serializeEntry s) =
    inl (Error "Initial selection required").
Proof.
  intros Hne Hsel.
  unfold deserialize, serialize, constructor, getEntries. simpl.
  rewrite Hsel. case_decide as H1; [reflexivity|].
  exfalso. apply H1. split; [reflexivity|].
  rewrite !length_map. destruct (entries s); [congruence | simpl; lia].
Qed.

(** A serialized form without [entries] and without [selectedIndex]
    deserializes to the empty set with nothing selected; without
    [selectedIndex] alone, to a set selecting its first entry. *)
Theorem deserialize_defaults (name : string) (reps : option (list Rep)) :
  exists s0 : state,
    deserialize deserializeEntry (Serialized name reps None) = inr s0 /\
    getEntries s0 = map deserializeEntry (default [] reps) /\
    getSelectedIndex s0 =
      match default [] reps with [] => -1 | _ :: _ => 0 end.
Proof.
  unfold deserialize, constructor. simpl.
  destruct (default [] reps) as [|r l]; simpl; eexists; repeat split.
Qed.
End Serialization_facts.


(** *** [addAt] and [add] *)

Lemma splice_insert_in_range (index : Z) (x : Entry) (l : list Entry) :
  0 <= index <= Z.of_nat (length l) ->
  splice_insert index x l =
    take (Z.to_nat index) l ++ x :: drop (Z.to_nat index) l.
Proof.
  intros Hr. unfold splice_insert. rewrite spliceStart_in_range by lia.
  reflexivity.
Qed.

(** Which entry the index kept by [addAt] points at. *)
Lemma selected_after_insert (l : list Entry) (x : Entry) (index sel : Z) :
  0 <= index <= Z.of_nat (length l) ->
  0 <= sel ->
  at_index (take (Z.to_nat index) l ++ x :: drop (Z.to_nat index) l)
    (if decide (index <= sel) then sel + 1 else sel) =
  at_index l sel.
Proof.
  intros Hr Hsel. case_decide as Hle.
  - rewrite !at_index_in_range by lia.
    rewrite lookup_app_r by (rewrite length_take; lia).
    rewrite length_take.
    replace (Z.to_nat (sel + 1) - Z.to_nat index `min` length l)%nat
      with (S (Z.to_nat sel - Z.to_nat index)) by lia.
    simpl. rewrite lookup_drop. f_equal. lia.
  - rewrite !at_index_in_range by lia.
    rewrite lookup_app_l by (rewrite length_take; lia).
    apply lookup_take_lt. lia.
Qed.

(** X3. [addAt] of a new entry at an index from 0 to the size returns
    normally, inserts the entry at that index and shifts the later entries
    right; the selected index moves up by one exactly when the insertion is
    at or before it, so that a selected entry stays selected; the first
    event emitted is did-add-entry with the entry and the index, and only
    batched events can follow. *)
Theorem addAt_inserts (fuel : nat) (entry : Entry) (index : Z) (s : state) :
  0 <= index <= getSize s ->
  includes entry s = false ->
  emitterDisposed s = false ->
  exists (s' : state) (bulk : list effect),
    run silent fuel [Call_addAt entry index] s = (Normal, s') /\
    entries s' =
      take (Z.to_nat index) (entries s) ++
      entry :: drop (Z.to_nat index) (entries s) /\
    selectedIndex s' =
      (if decide (index <= selectedIndex s) then selectedIndex s + 1
       else selectedIndex s) /\
    trace s' =
      trace s ++ (if emitting s then [Warn] else []) ++
      Emit (did_add_entry entry index) :: bulk /\
    Forall (fun ef => is_bulk ef = true) bulk /\
    (0 <= selectedIndex s -> getSelectedEntry s' = getSelectedEntry s).
Proof.
  intros Hr Hnew Hd.
  rewrite run_single. simpl exec. unfold addAt.
  rewrite (transact_silent _ (handlers_at_nil silent fuel)).
  unfold includes, getSize in *. rewrite enter_entries, Hnew.
  case_decide; [|lia].
  unfold didAddEntry. pure_steps.
  rewrite (emit_silent _ (handlers_at_nil silent fuel)).
  match goal with
  | |- context [commit ?p ?x] =>
      set (s3 := x);
      destruct (commit_trace p s3) as (te & ts & Htr & Hte & Hts & _);
      exists (commit p s3), (te ++ ts)
  end.
  split; [reflexivity|].
  assert (Hbulk : Forall (fun ef => is_bulk ef = true) (te ++ ts)).
  { apply Forall_app. split.
    - destruct Hte as [->| ->]; repeat constructor.
    - destruct Hts as [->| ->]; repeat constructor. }
  clear Hte Hts.
  rewrite !(commit_entries (getSelectedEntry s) s3),
    !(commit_selectedIndex (getSelectedEntry s) s3),
    !(commit_getSelectedEntry (getSelectedEntry s) s3), Htr.
  clear Htr. subst s3.
  destruct s as [l sel d ch em al dis tr]. simpl in Hr, Hd, Hnew. subst dis.
  unfold enter, deliver, getSelectedEntry.
  assert (Hins := selected_after_insert l entry index sel Hr).
  destruct em; simpl; rewrite splice_insert_in_range by lia;
    repeat case_decide; simpl in *; try lia; rewrite <- ?app_assoc; simpl;
    repeat split; auto.
Qed.

(** X4. [add] of a new entry appends it: the entries are the former ones
    followed by the new one, did-add-entry carries the former size as the
    index, and the selected index is left as it is whenever it lies below
    the size, so an entry that is selected stays selected and the empty
    set, at index -1, still selects nothing. *)
Theorem add_appends (fuel : nat) (entry : Entry) (s : state) :
  includes entry s = false ->
  emitterDisposed s = false ->
  selectedIndex s < getSize s ->
  exists (s' : state) (bulk : list effect),
    run silent fuel [Call_add entry] s = (Normal, s') /\
    entries s' = entries s ++ [entry] /\
    selectedIndex s' = selectedIndex s /\
    trace s' =
      trace s ++ (if emitting s then [Warn] else []) ++
      Emit (did_add_entry entry (getSize s)) :: bulk /\
    Forall (fun ef => is_bulk ef = true) bulk.
Proof.
  intros Hnew Hd Hsel.
  rewrite run_single. simpl exec. unfold add. unfold addAt.
  rewrite (transact_silent _ (handlers_at_nil silent fuel)).
  unfold includes, getSize in *. rewrite enter_entries, Hnew.
  case_decide; [|lia].
  unfold didAddEntry. pure_steps.
  rewrite (emit_silent _ (handlers_at_nil silent fuel)).
  match goal with
  | |- context [commit ?p ?x] =>
      set (s3 := x);
      destruct (commit_trace p s3) as (te & ts & Htr & Hte & Hts & _);
      exists (commit p s3), (te ++ ts)
  end.
  split; [reflexivity|].
  assert (Hbulk : Forall (fun ef => is_bulk ef = true) (te ++ ts)).
  { apply Forall_app. split.
    - destruct Hte as [->| ->]; repeat constructor.
    - destruct Hts as [->| ->]; repeat constructor. }
  clear Hte Hts.
  rewrite !(commit_entries (getSelectedEntry s) s3),
    !(commit_selectedIndex (getSelectedEntry s) s3), Htr.
  clear Htr. subst s3.
  destruct s as [l sel d ch em al dis tr]. simpl in Hd, Hnew, Hsel. subst dis.
  unfold enter, deliver.
  assert (Happ : splice_insert (Z.of_nat (length l)) entry l = l ++ [entry]).
  { rewrite splice_insert_in_range by lia.
    rewrite Nat2Z.id, firstn_all, drop_all. reflexivity. }
  destruct em; simpl; rewrite Happ;
    repeat case_decide; simpl in *; try lia; rewrite <- ?app_assoc; simpl;
    repeat split; auto.
Qed.


(** *** [remove] and [select] *)

Lemma indexOf_from_absent (x : Entry) (l : list Entry) (i : Z) :
  x ∉ l -> indexOf_from x l i = -1.
Proof.
  revert i. induction l as [|y l IH]; intros i Hx; simpl; [reflexivity|].
  apply not_elem_of_cons in Hx as [Hne Hx].
  case_decide; [congruence | apply IH, Hx].
Qed.

Lemma indexOf_from_present (x : Entry) (l : list Entry) (i : Z) :
  x ∈ l ->
  exists n : nat,
    indexOf_from x l i = i + Z.of_nat n /\
    l !! n = Some x /\
    (forall m : nat, (m < n)%nat -> l !! m <> Some x).
Proof.
  revert i. induction l as [|y l IH]; intros i Hx; [inversion Hx|].
  simpl. case_decide as Hy.
  - subst y. exists O. repeat split; [lia | intros m Hm; lia].
  - apply elem_of_cons in Hx as [Hx | Hx]; [congruence|].
    destruct (IH (i + 1) Hx) as (n & Hi & Hn & Hfirst).
    exists (S n). repeat split; [lia | exact Hn |].
    intros [|m] Hm; simpl; [congruence | apply Hfirst; lia].
Qed.

(** X5. [remove] of an entry that is not in the set is not an error and
    not a transaction: the call returns normally and the set is left
    exactly as it was, nothing emitted and nothing logged. *)
Theorem remove_absent_is_noop (L : event -> list cmd) (fuel : nat)
    (entry : Entry) (s : state) :
  entry ∉ entries s ->
  run L fuel [Call_remove entry] s = (Normal, s).
Proof.
  intros Habs. rewrite run_single. simpl exec. unfold remove, indexOf.
  cbv zeta. rewrite indexOf_from_absent by exact Habs.
  case_decide; [reflexivity | congruence].
Qed.

(** X8. [select] of an entry that is not in the set throws
    Error('Entry not in set') whatever the listeners are, before any
    transaction is opened: nothing is emitted and the state is exactly
    what it was. *)
Theorem select_absent_throws (L : event -> list cmd) (fuel : nat)
    (entry : Entry) (s : state) :
  entry ∉ entries s ->
  run L fuel [Call_select entry] s = (Throw (Error "Entry not in set"), s).
Proof.
  intros Habs. rewrite run_single. simpl exec. unfold select. cbv zeta.
  unfold indexOf. rewrite (indexOf_from_absent _ _ _ Habs).
  case_decide; [reflexivity | congruence].
Qed.

(** X6. [remove] of an entry of the set returns normally and takes out its
    first occurrence: the entries are the former ones without position [n],
    where [n] is the first position holding the entry; the first event
    emitted is did-remove-entry with the entry and [n]; in a set without
    duplicates the entry is no longer included afterwards. *)
Theorem remove_present (fuel : nat) (entry : Entry) (s : state) :
  entry ∈ entries s ->
  emitterDisposed s = false ->
  exists (n : nat) (s' : state) (bulk : list effect),
    entries s !! n = Some entry /\
    (forall m : nat, (m < n)%nat -> entries s !! m <> Some entry) /\
    run silent fuel [Call_remove entry] s = (Normal, s') /\
    entries s' = delete n (entries s) /\
    trace s' =
      trace s ++ (if emitting s then [Warn] else []) ++
      Emit (did_remove_entry (Some entry) (Z.of_nat n)) :: bulk /\
    Forall (fun ef => is_bulk ef = true) bulk /\
    (NoDup (entries s) -> includes entry s' = false).
Proof.
  intros Hin Hd.
  destruct (indexOf_from_present entry (entries s) 0 Hin)
    as (n & Hidx & Hn & Hfirst).
  assert (Hlt : (n < length (entries s))%nat)
    by (apply lookup_lt_is_Some; eauto).
  destruct (removeAt_in_range fuel (Z.of_nat n) s) as
    (s' & bulk & Hrun & Hent & _ & Htr & Hbulk);
    [unfold getSize; lia | exact Hd |].
  rewrite run_single in Hrun. simpl exec in Hrun.
  rewrite Nat2Z.id in Hent, Htr. rewrite Hn in Htr.
  exists n, s', bulk.
  split; [exact Hn|]. split; [exact Hfirst|].
  split.
  { rewrite run_single. simpl exec. unfold remove, indexOf. cbv zeta.
    rewrite Hidx. case_decide; [lia|].
    replace (0 + Z.of_nat n) with (Z.of_nat n) by lia. exact Hrun. }
  repeat (split; [assumption|]).
  intros Hnd. unfold includes, array_includes. rewrite Hent.
  apply bool_decide_eq_false_2. intros Hin'.
  apply list_elem_of_lookup in Hin' as [j Hj].
  destruct (decide (j < n)%nat) as [Hjn|Hjn].
  - rewrite list_lookup_delete_lt in Hj by exact Hjn.
    pose proof (NoDup_lookup _ _ _ _ Hnd Hj Hn). lia.
  - rewrite list_lookup_delete_ge in Hj by lia.
    pose proof (NoDup_lookup _ _ _ _ Hnd Hj Hn). lia.
Qed.

Lemma enter_getSelectedEntry (s : state) :
  getSelectedEntry (enter s) = getSelectedEntry s.
Proof.
  unfold getSelectedEntry. rewrite enter_entries, enter_selectedIndex.
  reflexivity.
Qed.

(** X7. [select] of an entry of the set returns normally, leaves the
    entries as they are and makes the entry the selected one.  Called from
    outside any transaction on a live set, it emits
    did-change-selected-entry with the entry exactly when another entry, or
    none, was selected before, and nothing else. *)
Theorem select_present (fuel : nat) (entry : Entry) (s : state) :
  entry ∈ entries s ->
  emitterDisposed s = false ->
  (transactionDepth s = 0 -> currentTransactionChangedEntries s = false) ->
  exists (s' : state) (t : list effect),
    run silent fuel [Call_select entry] s = (Normal, s') /\
    getEntries s' = getEntries s /\
    getSelectedEntry s' = Some entry /\
    trace s' = trace s ++ (if emitting s then [Warn] else []) ++ t /\
    (t = [] \/ t = [Emit (did_change_selected_entry (Some entry))]) /\
    (transactionDepth s = 0 ->
     (t <> [] <-> getSelectedEntry s <> Some entry)) /\
    (transactionDepth s <> 0 -> t = []).
Proof.
  intros Hin Hd Hclean.
  destruct (indexOf_from_present entry (entries s) 0 Hin)
    as (n & Hidx & Hn & _).
  assert (Hlt : (n < length (entries s))%nat)
    by (apply lookup_lt_is_Some; eauto).
  rewrite run_single. simpl exec. unfold select, indexOf. cbv zeta.
  rewrite Hidx. case_decide; [lia|].
  replace (0 + Z.of_nat n) with (Z.of_nat n) by lia.
  unfold selectAt. rewrite (transact_silent _ (handlers_at_nil silent fuel)).
  rewrite enter_selectedIndex. unfold getSize. rewrite enter_entries.
  destruct s as [l sel d ch em al dis tr].
  simpl in Hd, Hclean, Hn, Hlt. subst dis.
  assert (Hat : at_index l (Z.of_nat n) = Some entry)
    by (rewrite at_index_in_range by lia; rewrite Nat2Z.id; exact Hn).
  unfold getEntries, getSelectedEntry. simpl entries. simpl selectedIndex.
  exists (commit (at_index l sel)
            (State l (Z.of_nat n) (d + 1) ch em al false
               (tr ++ if em then [Warn] else []))),
    (if decide (d = 0)
     then if decide (at_index l (Z.of_nat n) <> at_index l sel)
          then [Emit (did_change_selected_entry (at_index l (Z.of_nat n)))]
          else []
     else []).
  split.
  { unfold enter, ret, throw, modify.
    destruct em; simpl; repeat case_decide; try lia; subst;
      rewrite ?app_nil_r; reflexivity. }
  rewrite commit_State. rewrite Hat.
  destruct (decide (d = 0)) as [-> | Hd0].
  - rewrite Hclean by reflexivity.
    destruct (decide (0 + 1 - 1 <> 0)) as [Hz|_]; [lia|].
    cbn [entries selectedIndex trace].
    destruct (decide (Some entry <> at_index l sel)) as [Hsel|Hsel];
      cbn [app]; rewrite <- ?app_assoc; rewrite ?app_nil_r;
      repeat split; auto; try tauto; try congruence;
      intros; try discriminate; try lia.
  - destruct (decide (d + 1 - 1 <> 0)) as [_|Hz]; [|lia].
    cbn [entries selectedIndex trace]. rewrite app_nil_r.
    repeat split; auto; try tauto; try lia.
Qed.


(** *** Moving the selection around *)

Lemma selectAt_in_range (fuel : nat) (index : Z) (s : state) :
  0 <= index < getSize s ->
  exists s' : state,
    selectAt silent (handlers_at silent fuel) index s = (Normal, s') /\
    entries s' = entries s /\
    selectedIndex s' = index.
Proof.
  intros Hr. unfold selectAt.
  rewrite (transact_silent _ (handlers_at_nil silent fuel)).
  unfold getSize in *. rewrite enter_selectedIndex, enter_entries.
  case_decide as Heq.
  - eexists. split; [reflexivity|].
    rewrite commit_entries, commit_selectedIndex.
    cbn [snd]. rewrite enter_entries, enter_selectedIndex. auto.
  - case_decide; [lia|]. eexists. split; [reflexivity|].
    rewrite commit_entries, commit_selectedIndex.
    cbn [set_selectedIndex entries selectedIndex].
    rewrite enter_entries. auto.
Qed.

Lemma selectNext_step (fuel : nat) (s : state) :
  0 <= selectedIndex s < getSize s ->
  exists s' : state,
    selectNext silent (handlers_at silent fuel) s = (Normal, s') /\
    entries s' = entries s /\
    selectedIndex s' = (selectedIndex s + 1) mod getSize s.
Proof.
  intros Hv. unfold selectNext. cbv zeta. case_decide; [lia|].
  rewrite Z.rem_mod_nonneg by lia.
  apply selectAt_in_range. apply Z.mod_pos_bound. lia.
Qed.

Lemma selectPrevious_step (fuel : nat) (s : state) :
  0 <= selectedIndex s < getSize s ->
  exists s' : state,
    selectPrevious silent (handlers_at silent fuel) s = (Normal, s') /\
    entries s' = entries s /\
    selectedIndex s' = (selectedIndex s - 1) mod getSize s.
Proof.
  intros Hv. unfold selectPrevious. cbv zeta. case_decide; [lia|].
  rewrite Z.rem_mod_nonneg by lia.
  replace ((selectedIndex s - 1 + getSize s) mod getSize s)
    with ((selectedIndex s - 1) mod getSize s).
  - apply selectAt_in_range. apply Z.mod_pos_bound. lia.
  - rewrite <- (Z.mod_add (selectedIndex s - 1) 1 (getSize s)) by lia.
    f_equal. lia.
Qed.

(** X9. In a set with a valid selection, [n] calls of [selectNext] return
    normally, leave the entries as they are and move the selected index [n]
    places forward around the ring of positions: it ends at
    (selectedIndex + n) mod size, so that size calls bring it back to where
    it was. *)
Theorem selectNext_iterated (fuel n : nat) (s : state) :
  0 <= selectedIndex s < getSize s ->
  exists s' : state,
    run silent fuel (replicate n Call_selectNext) s = (Normal, s') /\
    getEntries s' = getEntries s /\
    getSelectedIndex s' = (selectedIndex s + Z.of_nat n) mod getSize s.
Proof.
  unfold run, getEntries, getSelectedIndex. revert s.
  induction n as [|n IH]; intros s Hv.
  - exists s. simpl. repeat split. rewrite Z.add_0_r, Z.mod_small; lia.
  - destruct (selectNext_step fuel s Hv) as (s1 & Hstep & He1 & Hs1).
    destruct (IH s1) as (s' & Hrun & He & Hs).
    { unfold getSize in *. rewrite He1, Hs1. apply Z.mod_pos_bound. lia. }
    exists s'. cbn [replicate exec_list exec].
    rewrite (seq_normal _ _ _ _ Hstep). split; [exact Hrun|].
    split; [congruence|].
    rewrite Hs, Hs1. unfold getSize. rewrite He1.
    rewrite Zplus_mod_idemp_l. f_equal. lia.
Qed.

(** X10. In a set with a valid selection, [selectPrevious] undoes
    [selectNext] and [selectNext] undoes [selectPrevious]: either pair of
    calls returns normally and leaves the entries and the selected index as
    they were. *)
Theorem selectNext_selectPrevious_inverse (fuel : nat) (s : state) :
  0 <= selectedIndex s < getSize s ->
  (exists s' : state,
     run silent fuel [Call_selectNext; Call_selectPrevious] s = (Normal, s') /\
     getEntries s' = getEntries s /\
     getSelectedIndex s' = getSelectedIndex s) /\
  (exists s' : state,
     run silent fuel [Call_selectPrevious; Call_selectNext] s = (Normal, s') /\
     getEntries s' = getEntries s /\
     getSelectedIndex s' = getSelectedIndex s).
Proof.
  intros Hv. unfold run, getEntries, getSelectedIndex. split.
  - destruct (selectNext_step fuel s Hv) as (s1 & Hstep & He1 & Hs1).
    destruct (selectPrevious_step fuel s1) as (s2 & Hstep2 & He2 & Hs2).
    { unfold getSize in *. rewrite He1, Hs1. apply Z.mod_pos_bound. lia. }
    exists s2. cbn [exec_list exec].
    rewrite (seq_normal _ _ _ _ Hstep), (seq_normal _ _ _ _ Hstep2).
    split; [reflexivity|]. split; [congruence|].
    rewrite Hs2, Hs1. unfold getSize in *. rewrite He1.
    rewrite Zminus_mod_idemp_l.
    replace (selectedIndex s + 1 - 1) with (selectedIndex s) by lia.
    apply Z.mod_small. lia.
  - destruct (selectPrevious_step fuel s Hv) as (s1 & Hstep & He1 & Hs1).
    destruct (selectNext_step fuel s1) as (s2 & Hstep2 & He2 & Hs2).
    { unfold getSize in *. rewrite He1, Hs1. apply Z.mod_pos_bound. lia. }
    exists s2. cbn [exec_list exec].
    rewrite (seq_normal _ _ _ _ Hstep), (seq_normal _ _ _ _ Hstep2).
    split; [reflexivity|]. split; [congruence|].
    rewrite Hs2, Hs1. unfold getSize in *. rewrite He1.
    rewrite Zplus_mod_idemp_l.
    replace (selectedIndex s - 1 + 1) with (selectedIndex s) by lia.
    apply Z.mod_small. lia.
Qed.


(** *** Calls inside an open transaction, outside any dispatch *)

(** Reducing setters applied to an explicit state. *)
Ltac norm_state :=
  unfold set_entries, set_selectedIndex, set_transactionDepth, set_changed,
    set_emitting, set_alive, set_emitterDisposed, log;
  cbn [entries selectedIndex transactionDepth
       currentTransactionChangedEntries emitting alive emitterDisposed trace].

Section Observers_nested.
Variable handlers : list cmd -> action.
Hypothesis handlers_nil : forall s, handlers [] s = (Normal, s).

Lemma addAt_nested (entry : Entry) (index : Z) (l : list Entry) (sel d : Z)
    (ch : bool) (al : jsval) (tr : list effect) :
  1 <= d ->
  entry ∉ l ->
  0 <= index <= Z.of_nat (length l) ->
  addAt silent handlers entry index (State l sel d ch false al false tr) =
  (Normal,
   State (take (Z.to_nat index) l ++ entry :: drop (Z.to_nat index) l)
     (if decide (index <= sel) then sel + 1 else sel)
     d true false al false
     (tr ++ [Emit (did_add_entry entry index)])).
Proof.
  intros Hd Hnew Hr. unfold addAt.
  rewrite (transact_silent _ handlers_nil).
  change (enter (State l sel d ch false al false tr))
    with (State l sel (d + 1) ch false al false tr).
  unfold includes, array_includes, getSize. cbn [entries].
  rewrite bool_decide_eq_false_2 by exact Hnew.
  case_decide; [|lia].
  unfold didAddEntry. pure_steps. rewrite (emit_silent _ handlers_nil).
  unfold deliver. norm_state.
  rewrite splice_insert_in_range by lia.
  destruct (decide (index <= sel)); norm_state;
    rewrite commit_State;
    (destruct (decide (d + 1 - 1 <> 0)) as [_|Hz]; [|lia]);
    replace (d + 1 - 1) with d by lia; reflexivity.
Qed.

Lemma removeAt_nested (n : nat) (l : list Entry) (sel d : Z)
    (ch : bool) (al : jsval) (tr : list effect) :
  1 <= d ->
  (n < length l)%nat ->
  removeAt silent handlers (Z.of_nat n) (State l sel d ch false al false tr) =
  (Normal,
   State (delete n l)
     (if decide (Z.of_nat (length (delete n l)) = 0) then -1
      else if decide (Z.of_nat n < sel) then Z.max 0 (sel - 1)
           else Z.min sel (Z.of_nat (length (delete n l)) - 1))
     d true false al false
     (tr ++ [Emit (did_remove_entry (l !! n) (Z.of_nat n))])).
Proof.
  intros Hd Hn. unfold removeAt.
  rewrite (transact_silent _ handlers_nil).
  change (enter (State l sel d ch false al false tr))
    with (State l sel (d + 1) ch false al false tr).
  unfold didRemoveEntry. pure_steps. rewrite (emit_silent _ handlers_nil).
  unfold deliver, getSize. norm_state.
  rewrite splice_remove_in_range, at_index_in_range, Nat2Z.id by lia.
  repeat case_decide; norm_state; try lia; rewrite commit_State;
    (destruct (decide (d + 1 - 1 <> 0)) as [_|Hz]; [|lia]);
    replace (d + 1 - 1) with d by lia; reflexivity.
Qed.
End Observers_nested.

Lemma indexOf_from_last (x : Entry) (l : list Entry) (i : Z) :
  x ∉ l -> indexOf_from x (l ++ [x]) i = i + Z.of_nat (length l).
Proof.
  revert i. induction l as [|y l IH]; intros i Hx; simpl.
  - case_decide; [lia | congruence].
  - apply not_elem_of_cons in Hx as [Hne Hx].
    case_decide; [congruence|]. rewrite IH by exact Hx. lia.
Qed.

(** X11. The event did-change-entries can be a false positive, as the
    comment in [transact] says.  A top-level transaction that adds a new
    entry and removes it again leaves the entries and the selected index of
    a set with a valid selection as they were, and still emits
    did-change-entries once, after did-add-entry and did-remove-entry,
    with the unchanged entries; did-change-selected-entry is not emitted. *)
Theorem add_then_remove_still_reports_change (fuel : nat) (entry : Entry)
    (s : state) :
  transactionDepth s = 0 ->
  currentTransactionChangedEntries s = false ->
  emitting s = false ->
  emitterDisposed s = false ->
  entry ∉ entries s ->
  valid_selection s ->
  exists s' : state,
    run silent fuel [Call_transact [Call_add entry; Call_remove entry]] s =
      (Normal, s') /\
    getEntries s' = getEntries s /\
    getSelectedIndex s' = getSelectedIndex s /\
    trace s' =
      trace s ++
      [Emit (did_add_entry entry (getSize s));
       Emit (did_remove_entry (Some entry) (getSize s));
       Emit (did_change_entries (getEntries s))].
Proof.
  intros Hd Hch Hem Hdis Hnew Hv.
  destruct s as [l sel d ch em al dis tr].
  unfold valid_selection, getSize in Hv.
  simpl in Hd, Hch, Hem, Hdis, Hnew, Hv. subst d ch em dis.
  pose proof (handlers_at_nil silent fuel) as Hnil.
  rewrite run_single, exec_transact, (transact_silent _ Hnil).
  change (enter (State l sel 0 false false al false tr))
    with (State l sel 1 false false al false tr).
  cbn [exec_list exec]. unfold add, getSize at 1. cbn [entries].
  assert (Hadd := addAt_nested _ Hnil entry (Z.of_nat (length l)) l sel 1
                    false al tr).
  rewrite Nat2Z.id, firstn_all, drop_all in Hadd.
  erewrite seq_normal by (apply Hadd; [lia | exact Hnew | lia]).
  destruct (decide (Z.of_nat (length l) <= sel)) as [Hle|_].
  { destruct Hv as [[-> ->] | Hv]; simpl in *; lia. }
  assert (Hrem := removeAt_nested _ Hnil (length l) (l ++ [entry]) sel 1 true al
                    (tr ++ [Emit (did_add_entry entry (Z.of_nat (length l)))])).
  assert (Hdel : delete (length l) (l ++ [entry]) = l).
  { rewrite delete_take_drop.
    rewrite take_app_length, drop_ge by (rewrite length_app; simpl; lia).
    apply app_nil_r. }
  rewrite Hdel in Hrem.
  rewrite lookup_app_r, Nat.sub_diag in Hrem by lia. simpl in Hrem.
  specialize (Hrem ltac:(lia) ltac:(rewrite length_app; simpl; lia)).
  assert (Hremove :
    remove silent (handlers_at silent fuel) entry
      (State (l ++ [entry]) sel 1 true false al false
         (tr ++ [Emit (did_add_entry entry (Z.of_nat (length l)))])) =
    removeAt silent (handlers_at silent fuel) (Z.of_nat (length l))
      (State (l ++ [entry]) sel 1 true false al false
         (tr ++ [Emit (did_add_entry entry (Z.of_nat (length l)))]))).
  { unfold remove, indexOf. cbv zeta. cbn [entries].
    rewrite indexOf_from_last by exact Hnew.
    destruct (decide (0 + Z.of_nat (length l) = -1)) as [Hm|_]; [lia|].
    replace (0 + Z.of_nat (length l)) with (Z.of_nat (length l)) by lia.
    reflexivity. }
  erewrite seq_normal by (rewrite Hremove; exact Hrem).
  unfold ret. rewrite commit_State.
  destruct (decide (1 - 1 <> 0)) as [Hz|_]; [lia|].
  eexists. split; [reflexivity|].
  unfold getEntries, getSelectedIndex, getSelectedEntry, getSize.
  cbn [entries selectedIndex trace].
  assert (Hsel : (if decide (Z.of_nat (length l) = 0) then -1
                  else if decide (Z.of_nat (length l) < sel)
                       then Z.max 0 (sel - 1)
                       else Z.min sel (Z.of_nat (length l) - 1)) = sel).
  { repeat case_decide; destruct Hv as [[-> ->] | Hv]; simpl in *; lia. }
  rewrite Hsel.
  split; [reflexivity|]. split; [reflexivity|].
  destruct (decide (at_index l sel <> at_index l sel)) as [Hne|_];
    [congruence|].
  rewrite <- !app_assoc. reflexivity.
Qed.


(** *** What every call respects, whatever the listeners do *)

Section Every_call.
Variable R : state -> completion -> state -> Prop.
Variable L : event -> list cmd.
Hypothesis R_ret : forall s, R s Normal s.
Hypothesis R_throw : forall s e, R s (Throw e) s.
Hypothesis R_fuel : forall s, R s OutOfFuel s.
Hypothesis R_seq : forall s s1 c s2, R s Normal s1 -> R s1 c s2 -> R s c s2.
Hypothesis R_changed : forall s, R s Normal (set_changed true s).
Hypothesis R_select : forall s i,
  0 <= i < getSize s -> R s Normal (set_selectedIndex i s).
Hypothesis R_alive : forall s, R s Normal (set_alive (JBool false) s).
Hypothesis R_disposed : forall s, R s Normal (set_emitterDisposed true s).
Hypothesis R_log : forall s ef, R s Normal (log ef s).
Hypothesis R_insert : forall s e i,
  includes e s = false ->
  i <= getSize s ->
  R s Normal
    ((fun s => if decide (i <= selectedIndex s)
               then set_selectedIndex (selectedIndex s + 1) s
               else s)
       (set_entries (splice_insert i e (entries s)) s)).
Hypothesis R_remove : forall s i,
  R s Normal
    ((fun s =>
        let size := getSize s in
        if decide (size = 0) then set_selectedIndex (-1) s
        else if decide (i < selectedIndex s)
        then set_selectedIndex (Z.max 0 (selectedIndex s - 1)) s
        else set_selectedIndex (Z.min (selectedIndex s) (size - 1)) s)
       (set_entries (splice_remove i (entries s)) s)).
Hypothesis R_emit : forall handlers : list cmd -> action,
  (forall cs, respects R (handlers cs)) ->
  forall ev, respects R (emit L handlers ev).
Hypothesis R_transact : forall handlers : list cmd -> action,
  (forall cs, respects R (handlers cs)) ->
  forall fn : action, respects R fn -> respects R (transact L handlers fn).

Lemma respects_ret : respects R ret.
Proof. intros s. apply R_ret. Qed.

Lemma respects_throw (e : error) : respects R (throw e).
Proof. intros s. apply R_throw. Qed.

Lemma respects_seq (a b : action) :
  respects R a -> respects R b -> respects R (seq a b).
Proof.
  intros Ha Hb s. unfold seq. specialize (Ha s).
  destruct (a s) as [[|e|] s1]; simpl in Ha; try exact Ha.
  eapply R_seq; [exact Ha | apply Hb].
Qed.

Lemma respects_if_dec (P : state -> Prop) `{!forall s, Decision (P s)}
    (a b : action) :
  respects R a -> respects R b ->
  respects R (fun s => if decide (P s) then a s else b s).
Proof. intros Ha Hb s. case_decide; [apply Ha | apply Hb]. Qed.

Lemma respects_if_bool (c : state -> bool) (a b : action) :
  respects R a -> respects R b ->
  respects R (fun s => if c s then a s else b s).
Proof. intros Ha Hb s. destruct (c s); [apply Ha | apply Hb]. Qed.

Lemma respects_modify (f : state -> state) :
  (forall s, R s Normal (f s)) -> respects R (modify f).
Proof. intros Hf s. apply Hf. Qed.

Lemma respects_two_steps (f1 f2 : state -> state) (b : action) (s : state) :
  R s Normal (f2 (f1 s)) -> respects R b ->
  R s (seq (modify f1) (seq (modify f2) b) s).1
      (seq (modify f1) (seq (modify f2) b) s).2.
Proof.
  intros Hf Hb. unfold seq, modify. cbv beta iota.
  specialize (Hb (f2 (f1 s))). destruct (b (f2 (f1 s))) as [c s2]. simpl in *.
  destruct c; eapply R_seq; eauto.
Qed.

Lemma respects_forEach (l : list Entry) (f : Entry -> action) :
  (forall e, respects R (f e)) -> respects R (forEach l f).
Proof.
  intros Hf. induction l as [|e l IH]; simpl.
  - apply respects_ret.
  - apply respects_seq; auto.
Qed.

Section With_handlers.
Variable handlers : list cmd -> action.
Hypothesis handlers_respect : forall cs, respects R (handlers cs).

Lemma respects_addAt_body (entry : Entry) (index : Z) :
  respects R (addAt_body L handlers entry index).
Proof.
  unfold addAt_body.
  intros s. destruct (includes entry s) eqn:Hinc; [apply R_throw|].
  case_decide as Hle; [|apply R_throw].
  assert (Hrest : respects R (didAddEntry L handlers entry index)).
  { unfold didAddEntry. apply respects_seq.
    - apply respects_modify. intros s0. apply R_changed.
    - apply R_emit. exact handlers_respect. }
  apply respects_two_steps;
    [apply (R_insert s entry index Hinc Hle) | exact Hrest].
Qed.

Lemma respects_addAt (entry : Entry) (index : Z) :
  respects R (addAt L handlers entry index).
Proof.
  change (respects R (transact L handlers (addAt_body L handlers entry index))).
  apply R_transact; [exact handlers_respect | apply respects_addAt_body].
Qed.

Lemma respects_add (entry : Entry) : respects R (add L handlers entry).
Proof. intros s. unfold add. apply respects_addAt. Qed.

Lemma respects_removeAt_body (index : Z) :
  respects R (removeAt_body L handlers index).
Proof.
  unfold removeAt_body.
  intros s. cbv zeta. generalize (at_index (entries s) index). intros entry.
  assert (Hrest : respects R (didRemoveEntry L handlers entry index)).
  { unfold didRemoveEntry. apply respects_seq.
    - apply respects_modify. intros s0. apply R_changed.
    - apply R_emit. exact handlers_respect. }
  apply respects_two_steps; [apply R_remove | exact Hrest].
Qed.

Lemma respects_removeAt (index : Z) : respects R (removeAt L handlers index).
Proof.
  change (respects R (transact L handlers (removeAt_body L handlers index))).
  apply R_transact; [exact handlers_respect | apply respects_removeAt_body].
Qed.

Lemma respects_remove (entry : Entry) : respects R (remove L handlers entry).
Proof.
  intros s. unfold remove. cbv zeta.
  case_decide; [apply R_ret | apply respects_removeAt].
Qed.

Lemma respects_selectAt_body (index : Z) : respects R (selectAt_body index).
Proof.
  intros s. unfold selectAt_body. case_decide; [apply R_ret|].
  case_decide as Hout; [apply R_throw | apply R_select; lia].
Qed.

Lemma respects_selectAt (index : Z) : respects R (selectAt L handlers index).
Proof.
  change (respects R (transact L handlers (selectAt_body index))).
  apply R_transact; [exact handlers_respect | apply respects_selectAt_body].
Qed.

Lemma respects_selectNext : respects R (selectNext L handlers).
Proof.
  intros s. unfold selectNext. cbv zeta.
  case_decide; [apply R_ret | apply respects_selectAt].
Qed.

Lemma respects_selectPrevious : respects R (selectPrevious L handlers).
Proof.
  intros s. unfold selectPrevious. cbv zeta.
  case_decide; [apply R_ret | apply respects_selectAt].
Qed.

Lemma respects_select (entry : Entry) : respects R (select L handlers entry).
Proof.
  intros s. unfold select. cbv zeta.
  case_decide; [apply R_throw | apply respects_selectAt].
Qed.

Lemma respects_destroyEntries :
  respects R (destroyEntries hasDestroy L handlers).
Proof.
  unfold destroyEntries. apply R_transact; [exact handlers_respect|].
  intros s. apply respects_forEach. intros e.
  apply respects_seq.
  - intros s0. destruct (includes e s0); [apply R_ret | apply R_throw].
  - apply respects_seq; [|apply respects_remove].
    unfold destroyEntry. destruct (hasDestroy e).
    + apply respects_modify. intros s0. apply R_log.
    + apply respects_ret.
Qed.

Lemma respects_destroy : respects R (destroy hasDestroy L handlers).
Proof.
  unfold destroy. apply respects_seq; [apply respects_destroyEntries|].
  apply respects_seq; [apply respects_modify; intros s; apply R_alive|].
  apply respects_seq.
  - unfold didDestroy. apply R_emit. exact handlers_respect.
  - apply respects_modify. intros s. apply R_disposed.
Qed.

Lemma respects_block (body : list cmd) :
  Forall (fun c => respects R (exec L handlers c)) body ->
  respects R (exec_list L handlers body).
Proof.
  induction 1 as [|c cs Hc _ IH]; simpl.
  - apply respects_ret.
  - apply respects_seq; assumption.
Qed.

Lemma respects_exec (c : cmd) : respects R (exec L handlers c).
Proof.
  induction c as [c IH] using cmd_nested_ind.
  destruct c as [| | | | | | | | | |body];
    [simpl exec .. | rewrite exec_transact].
  - apply respects_add.
  - apply respects_addAt.
  - apply respects_remove.
  - apply respects_removeAt.
  - apply respects_selectNext.
  - apply respects_selectPrevious.
  - apply respects_select.
  - apply respects_selectAt.
  - apply respects_destroy.
  - apply respects_destroyEntries.
  - apply R_transact; [exact handlers_respect|].
    apply respects_block. exact IH.
Qed.

Lemma respects_exec_list (cs : list cmd) : respects R (exec_list L handlers cs).
Proof.
  apply respects_block, Forall_forall. intros c _. apply respects_exec.
Qed.
End With_handlers.

Lemma respects_handlers_at (fuel : nat) (cs : list cmd) :
  respects R (handlers_at L fuel cs).
Proof.
  revert cs. induction fuel as [|fuel IH]; intros cs; simpl.
  - destruct cs; [apply respects_ret | intros s; apply R_fuel].
  - apply respects_exec_list. exact IH.
Qed.

Lemma respects_run (fuel : nat) (cs : list cmd) : respects R (run L fuel cs).
Proof. apply respects_exec_list, respects_handlers_at. Qed.
End Every_call.


(** [emit] and [transact] respect a relation that their single steps
    respect. *)
Section Step_by_step.
Variable R : state -> completion -> state -> Prop.
Variable L : event -> list cmd.
Hypothesis R_ret : forall s, R s Normal s.
Hypothesis R_seq : forall s s1 c s2, R s Normal s1 -> R s1 c s2 -> R s c s2.
Hypothesis R_changed : forall s b, R s Normal (set_changed b s).
Hypothesis R_emitting : forall s b, R s Normal (set_emitting b s).
Hypothesis R_depth : forall s d, R s Normal (set_transactionDepth d s).
Hypothesis R_log : forall s ef, R s Normal (log ef s).
Variable handlers : list cmd -> action.
Hypothesis handlers_respect : forall cs, respects R (handlers cs).

Lemma emit_step_by_step (ev : event) : respects R (emit L handlers ev).
Proof.
  intros s. unfold emit. cbv zeta.
  destruct (emitterDisposed (set_emitting true s)).
  - simpl. eapply R_seq; [apply R_emitting | apply R_emitting].
  - pose proof (handlers_respect (L ev) (log (Emit ev) (set_emitting true s)))
      as Hh.
    destruct (handlers _ _) as [[|e|] s2]; simpl in *.
    + eapply R_seq; [|apply R_emitting].
      eapply R_seq; [apply R_emitting|]. eapply R_seq; [apply R_log | exact Hh].
    + eapply R_seq; [apply R_emitting|]. eapply R_seq; [apply R_log | exact Hh].
    + eapply R_seq; [apply R_emitting|]. eapply R_seq; [apply R_log | exact Hh].
Qed.

Lemma transact_step_by_step (fn : action) :
  (forall s e, R s (Throw e) s) ->
  respects R fn -> respects R (transact L handlers fn).
Proof.
  intros R_throw Hfn s0. unfold transact. cbv zeta.
  set (s := if emitting s0 then log Warn s0 else s0).
  assert (H0 : R s0 Normal s)
    by (subst s; destruct (emitting s0); [apply R_log | apply R_ret]).
  generalize (getSelectedEntry s). intros prev.
  assert (Hchain : respects R
    (seq (modify (fun s => set_transactionDepth (transactionDepth s + 1) s))
       (seq fn
          (seq (modify (fun s => set_transactionDepth (transactionDepth s - 1) s))
             (fun s =>
                if decide (transactionDepth s <> 0) then ret s
                else
                  seq (fun s =>
                         if currentTransactionChangedEntries s
                         then seq (modify (set_changed false))
                                (fun s => emit L handlers
                                            (did_change_entries (getEntries s)) s) s
                         else ret s)
                      (fun s =>
                         let selectedEntry := getSelectedEntry s in
                         if decide (selectedEntry <> prev)
                         then emit L handlers
                                (did_change_selected_entry selectedEntry) s
                         else ret s) s))))).
  { assert (Hseq : forall a b, respects R a -> respects R b -> respects R (seq a b)).
    { intros a b Ha Hb s1. unfold seq. specialize (Ha s1).
      destruct (a s1) as [[|e|] s2]; simpl in Ha; try exact Ha.
      eapply R_seq; [exact Ha | apply Hb]. }
    apply Hseq; [intros s1; apply R_depth|].
    apply Hseq; [exact Hfn|].
    apply Hseq; [intros s1; apply R_depth|].
    intros s1. case_decide; [apply R_ret|].
    apply Hseq.
    - intros s2. destruct (currentTransactionChangedEntries s2); [|apply R_ret].
      apply Hseq; [intros s3; apply R_changed|].
      intros s3. apply emit_step_by_step.
    - intros s2. cbv zeta. case_decide; [apply emit_step_by_step | apply R_ret]. }
  specialize (Hchain s).
  eapply R_seq; [exact H0 | exact Hchain].
Qed.
End Step_by_step.

(** *** No duplicates *)

Lemma splice_insert_NoDup (index : Z) (x : Entry) (l : list Entry) :
  x ∉ l -> NoDup l -> NoDup (splice_insert index x l).
Proof.
  intros Hx Hl. unfold splice_insert. cbv zeta.
  rewrite <- Permutation_middle, take_drop. apply NoDup_cons. auto.
Qed.

Lemma splice_remove_NoDup (index : Z) (l : list Entry) :
  NoDup l -> NoDup (splice_remove index l).
Proof.
  intros Hl. unfold splice_remove. cbv zeta.
  rewrite <- delete_take_drop.
  eapply sublist_NoDup; [exact Hl | apply sublist_delete].
Qed.

(** X12. The set stays free of duplicates: whatever calls are made, by the
    caller or by listeners reacting to events, however deep they nest, and
    whether they return, throw or are cut short, a set whose entries are
    distinct before has distinct entries after. *)
Theorem entries_stay_distinct (L : event -> list cmd) (fuel : nat)
    (cs : list cmd) (s : state) :
  NoDup (entries s) ->
  NoDup (getEntries (run L fuel cs s).2).
Proof.
  assert (Hseq : forall (s s1 : state) (c : completion) (s2 : state),
            keeps_distinct s Normal s1 -> keeps_distinct s1 c s2 ->
            keeps_distinct s c s2)
    by (unfold keeps_distinct; auto).
  apply (respects_run keeps_distinct L); unfold keeps_distinct; auto.
  - intros s0 e i Hinc _ Hnd.
    unfold includes, array_includes in Hinc.
    apply bool_decide_eq_false in Hinc.
    cbv beta. case_decide; simpl; apply splice_insert_NoDup; assumption.
  - intros s0 i Hnd. cbv beta zeta.
    repeat case_decide; simpl; apply splice_remove_NoDup, Hnd.
  - intros handlers Hh ev.
    apply (emit_step_by_step keeps_distinct L); unfold keeps_distinct; auto.
  - intros handlers Hh fn Hfn.
    apply (transact_step_by_step keeps_distinct L); unfold keeps_distinct; auto.
Qed.



(** *** The transaction depth *)

Lemma keeps_depth_seq (s s1 : state) (c : completion) (s2 : state) :
  keeps_depth s Normal s1 -> keeps_depth s1 c s2 -> keeps_depth s c s2.
Proof.
  unfold keeps_depth. intros [H1 H1'] [H2 H2'].
  rewrite <- (H1 eq_refl). split; [intros Hc; rewrite (H2 Hc)|]; lia.
Qed.

Lemma keeps_depth_same (s s' : state) :
  transactionDepth s' = transactionDepth s -> keeps_depth s Normal s'.
Proof. unfold keeps_depth. intros ->. split; [reflexivity | lia]. Qed.

Lemma keeps_depth_emit (L : event -> list cmd) (handlers : list cmd -> action) :
  (forall cs, respects keeps_depth (handlers cs)) ->
  forall ev, respects keeps_depth (emit L handlers ev).
Proof.
  intros Hh ev.
  apply (emit_step_by_step keeps_depth L);
    first [ exact keeps_depth_seq | exact Hh
          | intros; apply keeps_depth_same; reflexivity ].
Qed.

Lemma keeps_depth_transact (L : event -> list cmd)
    (handlers : list cmd -> action) :
  (forall cs, respects keeps_depth (handlers cs)) ->
  forall fn : action,
    respects keeps_depth fn -> respects keeps_depth (transact L handlers fn).
Proof.
  intros Hh fn Hfn s0. unfold transact. cbv zeta.
  assert (H0 : transactionDepth (if emitting s0 then log Warn s0 else s0) =
               transactionDepth s0)
    by (destruct (emitting s0); reflexivity).
  generalize dependent (if emitting s0 then log Warn s0 else s0).
  intros s H0.
  generalize (getSelectedEntry s). intros prev.
  rewrite (seq_normal _ _ s (set_transactionDepth (transactionDepth s + 1) s))
    by reflexivity.
  pose proof (Hfn (set_transactionDepth (transactionDepth s + 1) s)) as Hbody.
  destruct (fn _) as [c s1] eqn:Hfn_eq. destruct Hbody as [Heq Hle].
  cbn [fst snd] in Heq, Hle. simpl in Hle.
  destruct (decide (c = Normal)) as [-> | Hc].
  2:{ rewrite (seq_stops _ _ _ _ _ Hfn_eq Hc).
      split; [intros; contradiction | cbn [snd]; lia]. }
  rewrite (seq_normal _ _ _ _ Hfn_eq).
  specialize (Heq eq_refl). simpl in Heq.
  rewrite (seq_normal _ _ s1 (set_transactionDepth (transactionDepth s1 - 1) s1))
    by reflexivity.
  assert (H2 : transactionDepth
                 (set_transactionDepth (transactionDepth s1 - 1) s1) =
               transactionDepth s0)
    by (simpl; lia).
  generalize dependent (set_transactionDepth (transactionDepth s1 - 1) s1).
  intros s2 H2.
  assert (Hrest : respects keeps_depth
    (fun s =>
       if decide (transactionDepth s <> 0) then ret s
       else
         seq (fun s =>
                if currentTransactionChangedEntries s
                then seq (modify (set_changed false))
                       (fun s => emit L handlers
                                   (did_change_entries (getEntries s)) s) s
                else ret s)
             (fun s =>
                let selectedEntry := getSelectedEntry s in
                if decide (selectedEntry <> prev)
                then emit L handlers
                       (did_change_selected_entry selectedEntry) s
                else ret s) s)).
  { assert (Hseq : forall a b : action, respects keeps_depth a ->
              respects keeps_depth b -> respects keeps_depth (seq a b)).
    { intros a b Ha Hb s3. unfold seq. specialize (Ha s3).
      destruct (a s3) as [[|e|] s4]; simpl in Ha; try exact Ha.
      eapply keeps_depth_seq; [exact Ha | apply Hb]. }
    intros s3. case_decide; [apply keeps_depth_same; reflexivity|].
    apply Hseq.
    - intros s4. destruct (currentTransactionChangedEntries s4);
        [|apply keeps_depth_same; reflexivity].
      apply Hseq; [intros s5; apply keeps_depth_same; reflexivity|].
      intros s5. apply keeps_depth_emit, Hh.
    - intros s4. cbv zeta.
      case_decide; [apply keeps_depth_emit, Hh
                   | apply keeps_depth_same; reflexivity]. }
  specialize (Hrest s2). destruct Hrest as [Ha Hb].
  split.
  - intros Hc. etransitivity; [exact (Ha Hc) | exact H2].
  - rewrite <- H2. exact Hb.
Qed.

(** X14. Transactions are balanced on normal return only.  Whatever calls
    are made, by the caller or by listeners, [transactionDepth] is back to
    its former value when they return normally, and is never lower than
    before when they throw or are cut short. *)
Theorem depth_is_restored (L : event -> list cmd) (fuel : nat)
    (cs : list cmd) (s : state) :
  ((run L fuel cs s).1 = Normal ->
   transactionDepth (run L fuel cs s).2 = transactionDepth s) /\
  transactionDepth s <= transactionDepth (run L fuel cs s).2.
Proof.
  apply (respects_run keeps_depth L);
    first [ exact keeps_depth_seq
          | exact (keeps_depth_emit L)
          | exact (keeps_depth_transact L)
          | intros; apply keeps_depth_same; reflexivity
          | intros; apply keeps_depth_same; cbv beta zeta;
            repeat case_decide; reflexivity
          | intros; split; [discriminate | lia] ].
Qed.


(** *** The selected index *)

Lemma splice_remove_length_exact (index : Z) (l : list Entry) :
  length (splice_remove index l) =
  if decide (l = [] \/ Z.of_nat (length l) <= index) then length l
  else pred (length l).
Proof.
  unfold splice_remove, spliceStart. cbv zeta.
  rewrite length_app, length_take, length_drop.
  destruct (decide (l = [] \/ Z.of_nat (length l) <= index)) as [Hout | Hin].
  - destruct Hout as [-> | Hout]; [simpl|]; case_decide; lia.
  - assert (Hne : l <> []) by (intros ->; apply Hin; left; reflexivity).
    assert (Hlt : index < Z.of_nat (length l))
      by (apply Znot_ge_lt; intros Hge; apply Hin; right; lia).
    destruct l as [|y l]; [congruence|]. simpl length in *.
    case_decide; lia.
Qed.

(** X15. The selected index never points past the end.  Whatever calls
    are made, by the caller or by listeners, however deep they nest and
    however they end, a set whose selected index lies between -1 and its
    last position keeps it there. *)
Theorem selectedIndex_stays_in_bounds (L : event -> list cmd) (fuel : nat)
    (cs : list cmd) (s : state) :
  -1 <= selectedIndex s < getSize s ->
  -1 <= getSelectedIndex (run L fuel cs s).2 < getSize (run L fuel cs s).2.
Proof.
  apply (respects_run keeps_in_bounds L); unfold keeps_in_bounds; auto.
  - intros s0 i Hi _. simpl. unfold getSize in *. simpl. lia.
  - intros s0 e i _ _ Hb. cbv beta. unfold getSize in *.
    case_decide; simpl; rewrite splice_insert_length; lia.
  - intros s0 i Hb. cbv beta zeta. unfold getSize in *. simpl.
    pose proof (splice_remove_length_exact i (entries s0)) as Hlen.
    assert (Hcases :
      (length (splice_remove i (entries s0)) = length (entries s0) /\
       (length (entries s0) = O \/ Z.of_nat (length (entries s0)) <= i)) \/
      (S (length (splice_remove i (entries s0))) = length (entries s0))).
    { destruct (decide (entries s0 = [] \/
                        Z.of_nat (length (entries s0)) <= i)) as [Hout | Hin].
      - left. split; [exact Hlen|].
        destruct Hout as [Hout | Hout]; [left; rewrite Hout; reflexivity|].
        right. exact Hout.
      - right. destruct (entries s0) as [|y l]; [|simpl in *; lia].
        exfalso. apply Hin. left. reflexivity. }
    clear Hlen.
    generalize dependent (splice_remove i (entries s0)). intros l' Hcases.
    destruct (decide (Z.of_nat (length l') = 0)); [simpl; lia|].
    destruct (decide (i < selectedIndex s0)); simpl; lia.
  - intros handlers Hh ev.
    apply (emit_step_by_step keeps_in_bounds L); unfold keeps_in_bounds; auto.
  - intros handlers Hh fn Hfn.
    apply (transact_step_by_step keeps_in_bounds L);
      unfold keeps_in_bounds; auto.
Qed.


(** *** What observers have been told *)

Section Observers_informed.
Variable handlers : list cmd -> action.
Hypothesis handlers_nil : forall s, handlers [] s = (Normal, s).

Lemma tracks_ret : tracks ret.
Proof. intros s _. right. split; reflexivity. Qed.

Lemma tracks_throw (e : error) : tracks (throw e).
Proof. intros s _. right. split; reflexivity. Qed.

Lemma tracks_modify (f : state -> state) :
  (forall s, entries (f s) = entries s) ->
  (forall s, currentTransactionChangedEntries (f s) =
             currentTransactionChangedEntries s) ->
  tracks (modify f).
Proof. intros He Hc s _. right. simpl. auto. Qed.

Lemma tracks_seq (a b : action) :
  defers a -> tracks a -> tracks b -> tracks (seq a b).
Proof.
  intros Hda Ha Hb s Hs. specialize (Ha s Hs). unfold seq.
  destruct (Hda s Hs) as (st & s1 & t1 & Heq & Hf & Ht & Hq & Hd & Hd' & He).
  rewrite Heq in *. cbn [snd] in Ha.
  destruct st as [|e|]; [|exact Ha|congruence].
  specialize (Hb s1 Hd').
  destruct Hb as [Hb | [Hb1 Hb2]]; [left; exact Hb|].
  destruct Ha as [Ha | [Ha1 Ha2]].
  - left. congruence.
  - right. split; congruence.
Qed.

Lemma tracks_emit (ev : event) : tracks (emit silent handlers ev).
Proof.
  intros s _. rewrite (emit_silent _ handlers_nil). right.
  unfold deliver. destruct (emitterDisposed s); split; reflexivity.
Qed.

Lemma tracks_transact (fn : action) :
  defers fn -> tracks fn -> tracks (transact silent handlers fn).
Proof.
  intros Hd Hfn s Hs. rewrite (transact_silent _ handlers_nil).
  assert (Hent : 1 <= transactionDepth (enter s))
    by (unfold enter; destruct (emitting s); simpl; lia).
  assert (Hdepth : transactionDepth (enter s) = transactionDepth s + 1)
    by (unfold enter; destruct (emitting s); reflexivity).
  assert (He : entries (enter s) = entries s)
    by (unfold enter; destruct (emitting s); reflexivity).
  assert (Hc : currentTransactionChangedEntries (enter s) =
               currentTransactionChangedEntries s)
    by (unfold enter; destruct (emitting s); reflexivity).
  specialize (Hfn _ Hent). rewrite He, Hc in Hfn.
  destruct (Hd _ Hent) as (st & s1 & t1 & Heq & Hf & Ht & Hq & Hd1 & Hd' & Hdis).
  rewrite Heq in *. cbn [snd] in Hfn.
  destruct st as [|e|]; [|exact Hfn|congruence].
  rewrite commit_nested by (rewrite Hd1 by reflexivity; lia).
  exact Hfn.
Qed.

Lemma tracks_if_dec (P : state -> Prop) `{!forall s, Decision (P s)}
    (a b : action) :
  tracks a -> tracks b -> tracks (fun s => if decide (P s) then a s else b s).
Proof. intros Ha Hb s Hs. case_decide; auto. Qed.

Lemma tracks_if_bool (c : state -> bool) (a b : action) :
  tracks a -> tracks b -> tracks (fun s => if c s then a s else b s).
Proof. intros Ha Hb s Hs. destruct (c s); auto. Qed.

(** The three callbacks. *)
Lemma tracks_addAt_body (entry : Entry) (index : Z) :
  tracks (addAt_body silent handlers entry index).
Proof.
  intros s _. unfold addAt_body.
  destruct (includes entry s); [right; split; reflexivity|].
  case_decide; [|right; split; reflexivity].
  left. unfold didAddEntry. pure_steps.
  rewrite (emit_silent _ handlers_nil). unfold deliver. cbn [snd].
  destruct (emitterDisposed _); reflexivity.
Qed.

Lemma tracks_removeAt_body (index : Z) :
  tracks (removeAt_body silent handlers index).
Proof.
  intros s _. unfold removeAt_body. cbv zeta.
  left. unfold didRemoveEntry. pure_steps.
  rewrite (emit_silent _ handlers_nil). unfold deliver. cbn [snd].
  destruct (emitterDisposed _); reflexivity.
Qed.

Lemma tracks_selectAt_body (index : Z) : tracks (selectAt_body index).
Proof.
  intros s _. unfold selectAt_body. right.
  repeat case_decide; split; reflexivity.
Qed.

Lemma tracks_block (body : list cmd) :
  Forall (fun c => mutation c = true -> tracks (exec silent handlers c)) body ->
  forallb mutation body = true ->
  tracks (exec_list silent handlers body).
Proof.
  induction 1 as [|c cs Hc _ IH]; simpl; intros Hm.
  - apply tracks_ret.
  - apply andb_prop in Hm as [Hm1 Hm2].
    apply tracks_seq; auto. apply (defers_exec _ handlers_nil), Hm1.
Qed.

Lemma tracks_exec (c : cmd) :
  mutation c = true -> tracks (exec silent handlers c).
Proof.
  induction c as [c IH] using cmd_nested_ind.
  destruct c; simpl mutation; intros Hm; try discriminate Hm;
    [simpl exec .. | rewrite exec_transact].
  - intros s Hs. unfold add.
    apply (tracks_transact _ (defers_addAt_body _ handlers_nil _ _) (tracks_addAt_body _ _)), Hs.
  - apply (tracks_transact _ (defers_addAt_body _ handlers_nil _ _) (tracks_addAt_body _ _)).
  - intros s Hs. unfold remove. cbv zeta.
    case_decide; [apply tracks_ret, Hs|].
    apply (tracks_transact _ (defers_removeAt_body _ handlers_nil _) (tracks_removeAt_body _)), Hs.
  - apply (tracks_transact _ (defers_removeAt_body _ handlers_nil _) (tracks_removeAt_body _)).
  - intros s Hs. unfold selectNext. cbv zeta.
    case_decide; [apply tracks_ret, Hs|].
    apply (tracks_transact _ (defers_selectAt_body _) (tracks_selectAt_body _)), Hs.
  - intros s Hs. unfold selectPrevious. cbv zeta.
    case_decide; [apply tracks_ret, Hs|].
    apply (tracks_transact _ (defers_selectAt_body _) (tracks_selectAt_body _)), Hs.
  - intros s Hs. unfold select. cbv zeta.
    case_decide; [apply tracks_throw, Hs|].
    apply (tracks_transact _ (defers_selectAt_body _) (tracks_selectAt_body _)), Hs.
  - apply (tracks_transact _ (defers_selectAt_body _) (tracks_selectAt_body _)).
  - apply tracks_transact.
    + apply defers_block; [|exact Hm].
      apply Forall_forall. intros c _. apply defers_exec, handlers_nil.
    + apply tracks_block; assumption.
Qed.

Lemma tracks_exec_list (body : list cmd) :
  forallb mutation body = true -> tracks (exec_list silent handlers body).
Proof.
  intros Hm. apply tracks_block; [|exact Hm].
  apply Forall_forall. intros c _. apply tracks_exec.
Qed.

(** Events other than the batched ones carry nothing for the two
    observers. *)
Lemma entries_payloads_other (t : list effect) :
  Forall (fun ef => is_bulk ef = false) t -> entries_payloads t = [].
Proof.
  induction 1 as [|ef t Hef _ IH]; [reflexivity|].
  destruct ef as [[]| |]; try discriminate Hef; exact IH.
Qed.

Lemma selected_payloads_other (t : list effect) :
  Forall (fun ef => is_bulk ef = false) t -> selected_payloads t = [].
Proof.
  induction 1 as [|ef t Hef _ IH]; [reflexivity|].
  destruct ef as [[]| |]; try discriminate Hef; exact IH.
Qed.

Lemma last_cons_app {A : Type} (x y z : A) (l1 l2 : list A) :
  last (x :: l1) = Some y -> last (y :: l2) = Some z ->
  last (x :: l1 ++ l2) = Some z.
Proof.
  intros H1 H2. destruct l2 as [|w l2] using rev_ind.
  - rewrite app_nil_r. simpl in H2. congruence.
  - clear IHl2. rewrite app_comm_cons, last_snoc in H2.
    rewrite app_assoc, app_comm_cons, last_snoc. exact H2.
Qed.

Lemma informed_refl (s : state) :
  transactionDepth s = 0 -> emitterDisposed s = false ->
  currentTransactionChangedEntries s = false ->
  keeps_observers_informed s s.
Proof.
  intros Hd He Hc. repeat split; auto.
  exists []. rewrite app_nil_r. repeat split; reflexivity.
Qed.

Lemma informed_trans (s s1 s2 : state) :
  keeps_observers_informed s s1 -> keeps_observers_informed s1 s2 ->
  keeps_observers_informed s s2.
Proof.
  intros (_ & _ & _ & t1 & Ht1 & He1 & Hs1) (Hd & He & Hc & t2 & Ht2 & He2 & Hs2).
  repeat split; auto.
  exists (t1 ++ t2). rewrite Ht2, Ht1, <- app_assoc.
  split; [reflexivity|].
  unfold observeEntries, observeSelectedEntry, entries_payloads,
    selected_payloads in *.
  rewrite !omap_app.
  split; eapply last_cons_app; eassumption.
Qed.

(** The outermost transaction. *)
Lemma transact_informs (fn : action) (s s' : state) :
  defers fn -> tracks fn ->
  transactionDepth s = 0 -> emitterDisposed s = false ->
  currentTransactionChangedEntries s = false ->
  transact silent handlers fn s = (Normal, s') ->
  keeps_observers_informed s s'.
Proof.
  intros Hdf Htf Hd He Hc. rewrite (transact_silent _ handlers_nil).
  assert (Hent : transactionDepth (enter s) = 1)
    by (unfold enter; destruct (emitting s); simpl; lia).
  assert (Hw : exists w, trace (enter s) = trace s ++ w /\
                 Forall (fun ef => is_bulk ef = false) w).
  { unfold enter. destruct (emitting s); simpl.
    - exists [Warn]. split; [reflexivity | repeat constructor].
    - exists []. rewrite app_nil_r. split; [reflexivity | constructor]. }
  destruct Hw as (w & Hw & Hwq).
  assert (Hee : entries (enter s) = entries s)
    by (unfold enter; destruct (emitting s); reflexivity).
  assert (Hec : currentTransactionChangedEntries (enter s) = false)
    by (unfold enter; destruct (emitting s); exact Hc).
  assert (Hed : emitterDisposed (enter s) = false)
    by (unfold enter; destruct (emitting s); exact He).
  pose proof (Htf (enter s) ltac:(lia)) as Htr.
  destruct (Hdf (enter s) ltac:(lia))
    as (st & s1 & t1 & Heq & Hf & Ht & Hq & Hd1 & Hd' & Hdis).
  rewrite Heq in *. cbn [snd] in Htr.
  destruct st as [|e|]; intros Hres; [|discriminate Hres|discriminate Hres].
  injection Hres as <-.
  specialize (Hd1 eq_refl). rewrite Hent in Hd1.
  rewrite Hee, Hec in Htr. rewrite Hed in Hdis. rewrite Hw in Ht.
  clear Heq Hent Hw Hee Hec Hed Hd'.
  destruct s1 as [l sel d ch em al dis tr]. simpl in *. subst d dis tr.
  rewrite commit_State. destruct (decide (1 - 1 <> 0)) as [Hn|_]; [lia|].
  repeat split; try reflexivity.
  eexists. split; [cbn [trace]; rewrite <- !app_assoc; reflexivity|].
  unfold observeEntries, observeSelectedEntry, entries_payloads,
    selected_payloads, getEntries, getSelectedEntry.
  cbn [entries selectedIndex].
  rewrite !omap_app.
  fold (entries_payloads w) (entries_payloads t1)
       (selected_payloads w) (selected_payloads t1).
  rewrite (entries_payloads_other w Hwq), (entries_payloads_other t1 Hq),
    (selected_payloads_other w Hwq), (selected_payloads_other t1 Hq).
  split.
  - destruct ch; simpl; case_decide; simpl; try reflexivity;
      destruct Htr as [Htr | [Htr _]]; congruence.
  - destruct ch; simpl; case_decide as Hsel; simpl; try reflexivity;
      rewrite Hsel; reflexivity.
Qed.

Lemma exec_informs (c : cmd) (s s' : state) :
  mutation c = true ->
  transactionDepth s = 0 -> emitterDisposed s = false ->
  currentTransactionChangedEntries s = false ->
  exec silent handlers c s = (Normal, s') ->
  keeps_observers_informed s s'.
Proof.
  intros Hm Hd He Hc.
  destruct c; simpl mutation in Hm; try discriminate Hm;
    [simpl exec .. | rewrite exec_transact].
  - unfold add.
    apply (transact_informs _ s s' (defers_addAt_body _ handlers_nil _ _)
             (tracks_addAt_body _ _)); assumption.
  - apply (transact_informs _ s s' (defers_addAt_body _ handlers_nil _ _)
             (tracks_addAt_body _ _)); assumption.
  - unfold remove. cbv zeta. case_decide.
    + intros [= <-]. apply informed_refl; assumption.
    + apply (transact_informs _ s s' (defers_removeAt_body _ handlers_nil _)
               (tracks_removeAt_body _)); assumption.
  - apply (transact_informs _ s s' (defers_removeAt_body _ handlers_nil _)
             (tracks_removeAt_body _)); assumption.
  - unfold selectNext. cbv zeta. case_decide.
    + intros [= <-]. apply informed_refl; assumption.
    + apply (transact_informs _ s s' (defers_selectAt_body _)
               (tracks_selectAt_body _)); assumption.
  - unfold selectPrevious. cbv zeta. case_decide.
    + intros [= <-]. apply informed_refl; assumption.
    + apply (transact_informs _ s s' (defers_selectAt_body _)
               (tracks_selectAt_body _)); assumption.
  - unfold select. cbv zeta. case_decide.
    + discriminate.
    + apply (transact_informs _ s s' (defers_selectAt_body _)
               (tracks_selectAt_body _)); assumption.
  - apply (transact_informs _ s s' (defers_selectAt_body _)
             (tracks_selectAt_body _)); assumption.
  - apply transact_informs; try assumption.
    + apply defers_exec_list; assumption.
    + apply tracks_exec_list; assumption.
Qed.

Lemma exec_list_informs (cs : list cmd) (s s' : state) :
  forallb mutation cs = true ->
  transactionDepth s = 0 -> emitterDisposed s = false ->
  currentTransactionChangedEntries s = false ->
  exec_list silent handlers cs s = (Normal, s') ->
  keeps_observers_informed s s'.
Proof.
  revert s. induction cs as [|c cs IH]; intros s Hm Hd He Hc; simpl.
  - intros [= <-]. apply informed_refl; assumption.
  - apply andb_prop in Hm as [Hm1 Hm2]. unfold seq.
    destruct (exec silent handlers c s) as [[|e|] s1] eqn:Hex;
      intros Hrest; try discriminate Hrest.
    pose proof (exec_informs c s s1 Hm1 Hd He Hc Hex) as H1.
    eapply informed_trans; [exact H1|].
    destruct H1 as (Hd1 & He1 & Hc1 & _).
    apply IH; assumption.
Qed.
End Observers_informed.

(** X16. [observeEntries] is kept up to date.  On a live set, outside any
    transaction, after any calls that add, remove or select (blocks of
    such calls included) have returned normally, the last snapshot the
    callback has been called with, at subscription or through
    did-change-entries, is what [getEntries] returns. *)
Theorem observeEntries_is_up_to_date (fuel : nat) (cs : list cmd)
    (s s' : state) :
  transactionDepth s = 0 ->
  emitterDisposed s = false ->
  currentTransactionChangedEntries s = false ->
  forallb mutation cs = true ->
  run silent fuel cs s = (Normal, s') ->
  exists later : list effect,
    trace s' = trace s ++ later /\
    last (observeEntries s later) = Some (getEntries s').
Proof.
  intros Hd He Hc Hm Hrun.
  destruct (exec_list_informs _ (handlers_at_nil silent fuel) cs s s'
              Hm Hd He Hc Hrun) as (_ & _ & _ & t & Ht & H1 & _).
  exists t. split; assumption.
Qed.

(** X17. [observeSelectedEntry] is kept up to date.  Under the same
    conditions the last value the callback has been called with, at
    subscription or through did-change-selected-entry, is what
    [getSelectedEntry] returns. *)
Theorem observeSelectedEntry_is_up_to_date (fuel : nat) (cs : list cmd)
    (s s' : state) :
  transactionDepth s = 0 ->
  emitterDisposed s = false ->
  currentTransactionChangedEntries s = false ->
  forallb mutation cs = true ->
  run silent fuel cs s = (Normal, s') ->
  exists later : list effect,
    trace s' = trace s ++ later /\
    last (observeSelectedEntry s later) = Some (getSelectedEntry s').
Proof.
  intros Hd He Hc Hm Hrun.
  destruct (exec_list_informs _ (handlers_at_nil silent fuel) cs s s'
              Hm Hd He Hc Hrun) as (_ & _ & _ & t & Ht & _ & H2).
  exists t. split; assumption.
Qed.


(** *** The disposables of [usingEachEntry] *)

Lemma usingEachEntry_from_app (held : list Entry) (t1 t2 : list effect) :
  Forall (fun ef => ef <> Emit did_destroy) t1 ->
  usingEachEntry_from held (t1 ++ t2) =
  usingEachEntry_from (usingEachEntry_from held t1) t2.
Proof.
  intros Ht1. revert held.
  induction Ht1 as [|ef t1 Hef _ IH]; intros held; [reflexivity|].
  destruct ef as [[e i|[e|] i|l|sel|]| |e]; simpl; try apply IH.
  congruence.
Qed.

Lemma usingEachEntry_from_perm (held held' : list Entry) (t : list effect) :
  held ≡ₚ held' -> usingEachEntry_from held t ≡ₚ usingEachEntry_from held' t.
Proof.
  revert held held'. induction t as [|ef t IH]; intros held held' Hp;
    [exact Hp|].
  destruct ef as [[e i|[e|] i|l|sel|]| |e]; simpl; try (apply IH; exact Hp).
  - apply IH. rewrite Hp. reflexivity.
  - apply IH. rewrite Hp. reflexivity.
  - reflexivity.
Qed.

Lemma usingEachEntry_from_other (held : list Entry) (t : list effect) :
  Forall (fun ef => match ef with
                    | Emit (did_add_entry _ _) => False
                    | Emit (did_remove_entry _ _) => False
                    | Emit did_destroy => False
                    | _ => True
                    end) t ->
  usingEachEntry_from held t = held.
Proof.
  induction 1 as [|ef t Hef _ IH]; [reflexivity|].
  destruct ef as [[e i|[e|] i|l|sel|]| |e]; simpl; tauto.
Qed.

Lemma filter_absent (l : list Entry) (x : Entry) :
  x ∉ l -> filter (fun y => y <> x) l = l.
Proof.
  induction l as [|y l IH]; intros Hx; [reflexivity|].
  apply not_elem_of_cons in Hx as [Hne Hx].
  rewrite filter_cons_True by congruence. f_equal. apply IH, Hx.
Qed.

Lemma filter_delete_NoDup (l : list Entry) (i : nat) (x : Entry) :
  NoDup l -> l !! i = Some x ->
  filter (fun y => y <> x) l = delete i l.
Proof.
  intros Hnd. revert i. induction Hnd as [|y l Hy Hnd IH]; intros i Hi;
    [discriminate Hi|].
  destruct i as [|i]; simpl in Hi.
  - injection Hi as ->. rewrite filter_cons_False by (intros H; apply H; reflexivity).
    simpl. apply filter_absent, Hy.
  - rewrite filter_cons_True.
    + simpl. f_equal. apply IH, Hi.
    + intros ->. apply Hy. eapply list_elem_of_lookup_2, Hi.
Qed.

Section Observers_using.
Variable handlers : list cmd -> action.
Hypothesis handlers_nil : forall s, handlers [] s = (Normal, s).

Lemma holds_at_same (a : action) (s : state) :
  entries (a s).2 = entries s ->
  emitterDisposed (a s).2 = emitterDisposed s ->
  trace (a s).2 = trace s ->
  holds_at a s.
Proof.
  intros He Hd Ht Hdis Hnd. rewrite He, Hd, Ht.
  repeat split; auto. exists []. rewrite app_nil_r.
  repeat split; [constructor | reflexivity].
Qed.

Lemma holds_at_seq (a b : action) (s : state) :
  holds_at a s ->
  (forall s1, a s = (Normal, s1) -> holds_at b s1) ->
  holds_at (seq a b) s.
Proof.
  intros Ha Hb Hdis Hnd. destruct (Ha Hdis Hnd) as (Hd1 & Hn1 & t1 & Ht1 & Hf1 & Hp1).
  unfold seq. destruct (a s) as [[|e|] s1] eqn:Has; cbn [snd] in *;
    try (repeat split; auto; exists t1; auto).
  destruct (Hb s1 eq_refl Hd1 Hn1) as (Hd2 & Hn2 & t2 & Ht2 & Hf2 & Hp2).
  repeat split; auto.
  exists (t1 ++ t2). rewrite Ht2, Ht1, <- app_assoc.
  repeat split; [apply Forall_app; auto|].
  rewrite usingEachEntry_from_app by exact Hf1.
  rewrite <- Hp2. apply usingEachEntry_from_perm, Hp1.
Qed.

Lemma holds_at_transact (fn : action) (s : state) :
  holds_at fn (enter s) -> holds_at (transact silent handlers fn) s.
Proof.
  intros Hfn Hdis Hnd. rewrite (transact_silent _ handlers_nil).
  assert (Hw : exists w, trace (enter s) = trace s ++ w /\
                 Forall (fun ef => ef = Warn) w).
  { unfold enter. destruct (emitting s); simpl.
    - exists [Warn]. split; [reflexivity | repeat constructor].
    - exists []. rewrite app_nil_r. split; [reflexivity | constructor]. }
  destruct Hw as (w & Hw & Hwq).
  assert (Hee : entries (enter s) = entries s)
    by (unfold enter; destruct (emitting s); reflexivity).
  assert (Hed : emitterDisposed (enter s) = false)
    by (unfold enter; destruct (emitting s); exact Hdis).
  rewrite <- Hee in Hnd.
  destruct (Hfn Hed Hnd) as (Hd1 & Hn1 & t1 & Ht1 & Hf1 & Hp1).
  rewrite Hee, Hw in *.
  assert (Hfw : Forall (fun ef => ef <> Emit did_destroy) w)
    by (eapply Forall_impl; [exact Hwq | intros ef ->; discriminate]).
  assert (Hkw : forall held, usingEachEntry_from held w = held).
  { intros held. apply usingEachEntry_from_other.
    eapply Forall_impl; [exact Hwq | intros ef ->; exact I]. }
  destruct (fn (enter s)) as [[|e|] s1]; cbn [snd] in *.
  2,3: repeat split; auto; exists (w ++ t1); rewrite Ht1, <- app_assoc;
       repeat split; [apply Forall_app; auto|];
       rewrite usingEachEntry_from_app, Hkw by exact Hfw; exact Hp1.
  rewrite commit_entries, commit_emitterDisposed.
  repeat split; auto.
  destruct (commit_trace (getSelectedEntry s) s1)
    as (te & ts & Htr & Hte & Hts & _).
  exists (w ++ t1 ++ te ++ ts). rewrite Htr, Ht1, <- !app_assoc.
  split; [reflexivity|].
  assert (Hfe : Forall (fun ef => ef <> Emit did_destroy) (te ++ ts)).
  { apply Forall_app. split.
    - destruct Hte as [-> | ->]; repeat constructor; discriminate.
    - destruct Hts as [-> | ->]; repeat constructor; discriminate. }
  split; [apply Forall_app; split; [exact Hfw|];
          apply Forall_app; split; [exact Hf1 | exact Hfe]|].
  rewrite usingEachEntry_from_app, Hkw by exact Hfw.
  rewrite usingEachEntry_from_app by exact Hf1.
  rewrite usingEachEntry_from_other; [exact Hp1|].
  apply Forall_app. split.
  - destruct Hte as [-> | ->]; repeat constructor.
  - destruct Hts as [-> | ->]; repeat constructor.
Qed.

Lemma holds_at_addAt_body (entry : Entry) (index : Z) (s : state) :
  holds_at (addAt_body silent handlers entry index) s.
Proof.
  destruct (includes entry s) eqn:Hinc.
  { apply holds_at_same; unfold addAt_body; rewrite Hinc; reflexivity. }
  destruct (decide (index <= getSize s)) as [Hle | Hgt].
  2:{ apply holds_at_same; unfold addAt_body; rewrite Hinc;
      (destruct (decide (index <= getSize s)); [contradiction | reflexivity]). }
  intros Hdis Hnd. unfold addAt_body. rewrite Hinc.
  destruct (decide (index <= getSize s)) as [_ | Hgt]; [|contradiction].
  unfold didAddEntry. pure_steps.
  rewrite (emit_silent _ handlers_nil). cbn [snd].
  match goal with |- context [deliver ?ev ?st] => set (X := st) end.
  assert (HX : entries X = splice_insert index entry (entries s) /\
               emitterDisposed X = false /\ trace X = trace s)
    by (subst X; case_decide; repeat split; assumption).
  destruct HX as (HXe & HXd & HXt). clearbody X.
  unfold deliver. rewrite HXd. simpl. rewrite HXe, HXt.
  assert (Hx : entry ∉ entries s).
  { unfold includes, array_includes in Hinc.
    apply bool_decide_eq_false in Hinc. exact Hinc. }
  split; [exact HXd|].
  split; [apply splice_insert_NoDup; assumption|].
  exists [Emit (did_add_entry entry index)].
  split; [reflexivity|].
  split; [repeat constructor; discriminate|].
  simpl. unfold splice_insert. cbv zeta.
  set (n := Z.to_nat _).
  rewrite <- Permutation_cons_append.
  rewrite <- (take_drop n (entries s)) at 1. apply Permutation_middle.
Qed.

Lemma holds_at_removeAt_body (index : Z) (s : state) :
  0 <= index < getSize s ->
  holds_at (removeAt_body silent handlers index) s.
Proof.
  intros Hr Hdis Hnd. unfold removeAt_body, didRemoveEntry. cbv zeta.
  pure_steps.
  rewrite (emit_silent _ handlers_nil). cbn [snd].
  unfold getSize in Hr.
  destruct (lookup_lt_is_Some_2 (entries s) (Z.to_nat index) ltac:(lia))
    as [x Hx].
  rewrite at_index_in_range, Hx by lia.
  match goal with |- context [deliver ?ev ?st] => set (X := st) end.
  assert (HX : entries X = splice_remove index (entries s) /\
               emitterDisposed X = false /\ trace X = trace s)
    by (subst X; repeat case_decide; repeat split; assumption).
  destruct HX as (HXe & HXd & HXt). clearbody X.
  unfold deliver. rewrite HXd. simpl. rewrite HXe, HXt.
  rewrite splice_remove_in_range by lia.
  split; [exact HXd|].
  split; [eapply sublist_NoDup; [exact Hnd | apply sublist_delete]|].
  exists [Emit (did_remove_entry (Some x) index)].
  split; [reflexivity|].
  split; [repeat constructor; discriminate|].
  simpl. rewrite (filter_delete_NoDup _ _ _ Hnd Hx). reflexivity.
Qed.

Lemma holds_at_selectAt_body (index : Z) (s : state) :
  holds_at (selectAt_body index) s.
Proof.
  apply holds_at_same; unfold selectAt_body; repeat case_decide; reflexivity.
Qed.

Lemma holds_at_ret (s : state) : holds_at ret s.
Proof. apply holds_at_same; reflexivity. Qed.

Lemma holds_at_throw (e : error) (s : state) : holds_at (throw e) s.
Proof. apply holds_at_same; reflexivity. Qed.

Lemma enter_getSize (s : state) : getSize (enter s) = getSize s.
Proof. unfold getSize. rewrite enter_entries. reflexivity. Qed.

Lemma holds_at_remove (entry : Entry) (s : state) :
  holds_at (remove silent handlers entry) s.
Proof.
  unfold remove. cbv zeta.
  destruct (decide (entry ∈ entries s)) as [Hin | Hout].
  - destruct (indexOf_from_present entry (entries s) 0 Hin)
      as (n & Hi & Hn & _).
    unfold holds_at, indexOf. rewrite Hi.
    case_decide as Hm; [lia|].
    apply holds_at_transact, holds_at_removeAt_body.
    rewrite enter_getSize. unfold getSize.
    apply lookup_lt_Some in Hn. lia.
  - unfold holds_at, indexOf. rewrite (indexOf_from_absent _ _ _ Hout).
    case_decide as Hm; [|contradiction]. apply holds_at_ret.
Qed.

Lemma holds_at_block (body : list cmd) :
  Forall (fun c => by_entry c = true ->
                   forall s, holds_at (exec silent handlers c) s) body ->
  forallb by_entry body = true ->
  forall s, holds_at (exec_list silent handlers body) s.
Proof.
  induction 1 as [|c cs Hc _ IH]; simpl; intros Hm s.
  - apply holds_at_ret.
  - apply andb_prop in Hm as [Hm1 Hm2].
    apply holds_at_seq; [apply Hc, Hm1 | intros s1 _; apply IH, Hm2].
Qed.

Lemma holds_at_exec (c : cmd) :
  by_entry c = true -> forall s, holds_at (exec silent handlers c) s.
Proof.
  induction c as [c IH] using cmd_nested_ind.
  destruct c; simpl by_entry; intros Hm s; try discriminate Hm;
    [simpl exec .. | rewrite exec_transact].
  - unfold holds_at, add. apply holds_at_transact, holds_at_addAt_body.
  - apply holds_at_transact, holds_at_addAt_body.
  - apply holds_at_remove.
  - unfold holds_at, selectNext. cbv zeta.
    case_decide; [apply holds_at_ret|].
    apply holds_at_transact, holds_at_selectAt_body.
  - unfold holds_at, selectPrevious. cbv zeta.
    case_decide; [apply holds_at_ret|].
    apply holds_at_transact, holds_at_selectAt_body.
  - unfold holds_at, select. cbv zeta.
    case_decide; [apply holds_at_throw|].
    apply holds_at_transact, holds_at_selectAt_body.
  - apply holds_at_transact, holds_at_selectAt_body.
  - apply holds_at_transact, holds_at_block; assumption.
Qed.
End Observers_using.

(** X18. [usingEachEntry] holds one disposable per entry.  On a live set
    of distinct entries, whatever calls to [add], [addAt], [remove],
    [select], [selectAt], [selectNext] and [selectPrevious] are made,
    alone or in transactions, and whether they return or throw, the
    entries whose disposable is still held are the entries of the set. *)
Theorem usingEachEntry_follows_entries (fuel : nat) (cs : list cmd)
    (s : state) :
  emitterDisposed s = false ->
  NoDup (entries s) ->
  forallb by_entry cs = true ->
  exists later : list effect,
    trace (run silent fuel cs s).2 = trace s ++ later /\
    usingEachEntry s later ≡ₚ getEntries (run silent fuel cs s).2.
Proof.
  intros Hdis Hnd Hm.
  assert (H : holds_at (run silent fuel cs) s).
  { unfold run. apply holds_at_block; [|exact Hm].
    apply Forall_forall. intros c _.
    apply (holds_at_exec _ (handlers_at_nil silent fuel)). }
  destruct (H Hdis Hnd) as (_ & _ & t & Ht & _ & Hp).
  exists t. split; assumption.
Qed.


End Properties.


(** ** The properties on concrete sets *)

Lemma transact_defers_bulk_events_witness :
  transactionDepth (fresh ["a"; "b"; "c"] 0) = 0 /\
  emitterDisposed (fresh ["a"; "b"; "c"] 0) = false /\
  forallb mutation test_body = true /\
  run plain silent 0 [Call_transact test_body] (fresh ["a"; "b"; "c"] 0) =
    (Normal, after_test_body) /\
  Normal <> OutOfFuel /\
  exists (sb : state) (t_body t_entries t_selected : list effect),
    exec_list plain silent (handlers_at plain silent 0) test_body
      (enter (fresh ["a"; "b"; "c"] 0)) = (Normal, sb) /\
    trace sb = trace (fresh ["a"; "b"; "c"] 0) ++ t_body /\
    Forall (fun ef => is_bulk ef = false) t_body /\
    getEntries after_test_body = getEntries sb /\
    getSelectedEntry after_test_body = getSelectedEntry sb /\
    trace after_test_body =
      trace (fresh ["a"; "b"; "c"] 0) ++ t_body ++ t_entries ++ t_selected /\
    (t_entries = [] \/
     t_entries = [Emit (did_change_entries (getEntries after_test_body))]) /\
    (t_selected = [] \/
     t_selected =
       [Emit (did_change_selected_entry (getSelectedEntry after_test_body))]) /\
    (Normal = Normal ->
     (t_selected <> [] <->
      getSelectedEntry after_test_body <>
      getSelectedEntry (fresh ["a"; "b"; "c"] 0))).
Proof.
  split; [reflexivity|]. split; [reflexivity|]. split; [reflexivity|].
  split; [reflexivity|].
  apply (transact_defers_bulk_events plain 0 test_body
           (fresh ["a"; "b"; "c"] 0) after_test_body Normal);
    reflexivity.
Defined.

Lemma removeAt_rebalances_selection_witness :
  0 <= 1 < getSize (fresh ["a"; "b"; "c"] 1) /\
  emitterDisposed (fresh ["a"; "b"; "c"] 1) = false /\
  exists (s' : state) (bulk : list effect),
    run plain silent 0 [Call_removeAt 1] (fresh ["a"; "b"; "c"] 1) = (Normal, s') /\
    entries s' = delete (Z.to_nat 1) (entries (fresh ["a"; "b"; "c"] 1)) /\
    selectedIndex s' =
      (if decide (getSize s' = 0) then -1
       else if decide (1 < selectedIndex (fresh ["a"; "b"; "c"] 1))
            then Z.max 0 (selectedIndex (fresh ["a"; "b"; "c"] 1) - 1)
            else Z.min (selectedIndex (fresh ["a"; "b"; "c"] 1)) (getSize s' - 1)) /\
    trace s' =
      trace (fresh ["a"; "b"; "c"] 1) ++
      (if emitting (fresh ["a"; "b"; "c"] 1) then [Warn] else []) ++
      Emit (did_remove_entry
              (entries (fresh ["a"; "b"; "c"] 1) !! Z.to_nat 1) 1) :: bulk /\
    Forall (fun ef => is_bulk ef = true) bulk /\
    (1 < selectedIndex (fresh ["a"; "b"; "c"] 1) ->
     getSelectedEntry s' = getSelectedEntry (fresh ["a"; "b"; "c"] 1)) /\
    (1 = selectedIndex (fresh ["a"; "b"; "c"] 1) ->
     getSelectedEntry s' =
       if decide (1 + 1 < getSize (fresh ["a"; "b"; "c"] 1))
       then entries (fresh ["a"; "b"; "c"] 1) !! Z.to_nat (1 + 1)
       else last (entries s')).
Proof.
  split; [unfold getSize; simpl; lia|]. split; [reflexivity|].
  apply (removeAt_rebalances_selection plain 0 1 (fresh ["a"; "b"; "c"] 1)).
  - unfold getSize. simpl. lia.
  - reflexivity.
Defined.


Lemma destroy_emits_once_witness :
  transactionDepth (fresh ["a"; "b"] 0) = 0 /\
  currentTransactionChangedEntries (fresh ["a"; "b"] 0) = false /\
  emitting (fresh ["a"; "b"] 0) = false /\
  emitterDisposed (fresh ["a"; "b"] 0) = false /\
  (entries (fresh ["a"; "b"] 0) = [] \/
   0 <= selectedIndex (fresh ["a"; "b"] 0) < getSize (fresh ["a"; "b"] 0)) /\
  exists (s' : state) (t : list effect),
    run destructible silent 0 [Call_destroy] (fresh ["a"; "b"] 0) = (Normal, s') /\
    trace s' = trace (fresh ["a"; "b"] 0) ++ t /\
    t = destroy_trace destructible (entries (fresh ["a"; "b"] 0)) ++
        match entries (fresh ["a"; "b"] 0) with
        | [] => []
        | _ :: _ => [Emit (did_change_entries []);
                     Emit (did_change_selected_entry None)]
        end ++ [Emit did_destroy] /\
    count is_did_remove_entry t = length (entries (fresh ["a"; "b"] 0)) /\
    count is_did_change_entries t =
      match entries (fresh ["a"; "b"] 0) with [] => O | _ :: _ => 1%nat end /\
    count is_did_change_selected_entry t =
      match entries (fresh ["a"; "b"] 0) with [] => O | _ :: _ => 1%nat end /\
    count is_did_destroy t = 1%nat /\
    getEntries s' = [] /\
    isAlive s' = JBool false /\
    isDestroyed s' = true.
Proof.
  assert (Hsel : entries (fresh ["a"; "b"] 0) = [] \/
                 0 <= selectedIndex (fresh ["a"; "b"] 0)
                   < getSize (fresh ["a"; "b"] 0))
    by (right; unfold getSize; simpl; lia).
  repeat (split; [first [reflexivity | exact Hsel]|]).
  apply (destroy_emits_once destructible 0 (fresh ["a"; "b"] 0));
    first [reflexivity | exact Hsel].
Defined.

(** C6 as stated fails on the empty set: [destroy] emits did-destroy and
    nothing else, so there is no did-change-entries and no
    did-change-selected-entry to count. *)
Lemma destroy_of_empty_set_counterexample :
  ~ (exists s' : state,
       run plain silent 0 [Call_destroy] (fresh [] (-1)) = (Normal, s') /\
       count is_did_remove_entry (trace s') = O /\
       count is_did_change_entries (trace s') = 1%nat /\
       count is_did_change_selected_entry (trace s') = 1%nat /\
       count is_did_destroy (trace s') = 1%nat).
Proof.
  intros (s' & Hrun & _ & Hentries & _).
  vm_compute in Hrun. injection Hrun as <-.
  vm_compute in Hentries. discriminate Hentries.
Qed.

Lemma fresh_set_reports_destroyed_witness :
  constructor None None = inr (fresh [] (-1)) /\
  isAlive (fresh [] (-1)) = JUndefined /\
  isDestroyed (fresh [] (-1)) = true.
Proof.
  split; [reflexivity|].
  apply (fresh_set_reports_destroyed None None (fresh [] (-1))).
  reflexivity.
Defined.

Lemma constructor_accepts_index_below_minus_one_witness :
  -2 < -1 /\
  exists s : state,
    constructor (Some ["a"]) (Some (-2)) = inr s /\
    getEntries s = default [] (Some ["a"]) /\
    getSelectedIndex s = -2 /\
    getSelectedEntry s = None.
Proof.
  split; [lia|].
  apply (constructor_accepts_index_below_minus_one (Some ["a"]) (-2)). lia.
Defined.

(** C4, on concrete sets.  None of these calls throws: [addAt] with index
    -1 inserts before the last entry (and moves the selection to the new
    entry); [removeAt] past the end removes nothing and still announces a
    removal, of no entry; [removeAt] with index -1 removes the last entry
    and announces the removal of no entry at index -1. *)
Theorem out_of_range_index_accepted :
  run plain silent 0 [Call_addAt "x" (-1)] (fresh ["a"; "b"] 0) =
    (Normal,
     State ["a"; "x"; "b"] 1 0 false false JUndefined false
       [Emit (did_add_entry "x" (-1));
        Emit (did_change_entries ["a"; "x"; "b"]);
        Emit (did_change_selected_entry (Some "x"))]) /\
  run plain silent 0 [Call_removeAt 5] (fresh ["a"] 0) =
    (Normal,
     State ["a"] 0 0 false false JUndefined false
       [Emit (did_remove_entry None 5); Emit (did_change_entries ["a"])]) /\
  run plain silent 0 [Call_removeAt (-1)] (fresh ["a"; "b"; "c"] 0) =
    (Normal,
     State ["a"; "b"] 0 0 false false JUndefined false
       [Emit (did_remove_entry None (-1));
        Emit (did_change_entries ["a"; "b"])]).
Proof. repeat split; vm_compute; reflexivity. Qed.

(** C5, on a concrete set.  [addAt] of an entry already present throws, but
    the transaction it opened stays open: [transactionDepth] is 1 after the
    call, not 0 as before it.  The next call, a successful [add] from the
    top level, therefore finishes at depth 1 and emits did-add-entry only:
    no did-change-entries follows.  The same happens after [selectAt] with
    an index outside the set. *)
Theorem failed_call_leaves_transaction_open :
  transactionDepth (fresh ["a"] 0) = 0 /\
  run plain silent 0 [Call_addAt "a" 0] (fresh ["a"] 0) =
    (Throw AssertionError,
     State ["a"] 0 1 false false JUndefined false []) /\
  run plain silent 0 [Call_add "b"]
    (State ["a"] 0 1 false false JUndefined false []) =
    (Normal,
     State ["a"; "b"] 0 1 true false JUndefined false
       [Emit (did_add_entry "b" 1)]) /\
  run plain silent 0 [Call_selectAt 7] (fresh ["a"] 0) =
    (Throw (Error "Invalid selection index"),
     State ["a"] 0 1 false false JUndefined false []).
Proof. repeat split; vm_compute; reflexivity. Qed.

(** C9, on the listener [adds_two].  Adding [a] to the empty set dispatches
    did-add-entry to the listener, which adds [b] and then [c] while that
    dispatch is still running.  The first of these calls is warned about.
    The dispatch of its own did-add-entry lowers the [emitting] flag, so
    the second call, made from the same listener invocation, proceeds
    without any warning: one warning for two reentrant mutations. *)
Theorem second_reentrant_mutation_not_warned :
  run plain adds_two 1 [Call_add "a"] (fresh [] (-1)) =
    (Normal,
     State ["a"; "b"; "c"] (-1) 0 false false JUndefined false
       [Emit (did_add_entry "a" 0);
        Warn;
        Emit (did_add_entry "b" 1);
        Emit (did_add_entry "c" 2);
        Emit (did_change_entries ["a"; "b"; "c"])]) /\
  count is_warning
    (trace (snd (run plain adds_two 1 [Call_add "a"] (fresh [] (-1))))) = 1%nat.
Proof. split; vm_compute; reflexivity. Qed.

(** C10, on the set reached by adding one entry to an empty set.  That set
    holds exactly one entry and its selected index is -1.  [selectNext] and
    [selectPrevious]
    both compute index 0, which differs from -1: the selected index moves
    to 0 and did-change-selected-entry is emitted. *)
Theorem select_neighbour_after_first_add :
  constructor None None = inr (fresh [] (-1)) /\
  run plain silent 0 [Call_add "a"] (fresh [] (-1)) = (Normal, after_first_add) /\
  getSize after_first_add = 1 /\
  getSelectedIndex after_first_add = -1 /\
  run plain silent 0 [Call_selectNext] after_first_add =
    (Normal,
     State ["a"] 0 0 false false JUndefined false
       (trace after_first_add ++ [Emit (did_change_selected_entry (Some "a"))])) /\
  run plain silent 0 [Call_selectPrevious] after_first_add =
    (Normal,
     State ["a"] 0 0 false false JUndefined false
       (trace after_first_add ++ [Emit (did_change_selected_entry (Some "a"))])).
Proof. repeat split; vm_compute; reflexivity. Qed.


(** ** The further properties on concrete sets *)

Lemma deserialize_serialize_witness :
  Forall (fun e => untagged (tagged e) = e) (entries (fresh ["a"; "b"] 1)) /\
  valid_selection (fresh ["a"; "b"] 1) /\
  exists s0 : state,
  deserialize untagged (serialize tagged (fresh ["a"; "b"] 1)) = inr s0 /\
  getEntries s0 = getEntries (fresh ["a"; "b"] 1) /\
  getSelectedIndex s0 = getSelectedIndex (fresh ["a"; "b"] 1) /\
  getSelectedEntry s0 = getSelectedEntry (fresh ["a"; "b"] 1) /\
  transactionDepth s0 = 0 /\
  trace s0 = [].
Proof.
  assert (H1 : Forall (fun e => untagged (tagged e) = e) (entries (fresh ["a"; "b"] 1)))
    by (repeat constructor).
  assert (H2 : valid_selection (fresh ["a"; "b"] 1))
    by (right; unfold getSize; simpl; lia).
  split; [exact H1|].
  split; [exact H2|].
  apply (deserialize_serialize tagged untagged (fresh ["a"; "b"] 1));
    assumption.
Defined.

Lemma deserialize_refuses_missing_selection_witness :
  entries (fresh ["a"] (-1)) <> [] /\
  selectedIndex (fresh ["a"] (-1)) = -1 /\
  deserialize untagged (serialize tagged (fresh ["a"] (-1))) =
  inl (Error "Initial selection required").
Proof.
  assert (H1 : entries (fresh ["a"] (-1)) <> [])
    by (discriminate).
  assert (H2 : selectedIndex (fresh ["a"] (-1)) = -1)
    by (reflexivity).
  split; [exact H1|].
  split; [exact H2|].
  apply (deserialize_refuses_missing_selection tagged untagged (fresh ["a"] (-1)));
    assumption.
Defined.

Lemma addAt_inserts_witness :
  0 <= 1 <= getSize (fresh ["a"; "b"] 0) /\
  includes "x" (fresh ["a"; "b"] 0) = false /\
  emitterDisposed (fresh ["a"; "b"] 0) = false /\
  exists (s' : state) (bulk : list effect),
  run plain silent 0 [Call_addAt "x" 1] (fresh ["a"; "b"] 0) = (Normal, s') /\
  entries s' =
    take (Z.to_nat 1) (entries (fresh ["a"; "b"] 0)) ++
    "x" :: drop (Z.to_nat 1) (entries (fresh ["a"; "b"] 0)) /\
  selectedIndex s' =
    (if decide (1 <= selectedIndex (fresh ["a"; "b"] 0)) then selectedIndex (fresh ["a"; "b"] 0) + 1
     else selectedIndex (fresh ["a"; "b"] 0)) /\
  trace s' =
    trace (fresh ["a"; "b"] 0) ++ (if emitting (fresh ["a"; "b"] 0) then [Warn] else []) ++
    Emit (did_add_entry "x" 1) :: bulk /\
  Forall (fun ef => is_bulk ef = true) bulk /\
  (0 <= selectedIndex (fresh ["a"; "b"] 0) -> getSelectedEntry s' = getSelectedEntry (fresh ["a"; "b"] 0)).
Proof.
  assert (H1 : 0 <= 1 <= getSize (fresh ["a"; "b"] 0))
    by (unfold getSize; simpl; lia).
  assert (H2 : includes "x" (fresh ["a"; "b"] 0) = false)
    by (vm_compute; reflexivity).
  assert (H3 : emitterDisposed (fresh ["a"; "b"] 0) = false)
    by (reflexivity).
  split; [exact H1|].
  split; [exact H2|].
  split; [exact H3|].
  apply (addAt_inserts plain 0 "x" 1 (fresh ["a"; "b"] 0));
    assumption.
Defined.

Lemma add_appends_witness :
  includes "x" (fresh ["a"; "b"] 0) = false /\
  emitterDisposed (fresh ["a"; "b"] 0) = false /\
  selectedIndex (fresh ["a"; "b"] 0) < getSize (fresh ["a"; "b"] 0) /\
  exists (s' : state) (bulk : list effect),
  run plain silent 0 [Call_add "x"] (fresh ["a"; "b"] 0) = (Normal, s') /\
  entries s' = entries (fresh ["a"; "b"] 0) ++ ["x"] /\
  selectedIndex s' = selectedIndex (fresh ["a"; "b"] 0) /\
  trace s' =
    trace (fresh ["a"; "b"] 0) ++ (if emitting (fresh ["a"; "b"] 0) then [Warn] else []) ++
    Emit (did_add_entry "x" (getSize (fresh ["a"; "b"] 0))) :: bulk /\
  Forall (fun ef => is_bulk ef = true) bulk.
Proof.
  assert (H1 : includes "x" (fresh ["a"; "b"] 0) = false)
    by (vm_compute; reflexivity).
  assert (H2 : emitterDisposed (fresh ["a"; "b"] 0) = false)
    by (reflexivity).
  assert (H3 : selectedIndex (fresh ["a"; "b"] 0) < getSize (fresh ["a"; "b"] 0))
    by (unfold getSize; simpl; lia).
  split; [exact H1|].
  split; [exact H2|].
  split; [exact H3|].
  apply (add_appends plain 0 "x" (fresh ["a"; "b"] 0));
    assumption.
Defined.

Lemma remove_absent_is_noop_witness :
  ("z" ∉ entries (fresh ["a"; "b"] 0)) /\
  run plain silent 0 [Call_remove "z"] (fresh ["a"; "b"] 0) = (Normal, (fresh ["a"; "b"] 0)).
Proof.
  assert (H1 : "z" ∉ entries (fresh ["a"; "b"] 0))
    by (apply (bool_decide_unpack _); vm_compute; exact I).
  split; [exact H1|].
  apply (remove_absent_is_noop plain silent 0 "z" (fresh ["a"; "b"] 0));
    assumption.
Defined.

Lemma remove_present_witness :
  ("b" ∈ entries (fresh ["a"; "b"] 0)) /\
  emitterDisposed (fresh ["a"; "b"] 0) = false /\
  exists (n : nat) (s' : state) (bulk : list effect),
  entries (fresh ["a"; "b"] 0) !! n = Some "b" /\
  (forall m : nat, (m < n)%nat -> entries (fresh ["a"; "b"] 0) !! m <> Some "b") /\
  run plain silent 0 [Call_remove "b"] (fresh ["a"; "b"] 0) = (Normal, s') /\
  entries s' = delete n (entries (fresh ["a"; "b"] 0)) /\
  trace s' =
    trace (fresh ["a"; "b"] 0) ++ (if emitting (fresh ["a"; "b"] 0) then [Warn] else []) ++
    Emit (did_remove_entry (Some "b") (Z.of_nat n)) :: bulk /\
  Forall (fun ef => is_bulk ef = true) bulk /\
  (NoDup (entries (fresh ["a"; "b"] 0)) -> includes "b" s' = false).
Proof.
  assert (H1 : "b" ∈ entries (fresh ["a"; "b"] 0))
    by (apply (bool_decide_unpack _); vm_compute; exact I).
  assert (H2 : emitterDisposed (fresh ["a"; "b"] 0) = false)
    by (reflexivity).
  split; [exact H1|].
  split; [exact H2|].
  apply (remove_present plain 0 "b" (fresh ["a"; "b"] 0));
    assumption.
Defined.

Lemma select_present_witness :
  ("b" ∈ entries (fresh ["a"; "b"] 0)) /\
  emitterDisposed (fresh ["a"; "b"] 0) = false /\
  ((transactionDepth (fresh ["a"; "b"] 0) = 0 -> currentTransactionChangedEntries (fresh ["a"; "b"] 0) = false)) /\
  exists (s' : state) (t : list effect),
  run plain silent 0 [Call_select "b"] (fresh ["a"; "b"] 0) = (Normal, s') /\
  getEntries s' = getEntries (fresh ["a"; "b"] 0) /\
  getSelectedEntry s' = Some "b" /\
  trace s' = trace (fresh ["a"; "b"] 0) ++ (if emitting (fresh ["a"; "b"] 0) then [Warn] else []) ++ t /\
  (t = [] \/ t = [Emit (did_change_selected_entry (Some "b"))]) /\
  (transactionDepth (fresh ["a"; "b"] 0) = 0 ->
   (t <> [] <-> getSelectedEntry (fresh ["a"; "b"] 0) <> Some "b")) /\
  (transactionDepth (fresh ["a"; "b"] 0) <> 0 -> t = []).
Proof.
  assert (H1 : "b" ∈ entries (fresh ["a"; "b"] 0))
    by (apply (bool_decide_unpack _); vm_compute; exact I).
  assert (H2 : emitterDisposed (fresh ["a"; "b"] 0) = false)
    by (reflexivity).
  assert (H3 : (transactionDepth (fresh ["a"; "b"] 0) = 0 -> currentTransactionChangedEntries (fresh ["a"; "b"] 0) = false))
    by (intros _; reflexivity).
  split; [exact H1|].
  split; [exact H2|].
  split; [exact H3|].
  apply (select_present plain 0 "b" (fresh ["a"; "b"] 0));
    assumption.
Defined.

Lemma selectNext_iterated_witness :
  0 <= selectedIndex (fresh ["a"; "b"; "c"] 1) < getSize (fresh ["a"; "b"; "c"] 1) /\
  exists s' : state,
  run plain silent 0 (replicate 4%nat Call_selectNext) (fresh ["a"; "b"; "c"] 1) = (Normal, s') /\
  getEntries s' = getEntries (fresh ["a"; "b"; "c"] 1) /\
  getSelectedIndex s' = (selectedIndex (fresh ["a"; "b"; "c"] 1) + Z.of_nat 4%nat) mod getSize (fresh ["a"; "b"; "c"] 1).
Proof.
  assert (H1 : 0 <= selectedIndex (fresh ["a"; "b"; "c"] 1) < getSize (fresh ["a"; "b"; "c"] 1))
    by (unfold getSize; simpl; lia).
  split; [exact H1|].
  apply (selectNext_iterated plain 0 4%nat (fresh ["a"; "b"; "c"] 1));
    assumption.
Defined.

Lemma selectNext_selectPrevious_inverse_witness :
  0 <= selectedIndex (fresh ["a"; "b"; "c"] 1) < getSize (fresh ["a"; "b"; "c"] 1) /\
  (exists s' : state,
     run plain silent 0 [Call_selectNext; Call_selectPrevious] (fresh ["a"; "b"; "c"] 1) = (Normal, s') /\
     getEntries s' = getEntries (fresh ["a"; "b"; "c"] 1) /\
     getSelectedIndex s' = getSelectedIndex (fresh ["a"; "b"; "c"] 1)) /\
  (exists s' : state,
     run plain silent 0 [Call_selectPrevious; Call_selectNext] (fresh ["a"; "b"; "c"] 1) = (Normal, s') /\
     getEntries s' = getEntries (fresh ["a"; "b"; "c"] 1) /\
     getSelectedIndex s' = getSelectedIndex (fresh ["a"; "b"; "c"] 1)).
Proof.
  assert (H1 : 0 <= selectedIndex (fresh ["a"; "b"; "c"] 1) < getSize (fresh ["a"; "b"; "c"] 1))
    by (unfold getSize; simpl; lia).
  split; [exact H1|].
  apply (selectNext_selectPrevious_inverse plain 0 (fresh ["a"; "b"; "c"] 1));
    assumption.
Defined.

Lemma add_then_remove_still_reports_change_witness :
  transactionDepth (fresh ["a"; "b"] 0) = 0 /\
  currentTransactionChangedEntries (fresh ["a"; "b"] 0) = false /\
  emitting (fresh ["a"; "b"] 0) = false /\
  emitterDisposed (fresh ["a"; "b"] 0) = false /\
  ("x" ∉ entries (fresh ["a"; "b"] 0)) /\
  valid_selection (fresh ["a"; "b"] 0) /\
  exists s' : state,
  run plain silent 0 [Call_transact [Call_add "x"; Call_remove "x"]] (fresh ["a"; "b"] 0) =
    (Normal, s') /\
  getEntries s' = getEntries (fresh ["a"; "b"] 0) /\
  getSelectedIndex s' = getSelectedIndex (fresh ["a"; "b"] 0) /\
  trace s' =
    trace (fresh ["a"; "b"] 0) ++
    [Emit (did_add_entry "x" (getSize (fresh ["a"; "b"] 0)));
     Emit (did_remove_entry (Some "x") (getSize (fresh ["a"; "b"] 0)));
     Emit (did_change_entries (getEntries (fresh ["a"; "b"] 0)))].
Proof.
  assert (H1 : transactionDepth (fresh ["a"; "b"] 0) = 0)
    by (reflexivity).
  assert (H2 : currentTransactionChangedEntries (fresh ["a"; "b"] 0) = false)
    by (reflexivity).
  assert (H3 : emitting (fresh ["a"; "b"] 0) = false)
    by (reflexivity).
  assert (H4 : emitterDisposed (fresh ["a"; "b"] 0) = false)
    by (reflexivity).
  assert (H5 : "x" ∉ entries (fresh ["a"; "b"] 0))
    by (apply (bool_decide_unpack _); vm_compute; exact I).
  assert (H6 : valid_selection (fresh ["a"; "b"] 0))
    by (right; unfold getSize; simpl; lia).
  split; [exact H1|].
  split; [exact H2|].
  split; [exact H3|].
  split; [exact H4|].
  split; [exact H5|].
  split; [exact H6|].
  apply (add_then_remove_still_reports_change plain 0 "x" (fresh ["a"; "b"] 0));
    assumption.
Defined.

Lemma entries_stay_distinct_witness :
  NoDup (entries (fresh [] (-1))) /\
  NoDup (getEntries (run plain adds_two 1%nat [Call_add "a"] (fresh [] (-1))).2).
Proof.
  assert (H1 : NoDup (entries (fresh [] (-1))))
    by (constructor).
  split; [exact H1|].
  apply (entries_stay_distinct plain adds_two 1%nat [Call_add "a"] (fresh [] (-1)));
    assumption.
Defined.


Lemma selectedIndex_stays_in_bounds_witness :
  -1 <= selectedIndex (fresh [] (-1)) < getSize (fresh [] (-1)) /\
  -1 <= getSelectedIndex (run plain adds_two 1%nat [Call_add "a"] (fresh [] (-1))).2 < getSize (run plain adds_two 1%nat [Call_add "a"] (fresh [] (-1))).2.
Proof.
  assert (H1 : -1 <= selectedIndex (fresh [] (-1)) < getSize (fresh [] (-1)))
    by (unfold getSize; simpl; lia).
  split; [exact H1|].
  apply (selectedIndex_stays_in_bounds plain adds_two 1%nat [Call_add "a"] (fresh [] (-1)));
    assumption.
Defined.

Lemma observeEntries_is_up_to_date_witness :
  transactionDepth (fresh ["a"; "b"; "c"] 0) = 0 /\
  emitterDisposed (fresh ["a"; "b"; "c"] 0) = false /\
  currentTransactionChangedEntries (fresh ["a"; "b"; "c"] 0) = false /\
  forallb mutation [Call_transact test_body] = true /\
  run plain silent 0 [Call_transact test_body] (fresh ["a"; "b"; "c"] 0) = (Normal, after_test_body) /\
  exists later : list effect,
  trace after_test_body = trace (fresh ["a"; "b"; "c"] 0) ++ later /\
  last (observeEntries (fresh ["a"; "b"; "c"] 0) later) = Some (getEntries after_test_body).
Proof.
  assert (H1 : transactionDepth (fresh ["a"; "b"; "c"] 0) = 0)
    by (reflexivity).
  assert (H2 : emitterDisposed (fresh ["a"; "b"; "c"] 0) = false)
    by (reflexivity).
  assert (H3 : currentTransactionChangedEntries (fresh ["a"; "b"; "c"] 0) = false)
    by (reflexivity).
  assert (H4 : forallb mutation [Call_transact test_body] = true)
    by (reflexivity).
  assert (H5 : run plain silent 0 [Call_transact test_body] (fresh ["a"; "b"; "c"] 0) = (Normal, after_test_body))
    by (vm_compute; reflexivity).
  split; [exact H1|].
  split; [exact H2|].
  split; [exact H3|].
  split; [exact H4|].
  split; [exact H5|].
  apply (observeEntries_is_up_to_date plain 0 [Call_transact test_body] (fresh ["a"; "b"; "c"] 0) after_test_body);
    assumption.
Defined.

Lemma observeSelectedEntry_is_up_to_date_witness :
  transactionDepth (fresh ["a"; "b"; "c"] 0) = 0 /\
  emitterDisposed (fresh ["a"; "b"; "c"] 0) = false /\
  currentTransactionChangedEntries (fresh ["a"; "b"; "c"] 0) = false /\
  forallb mutation [Call_transact test_body] = true /\
  run plain silent 0 [Call_transact test_body] (fresh ["a"; "b"; "c"] 0) = (Normal, after_test_body) /\
  exists later : list effect,
  trace after_test_body = trace (fresh ["a"; "b"; "c"] 0) ++ later /\
  last (observeSelectedEntry (fresh ["a"; "b"; "c"] 0) later) = Some (getSelectedEntry after_test_body).
Proof.
  assert (H1 : transactionDepth (fresh ["a"; "b"; "c"] 0) = 0)
    by (reflexivity).
  assert (H2 : emitterDisposed (fresh ["a"; "b"; "c"] 0) = false)
    by (reflexivity).
  assert (H3 : currentTransactionChangedEntries (fresh ["a"; "b"; "c"] 0) = false)
    by (reflexivity).
  assert (H4 : forallb mutation [Call_transact test_body] = true)
    by (reflexivity).
  assert (H5 : run plain silent 0 [Call_transact test_body] (fresh ["a"; "b"; "c"] 0) = (Normal, after_test_body))
    by (vm_compute; reflexivity).
  split; [exact H1|].
  split; [exact H2|].
  split; [exact H3|].
  split; [exact H4|].
  split; [exact H5|].
  apply (observeSelectedEntry_is_up_to_date plain 0 [Call_transact test_body] (fresh ["a"; "b"; "c"] 0) after_test_body);
    assumption.
Defined.

Lemma usingEachEntry_follows_entries_witness :
  emitterDisposed (fresh ["a"; "b"; "c"] 0) = false /\
  NoDup (entries (fresh ["a"; "b"; "c"] 0)) /\
  forallb by_entry test_body = true /\
  exists later : list effect,
  trace (run plain silent 0 test_body (fresh ["a"; "b"; "c"] 0)).2 = trace (fresh ["a"; "b"; "c"] 0) ++ later /\
  usingEachEntry (fresh ["a"; "b"; "c"] 0) later ≡ₚ getEntries (run plain silent 0 test_body (fresh ["a"; "b"; "c"] 0)).2.
Proof.
  assert (H1 : emitterDisposed (fresh ["a"; "b"; "c"] 0) = false)
    by (reflexivity).
  assert (H2 : NoDup (entries (fresh ["a"; "b"; "c"] 0)))
    by (apply (bool_decide_unpack _); vm_compute; exact I).
  assert (H3 : forallb by_entry test_body = true)
    by (reflexivity).
  split; [exact H1|].
  split; [exact H2|].
  split; [exact H3|].
  apply (usingEachEntry_follows_entries plain 0 test_body (fresh ["a"; "b"; "c"] 0));
    assumption.
Defined.

Lemma addAt_refused_witness :
  (includes "a" (fresh ["a"; "b"] 0) = true \/ 0 > getSize (fresh ["a"; "b"] 0)) /\
  run plain silent 0 [Call_addAt "a" 0] (fresh ["a"; "b"] 0) = (Throw AssertionError, enter (fresh ["a"; "b"] 0)) /\
  transactionDepth (enter (fresh ["a"; "b"] 0)) = transactionDepth (fresh ["a"; "b"] 0) + 1.
Proof.
  assert (H1 : includes "a" (fresh ["a"; "b"] 0) = true \/ 0 > getSize (fresh ["a"; "b"] 0))
    by (left; vm_compute; reflexivity).
  split; [exact H1|].
  apply (addAt_refused plain 0 "a" 0 (fresh ["a"; "b"] 0));
    assumption.
Defined.

Lemma selectAt_refused_witness :
  5 <> selectedIndex (fresh ["a"; "b"] 0) /\
  (5 < 0 \/ 5 >= getSize (fresh ["a"; "b"] 0)) /\
  run plain silent 0 [Call_selectAt 5] (fresh ["a"; "b"] 0) =
    (Throw (Error "Invalid selection index"), enter (fresh ["a"; "b"] 0)) /\
  transactionDepth (enter (fresh ["a"; "b"] 0)) = transactionDepth (fresh ["a"; "b"] 0) + 1.
Proof.
  assert (H1 : 5 <> selectedIndex (fresh ["a"; "b"] 0))
    by (simpl; lia).
  assert (H2 : 5 < 0 \/ 5 >= getSize (fresh ["a"; "b"] 0))
    by (right; unfold getSize; simpl; lia).
  split; [exact H1|].
  split; [exact H2|].
  apply (selectAt_refused plain 0 5 (fresh ["a"; "b"] 0));
    assumption.
Defined.

Lemma select_absent_throws_witness :
  ("z" ∉ entries (fresh ["a"; "b"] 0)) /\
  run plain adds_two 0 [Call_select "z"] (fresh ["a"; "b"] 0) = (Throw (Error "Entry not in set"), (fresh ["a"; "b"] 0)).
Proof.
  assert (H1 : "z" ∉ entries (fresh ["a"; "b"] 0))
    by (apply (bool_decide_unpack _); vm_compute; exact I).
  split; [exact H1|].
  apply (select_absent_throws plain adds_two 0 "z" (fresh ["a"; "b"] 0));
    assumption.
Defined.

Lemma selection_stays_valid_witness :
  valid_selection (fresh ["a"; "b"] 0) /\
  keeps_selection_valid (Call_remove "a") (fresh ["a"; "b"] 0) /\
  valid_selection (run plain silent 0 [(Call_remove "a")] (fresh ["a"; "b"] 0)).2.
Proof.
  assert (H1 : valid_selection (fresh ["a"; "b"] 0))
    by (right; unfold getSize; simpl; lia).
  assert (H2 : keeps_selection_valid (Call_remove "a") (fresh ["a"; "b"] 0))
    by (exact I).
  split; [exact H1|].
  split; [exact H2|].
  apply (selection_stays_valid plain 0 (Call_remove "a") (fresh ["a"; "b"] 0));
    assumption.
Defined.

Lemma destroyed_set_reports_destroyed_witness :
  run plain silent 0 [Call_destroy] (fresh [] (-1)) = (Normal, after_destroy_of_empty) /\
  isAlive after_destroy_of_empty = JBool false /\ isDestroyed after_destroy_of_empty = true.
Proof.
  assert (H1 : run plain silent 0 [Call_destroy] (fresh [] (-1)) = (Normal, after_destroy_of_empty))
    by (vm_compute; reflexivity).
  split; [exact H1|].
  apply (destroyed_set_reports_destroyed plain 0 (fresh [] (-1)) after_destroy_of_empty);
    assumption.
Defined.


End SelectionOrderedSet.

(** * Properties of [intersperse] *)
Module DockGroup_properties.
Import DockGroup.
Section Intersperse.
Context {A : Type}.
Implicit Types (factory : Z -> A) (items rest result : list A).

Lemma forEach_weave (list_length : Z) factory rest (i : Z) result :
  i + Z.of_nat (length rest) = list_length ->
  intersperse_forEach list_length factory rest i result =
  result ++ weave factory i rest.
Proof.
  revert i result. induction rest as [|item rest IH]; intros i result Hlen.
  - simpl. rewrite app_nil_r. reflexivity.
  - cbn [intersperse_forEach]. cbv zeta. destruct rest as [|item' rest].
    + simpl in *. case_decide; [lia | reflexivity].
    + case_decide as Hlast; [|simpl in *; lia].
      rewrite IH by (simpl in *; lia).
      rewrite <- !app_assoc. reflexivity.
Qed.

Lemma intersperse_weave items factory :
  intersperse items factory = weave factory 0 items.
Proof. unfold intersperse. rewrite forEach_weave by lia. reflexivity. Qed.

Lemma weave_length factory (i : Z) rest :
  length (weave factory i rest) = (2 * length rest - 1)%nat.
Proof.
  revert i. induction rest as [|item rest IH]; intros i; [reflexivity|].
  destruct rest as [|item' rest]; [reflexivity|].
  change (length (weave factory i (item :: item' :: rest)))
    with (S (S (length (weave factory (i + 1) (item' :: rest))))).
  rewrite IH. simpl. lia.
Qed.

Lemma weave_item factory (i : Z) rest (k : nat) :
  weave factory i rest !! (2 * k)%nat = rest !! k.
Proof.
  revert i k. induction rest as [|item rest IH]; intros i k; [reflexivity|].
  destruct k as [|k]; [reflexivity|].
  replace (2 * S k)%nat with (S (S (2 * k))) by lia.
  destruct rest as [|item' rest]; [reflexivity|].
  change ((item :: item' :: rest) !! S k) with ((item' :: rest) !! k).
  rewrite <- (IH (i + 1) k). reflexivity.
Qed.

Lemma weave_divider factory (i : Z) rest (k : nat) :
  weave factory i rest !! (2 * k + 1)%nat =
  if decide (S k < length rest)%nat then Some (factory (i + Z.of_nat k))
  else None.
Proof.
  revert i k. induction rest as [|item rest IH]; intros i k.
  - rewrite decide_False by (simpl; lia). reflexivity.
  - destruct rest as [|item' rest].
    + rewrite decide_False by (simpl; lia). destruct k; reflexivity.
    + destruct k as [|k].
      * rewrite decide_True by (simpl; lia). simpl. f_equal. f_equal. lia.
      * replace (2 * S k + 1)%nat with (S (S (2 * k + 1))) by lia.
        change (weave factory i (item :: item' :: rest) !! S (S (2 * k + 1)))
          with (weave factory (i + 1) (item' :: rest) !! (2 * k + 1)%nat).
        rewrite IH.
        destruct (decide (S k < length (item' :: rest))%nat) as [Hk | Hk].
        -- rewrite decide_True by (simpl in *; lia). f_equal. f_equal. lia.
        -- rewrite decide_False by (simpl in *; lia). reflexivity.
Qed.

(** X23. [intersperse] puts one divider between any two neighbours and
    none at either end: [n] items give [2n - 1] elements (none when there
    is no item), and the last element is the last item. *)
Theorem intersperse_length items factory :
  length (intersperse items factory) = (2 * length items - 1)%nat /\
  last (intersperse items factory) = last items.
Proof.
  rewrite intersperse_weave. split; [apply weave_length|].
  rewrite !last_lookup, weave_length.
  destruct items as [|item items]; [reflexivity|].
  replace (pred (2 * length (item :: items) - 1))
    with (2 * length items)%nat by (simpl; lia).
  rewrite weave_item. reflexivity.
Qed.

(** X24. The items keep their order at the even positions of the result
    of [intersperse], and the odd position after item [k] holds
    [factory(k)], the last item having nothing after it. *)
Theorem intersperse_positions items factory (k : nat) :
  intersperse items factory !! (2 * k)%nat = items !! k /\
  intersperse items factory !! (2 * k + 1)%nat =
    if decide (S k < length items)%nat then Some (factory (Z.of_nat k))
    else None.
Proof.
  rewrite intersperse_weave. split; [apply weave_item|].
  rewrite weave_divider. reflexivity.
Qed.
End Intersperse.
End DockGroup_properties.

(** * Properties of the dock *)
Module Dock_properties.
Import Dock.

Lemma last_cons_default (v : bool) (l : list bool) :
  last (v :: l) = Some (default v (last l)).
Proof.
  revert v. induction l as [|w l IH]; intros v; [reflexivity|].
  change (last (v :: w :: l)) with (last (w :: l)). rewrite IH.
  destruct l; reflexivity.
Qed.

Lemma alternates_app (before : bool) (l1 l2 : list bool) :
  alternates before l1 ->
  alternates (default before (last l1)) l2 ->
  alternates before (l1 ++ l2).
Proof.
  revert before. induction l1 as [|v l1 IH]; intros before H1 H2;
    [exact H2|].
  destruct H1 as [Hv H1]. split; [exact Hv|].
  apply IH; [exact H1|].
  rewrite last_cons_default in H2. exact H2.
Qed.

Lemma visibility_informed_refl (d : dock) : emitterDisposed d = false -> informed d d.
Proof.
  intros Hd. split; [exact Hd|]. exists []. rewrite app_nil_r.
  repeat split.
Qed.

Lemma visibility_informed_trans (d d1 d2 : dock) :
  informed d d1 -> informed d1 d2 -> informed d d2.
Proof.
  intros (_ & t1 & Ht1 & Hl1 & Ha1) (Hd & t2 & Ht2 & Hl2 & Ha2).
  split; [exact Hd|]. exists (t1 ++ t2).
  rewrite Ht2, Ht1, <- app_assoc. split; [reflexivity|].
  unfold observeVisible, visible_payloads in *. rewrite omap_app.
  rewrite last_cons_default in Hl1, Hl2. injection Hl1 as Hl1.
  injection Hl2 as Hl2.
  split.
  - rewrite last_cons_default. f_equal. rewrite last_app.
    destruct (last (omap _ t2)) as [v|] eqn:Hlast; simpl in *; congruence.
  - apply alternates_app; [exact Ha1|]. rewrite Hl1. exact Ha2.
Qed.

Lemma informed_log (ef : effect) (d : dock) :
  (forall v, ef <> Emit_did_change_visible v) ->
  emitterDisposed d = false ->
  informed d (log ef d).
Proof.
  intros Hef Hd. split; [exact Hd|]. exists [ef]. split; [reflexivity|].
  destruct ef; try (repeat split; reflexivity). exfalso. eapply Hef. reflexivity.
Qed.

Lemma informed_setState (new : newState) (d : dock) :
  emitterDisposed d = false -> informed d (setState new d).
Proof.
  destruct d as [l st dis tr]. simpl. intros ->.
  unfold setState, emit, informed, observeVisible, isVisible. cbv zeta.
  cbn [dock_state loc emitterDisposed trace].
  generalize (assign st new). intros next.
  destruct (bool_decide (visible next <> visible st)) eqn:Hchange.
  - apply bool_decide_eq_true in Hchange.
    assert (Hneg : visible next = negb (visible st))
      by (destruct (visible next) eqn:E1, (visible st) eqn:E2;
          simpl; congruence).
    destruct (_ || _); simpl; (split; [reflexivity|]).
    + exists [UpdateSync; Emit_did_change_visible (visible next)].
      rewrite <- app_assoc. simpl. repeat split. exact Hneg.
    + exists [Update; Emit_did_change_visible (visible next)].
      rewrite <- app_assoc. simpl. repeat split. exact Hneg.
  - apply bool_decide_eq_false in Hchange. apply dec_stable in Hchange.
    destruct (_ || _); simpl; (split; [reflexivity|]).
    + exists [UpdateSync]. simpl. repeat split. congruence.
    + exists [Update]. simpl. repeat split. congruence.
Qed.

Lemma informed_exec (c : cmd) (d : dock) :
  is_destroy c = false ->
  emitterDisposed d = false ->
  informed d (exec c d).
Proof.
  intros Hc Hd.
  destruct c; simpl in Hc; try discriminate Hc; simpl exec.
  - apply informed_setState, Hd.
  - apply informed_setState, Hd.
  - apply informed_setState, Hd.
  - unfold getElement. destruct (negb _); [|apply visibility_informed_refl, Hd].
    pose proof (informed_setState (NewState (Some true) None None None) d Hd)
      as H1.
    eapply visibility_informed_trans; [exact H1|].
    apply informed_log; [discriminate | apply H1].
  - apply informed_log; [discriminate | exact Hd].
  - pose proof (informed_setState (NewState None None (Some true) None) d Hd)
      as H1.
    eapply visibility_informed_trans; [exact H1|].
    apply informed_log; [discriminate | apply H1].
  - unfold handleDidAddPaneItem.
    destruct (size (dock_state d));
      [apply visibility_informed_refl | apply informed_setState]; exact Hd.
  - unfold handleDidRemovePaneItem.
    case_decide; [apply informed_setState | apply visibility_informed_refl]; exact Hd.
  - unfold handleResizeHandleDragStart.
    eapply visibility_informed_trans;
      [apply (informed_log AddWindowListeners); [discriminate | exact Hd]|].
    apply informed_setState, Hd.
  - unfold handleResizeToFit.
    destruct (getActivePaneItem pc) as [it|]; [|apply visibility_informed_refl, Hd].
    destruct (getPreferredSize it (loc d));
      [apply informed_setState | apply visibility_informed_refl]; exact Hd.
  - unfold handleMouseMove, handleMouseUp.
    case_decide; [|apply informed_setState, Hd].
    eapply visibility_informed_trans;
      [apply (informed_log RemoveWindowListeners); [discriminate | exact Hd]|].
    apply informed_setState, Hd.
  - unfold handleMouseUp.
    eapply visibility_informed_trans;
      [apply (informed_log RemoveWindowListeners); [discriminate | exact Hd]|].
    apply informed_setState, Hd.
  - apply informed_setState, Hd.
Qed.

(** X25. [observeVisible] is kept up to date, and did-change-visible is
    never a false alarm.  Whatever is done to a dock that is not
    destroyed, the last value its callback has been called with is what
    [isVisible] returns, and every value it is called with differs from
    the one before. *)
Theorem observeVisible_is_up_to_date (cs : list cmd) (d : dock) :
  emitterDisposed d = false ->
  forallb (fun c => negb (is_destroy c)) cs = true ->
  exists later : list effect,
    trace (run cs d) = trace d ++ later /\
    last (observeVisible d later) = Some (isVisible (run cs d)) /\
    alternates (isVisible d) (visible_payloads later).
Proof.
  intros Hd Hcs.
  assert (H : informed d (run cs d)).
  { revert d Hd. induction cs as [|c cs IH]; intros d Hd.
    - apply visibility_informed_refl, Hd.
    - simpl in Hcs. apply andb_prop in Hcs as [Hc Hcs].
      apply negb_true_iff in Hc.
      pose proof (informed_exec c d Hc Hd) as H1.
      eapply visibility_informed_trans; [exact H1|].
      apply IH; [exact Hcs | apply H1]. }
  exact (proj2 H).
Qed.

(** X26. A dock that is ready and visible is rendered at least
    [MINIMUM_SIZE] pixels wide (or high, for the bottom dock), at its
    own size when that is no less, and a dock that is hidden or not ready
    is rendered at 0 pixels. *)
Theorem render_size (d : dock) :
  styled (render d) = getWidthOrHeight (loc d) /\
  (ready (dock_state d) && visible (dock_state d) = false ->
   pixels (render d) = 0) /\
  (ready (dock_state d) && visible (dock_state d) = true ->
   MINIMUM_SIZE <= pixels (render d) /\
   forall v, size (dock_state d) = Some v -> MINIMUM_SIZE <= v ->
             pixels (render d) = v).
Proof.
  unfold render. cbv zeta.
  destruct (ready (dock_state d)), (visible (dock_state d)); simpl;
    (split; [reflexivity|]); (split; [intros H; first [discriminate H | reflexivity]|]);
    intros H; try discriminate H.
  split; [lia|]. intros v -> Hv. unfold or_else, MINIMUM_SIZE in *.
  case_decide; lia.
Qed.

(** X27. What [serialize] writes, [deserialize] restores: the visibility
    when the pane container got items back (the dock stays hidden when it
    got none), and the size when the dock had one; a dock serialized
    without a size gets its initial size. *)
Theorem dock_deserialize_serialize (d d0 : dock) (pc : panes) :
  (getPaneItems pc <> [] ->
   isVisible (deserialize (serialize d) pc d0) = isVisible d) /\
  (getPaneItems pc = [] ->
   isVisible (deserialize (serialize d) pc d0) = false) /\
  (forall v, size (dock_state d) = Some v -> v <> 0 ->
     size (dock_state (deserialize (serialize d) pc d0)) = Some v) /\
  (size (dock_state d) = None ->
   size (dock_state (deserialize (serialize d) pc d0)) =
   getInitialSize pc d0).
Proof.
  assert (Hstate : forall new, dock_state (setState new d0) =
                               assign (dock_state d0) new).
  { intros new. unfold setState, emit. cbv zeta.
    repeat (destruct (_ || _) || destruct (bool_decide _) ||
            destruct (emitterDisposed _)); reflexivity. }
  unfold isVisible, deserialize. rewrite Hstate. unfold serialize. simpl.
  repeat split.
  - intros Hne. destruct (getPaneItems pc); [congruence|].
    simpl. apply andb_true_r.
  - intros ->. simpl. apply andb_false_r.
  - intros v -> Hv. case_decide; [contradiction | reflexivity].
  - intros ->. reflexivity.
Qed.
Lemma observeVisible_is_up_to_date_witness :
  emitterDisposed (constructor Left) = false /\
  forallb (fun c => negb (is_destroy c))
    [Call_show; DidActivatePane; Call_toggle] = true /\
  exists later : list effect,
    trace (run [Call_show; DidActivatePane; Call_toggle] (constructor Left)) =
      trace (constructor Left) ++ later /\
    last (observeVisible (constructor Left) later) =
      Some (isVisible
              (run [Call_show; DidActivatePane; Call_toggle]
                 (constructor Left))) /\
    alternates (isVisible (constructor Left)) (visible_payloads later).
Proof.
  split; [reflexivity|]. split; [reflexivity|].
  apply (observeVisible_is_up_to_date
           [Call_show; DidActivatePane; Call_toggle] (constructor Left));
    reflexivity.
Defined.
End Dock_properties.

(** * Properties of [DockPane.deserialize] *)
Module DockPane_properties.
Import DockPane.
Section Deserialize.
Context {ItemState Item : Type}.
Variable deserializeItem : ItemState -> option Item.
Variable getURI : Item -> option (option string).

Lemma find_elem_of (test : Item -> bool) (l : list Item) (item : Item) :
  find test l = Some item -> item ∈ l /\ test item = true.
Proof.
  induction l as [|x l IH]; simpl; [discriminate|].
  destruct (test x) eqn:Hx.
  - intros [= <-]. split; [left | exact Hx].
  - intros Hf. destruct (IH Hf) as [Hin Ht]. split; [right; exact Hin | exact Ht].
Qed.

(** X28. The active item of a restored pane is one of its items.  The
    items are the item states that could be deserialized, in their order;
    whatever [activeItemIndex] and the URI say, an active item, when there
    is one, is among them; and when it was not found by its index, it is
    an item whose [getURI()] is the serialized URI. *)
Theorem activeItem_is_an_item (state : serialized) (item : Item) :
  activeItem (deserialize deserializeItem getURI state) = Some item ->
  items (deserialize deserializeItem getURI state) =
    omap deserializeItem (ser_items state) /\
  item ∈ items (deserialize deserializeItem getURI state) /\
  ((forall i, activeItemIndex state = Some i ->
      at_index (items (deserialize deserializeItem getURI state)) i = None) ->
   exists uri : string,
     uri <> EmptyString /\
     getURI item = Some (Some uri) /\
     (activeItemURI state = Some uri \/
      (truthy (activeItemURI state) = false /\
       activeItemUri state = Some uri))).
Proof.
  unfold deserialize. cbv zeta. cbn [items activeItem].
  set (its := omap deserializeItem (ser_items state)).
  set (uri := if truthy (activeItemURI state) then activeItemURI state
              else activeItemUri state).
  intros Hact. split; [reflexivity|].
  assert (Hlookup : forall i it, at_index its i = Some it -> it ∈ its).
  { intros i it. unfold at_index. case_decide; [discriminate|].
    apply list_elem_of_lookup_2. }
  destruct (activeItemIndex state) as [i|] eqn:Hidx.
  - destruct (at_index its i) as [it|] eqn:Hat.
    + injection Hact as ->. split; [eapply Hlookup, Hat|].
      intros Hnone. specialize (Hnone i eq_refl). congruence.
    + destruct (truthy uri) eqn:Huri; [|discriminate Hact].
      apply find_elem_of in Hact as [Hin Htest]. split; [exact Hin|].
      intros _. destruct (getURI item) as [answer|]; [|discriminate Htest].
      apply bool_decide_eq_true in Htest. subst answer.
      destruct uri as [[|a u]|] eqn:Hu; try discriminate Huri.
      exists (String a u). split; [discriminate|]. split; [reflexivity|].
      subst uri. destruct (truthy (activeItemURI state)) eqn:Ht; auto.
  - destruct (truthy uri) eqn:Huri; [|discriminate Hact].
    apply find_elem_of in Hact as [Hin Htest]. split; [exact Hin|].
    intros _. destruct (getURI item) as [answer|]; [|discriminate Htest].
    apply bool_decide_eq_true in Htest. subst answer.
    destruct uri as [[|a u]|] eqn:Hu; try discriminate Huri.
    exists (String a u). split; [discriminate|]. split; [reflexivity|].
    subst uri. destruct (truthy (activeItemURI state)) eqn:Ht; auto.
Qed.
End Deserialize.

Lemma activeItem_is_an_item_witness :
  activeItem
    (deserialize (fun st : string => if decide (st = "broken") then None
                                     else Some st)
       (fun item : string => Some (Some item))
       (Serialized ["a"; "broken"; "b"] (Some 2) (Some "b") None)) =
    Some "b" /\
  items
    (deserialize (fun st : string => if decide (st = "broken") then None
                                     else Some st)
       (fun item : string => Some (Some item))
       (Serialized ["a"; "broken"; "b"] (Some 2) (Some "b") None)) =
    omap (fun st : string => if decide (st = "broken") then None else Some st)
      (ser_items (Serialized ["a"; "broken"; "b"] (Some 2) (Some "b") None)) /\
  "b" ∈ items
    (deserialize (fun st : string => if decide (st = "broken") then None
                                     else Some st)
       (fun item : string => Some (Some item))
       (Serialized ["a"; "broken"; "b"] (Some 2) (Some "b") None)) /\
  ((forall i,
      activeItemIndex
        (Serialized ["a"; "broken"; "b"] (Some 2) (Some "b") None) = Some i ->
      at_index
        (items
           (deserialize (fun st : string => if decide (st = "broken")
                                            then None else Some st)
              (fun item : string => Some (Some item))
              (Serialized ["a"; "broken"; "b"] (Some 2) (Some "b") None)))
        i = None) ->
   exists uri : string,
     uri <> EmptyString /\
     (fun item : string => Some (Some item)) "b" = Some (Some uri) /\
     (activeItemURI
        (Serialized ["a"; "broken"; "b"] (Some 2) (Some "b") None) =
        Some uri \/
      (truthy
         (activeItemURI
            (Serialized ["a"; "broken"; "b"] (Some 2) (Some "b") None)) =
         false /\
       activeItemUri
         (Serialized ["a"; "broken"; "b"] (Some 2) (Some "b") None) =
         Some uri))).
Proof.
  split; [vm_compute; reflexivity|].
  apply (activeItem_is_an_item
           (fun st : string => if decide (st = "broken") then None
                               else Some st)
           (fun item : string => Some (Some item))
           (Serialized ["a"; "broken"; "b"] (Some 2) (Some "b") None) "b").
  vm_compute. reflexivity.
Defined.
End DockPane_properties.
